(** * Batch recolouring: retry executor, task generator, orchestrator, sampler

    A shallow embedding of the batch orchestration code of the application
    ([handleRecolorBatch] in [App.tsx], [withRetry] and
    [recolorImageWithGemini] in the Gemini service, [getHexColor] and
    [getRefColor] in the sampler components, and the earlier [processBatch]
    handler) and of the code around it (the generation handler and the other
    handlers of [App.tsx], the colour selection of [Controls.tsx], the label
    of the loupes, [ExportModal] and [BeforeAfterSlider]), followed by the
    properties established about it.

    Conventions of the embedding:
    - a JavaScript [number] that only ever holds a counter or an index is a
      [Z]; a [number] that holds a duration, a coordinate or a ratio is an
      exact rational [Q] (rounding of IEEE doubles is not modelled);
    - a JavaScript string is a [string]; [undefined]/[null] is [None];
    - React state is an explicit record threaded through the handler, and
      everything the handler does to the outside (service calls, random
      draws, console output, timers) goes through an explicit [World]. *)

From Stdlib Require Import Bool List String Ascii ZArith NArith QArith Qminmax
  Qround Qpower Lia Lqa Arith DecimalString.
From Stdlib.Strings Require Byte.
From Equations Require Import Equations.
Import ListNotations.

Set Implicit Arguments.

(* ================================================================== *)
(** ** JavaScript string primitives *)

Module JsString.

Local Open Scope string_scope.

(** [s.includes(sub)] *)
Fixpoint includes (s sub : string) : bool :=
  if String.prefix sub s then true
  else match s with
       | EmptyString => false
       | String _ rest => includes rest sub
       end.

Definition upperChar (c : ascii) : ascii :=
  let n := nat_of_ascii c in
  if (97 <=? n)%nat && (n <=? 122)%nat then ascii_of_nat (n - 32) else c.

Definition lowerChar (c : ascii) : ascii :=
  let n := nat_of_ascii c in
  if (65 <=? n)%nat && (n <=? 90)%nat then ascii_of_nat (n + 32) else c.

Fixpoint mapChars (f : ascii -> ascii) (s : string) : string :=
  match s with
  | EmptyString => EmptyString
  | String c rest => String (f c) (mapChars f rest)
  end.

(** [s.toUpperCase()] and [s.toLowerCase()] on ASCII text *)
Definition toUpperCase : string -> string := mapChars upperChar.
Definition toLowerCase : string -> string := mapChars lowerChar.

(** [s.slice(1)] *)
Definition slice1 (s : string) : string :=
  match s with
  | EmptyString => EmptyString
  | String _ rest => rest
  end.

(** A JavaScript string is truthy when it is not empty. *)
Definition truthy (s : string) : bool :=
  match s with
  | EmptyString => false
  | String _ _ => true
  end.

(** [a || b] on strings *)
Definition orElse (a b : string) : string := if truthy a then a else b.

End JsString.

(* ================================================================== *)
(** ** [types.ts] *)

Module Types.

Inductive ModelTier := flash | pro.
Inductive ImageSize := size1K | size2K | size4K.
Inductive Status := pending | processing | completed | error.
Inductive Mode := recolor | generate.

Record ColorDefinition := mkColor {
  name : string;
  hex : string;
  category : option string
}.

Record ProcessedResult := mkResult {
  color : option ColorDefinition;
  url : string;
  prompt : option string;
  size : option ImageSize
}.

Record ProcessedImage := mkImage {
  id : string;
  originalUrl : option string;
  results : list ProcessedResult;
  status : Status;
  errorMsg : option string;
  activeResultIndex : option nat
}.

Inductive ProductCategory :=
| TOP | DRESS | TROUSER | KURTI | T_SHIRT | SHIRT | SKIRT | JACKET | OTHER.

Record AppSettings := mkSettings {
  productCategory : ProductCategory;      (* the [category] member *)
  targetColors : list ColorDefinition;
  fabricType : string;
  fabricAwareness : bool;
  printProtection : bool;
  colorAccuracy : bool;
  edgePrecision : bool;
  batchConsistency : bool;
  modelTier : ModelTier
}.

Definition tier_eqb (a b : ModelTier) : bool :=
  match a, b with
  | flash, flash | pro, pro => true
  | _, _ => false
  end.

End Types.

Module GenerationSettings.

Inductive AspectRatio := ratio1x1 | ratio3x4 | ratio4x3 | ratio9x16 | ratio16x9.

Record t := mk {
  prompt : string;
  imageSize : Types.ImageSize;
  aspectRatio : AspectRatio
}.

End GenerationSettings.

(* ================================================================== *)
(** ** The outside world *)

Module Env.

(** A thrown JavaScript value, seen through the two members the code
    reads: [error.toString()] and [error.message].  Thrown values are
    objects: the service and the code throw [Error]s, never [null] or
    [undefined]. *)
Record JsError := mkError {
  toStr : string;
  message : string
}.

(** [new Error(msg)] *)
Definition newError (msg : string) : JsError :=
  mkError ("Error: " ++ msg) msg.

(** Outcome of awaiting a promise. *)
Inductive Attempt (T : Type) :=
| Resolved (v : T)
| Rejected (e : JsError).
Arguments Resolved {T} v.
Arguments Rejected {T} e.

(** What [ai.models.generateContent] does on one call: it throws (or its
    answer cannot be read), or it answers with candidates, each a list of
    parts, a part carrying [inlineData.data] or not. *)
Inductive ApiReply :=
| ApiThrows (e : JsError)
| ApiReturns (candidates : list (list (option string))).

(** Things the code does that are visible outside the React state. *)
Inductive Event :=
| EvInvoke                                  (* one call of the wrapped operation *)
| EvWarn (attempt retries : Z) (isRateLimit : bool) (seconds : Z)  (* console.warn *)
| EvSleep (ms : Q)                          (* await setTimeout(ms) *)
| EvConsoleError (context : string) (e : JsError).   (* console.error *)

Record World := mkWorld {
  calls : nat;          (* operations invoked so far *)
  draws : nat;          (* Math.random() values consumed so far *)
  log : list Event      (* oldest first *)
}.

Definition emit (e : Event) (w : World) : World :=
  mkWorld (calls w) (draws w) (log w ++ [e]).

Definition invoked (w : World) : World :=
  mkWorld (S (calls w)) (draws w) (log w ++ [EvInvoke]).

Definition drawn (w : World) : World :=
  mkWorld (calls w) (S (draws w)) (log w).

(** The oracles: what the n-th service call answers and what the n-th
    [Math.random()] returns. *)
Record Oracle := mkOracle {
  service : nat -> ApiReply;
  random : nat -> Q
}.

Definition isSleep (e : Event) : bool :=
  match e with EvSleep _ => true | _ => false end.

Definition isInvoke (e : Event) : bool :=
  match e with EvInvoke => true | _ => false end.

Definition sleeps (l : list Event) : list Q :=
  flat_map (fun e => match e with EvSleep d => [d] | _ => [] end) l.

Definition invocations (l : list Event) : nat :=
  List.length (filter isInvoke l).

End Env.

(* ================================================================== *)
(** ** [services/geminiService.ts] *)

Module GeminiService.

Import JsString Types Env.
Local Open Scope string_scope.

Definition default_retries : Z := 8.
Definition default_baseDelay : Q := 4000.

Definition maxRetryError : JsError :=
  newError "Maximum retry attempts exceeded for API quota.".

(** [error.toString() || error.message || ''] *)
Definition errorStr (e : JsError) : string :=
  orElse (orElse (toStr e) (message e)) EmptyString.

Definition isRateLimit (e : JsError) : bool :=
  includes (errorStr e) "429" || includes (errorStr e) "RESOURCE_EXHAUSTED".

Definition isTransient (e : JsError) : bool :=
  isRateLimit e
  || includes (errorStr e) "500"
  || includes (errorStr e) "503"
  || includes (errorStr e) "Rpc failed"
  || includes (errorStr e) "xhr error".

(** The three families of markers that [isTransient] looks for. *)
Definition rateLimitMarker (s : string) : bool :=
  includes s "429" || includes s "RESOURCE_EXHAUSTED".

Definition serverErrorMarker (s : string) : bool :=
  includes s "500" || includes s "503".

Definition transportMarker (s : string) : bool :=
  includes s "Rpc failed" || includes s "xhr error".

Definition backoffFactor (rateLimit : bool) : Q :=
  if rateLimit then 2.5 else 2.0.

(** [baseDelay * Math.pow(backoffFactor, attempt - 1)] *)
Definition backoffDelay (baseDelay : Q) (rateLimit : bool) (attempt : Z) : Q :=
  baseDelay * backoffFactor rateLimit ^ (attempt - 1).

(** [backoffDelay * 0.25 * (Math.random() * 2 - 1)] *)
Definition jitter (delay r : Q) : Q :=
  delay * 0.25 * (r * 2 - 1).

(** [Math.max(2000, backoffDelay + jitter)] *)
Definition finalDelay (baseDelay : Q) (rateLimit : bool) (attempt : Z) (r : Q) : Q :=
  let d := backoffDelay baseDelay rateLimit attempt in
  Qmax 2000 (d + jitter d r).

(** [Math.round(x)] *)
Definition mathRound (x : Q) : Z := Qfloor (x + (1 # 2)).

Section WithRetry.

Variable T : Type.
(** The wrapped operation: what its n-th invocation (counted over the
    whole world) settles to. *)
Variable fn : nat -> Attempt T.
Variable rnd : nat -> Q.
Variable retries : Z.
Variable baseDelay : Q.

(** The [while (attempt <= retries)] loop.  [fuel] bounds the number of
    times the loop test is evaluated; [None] is an exhausted bound. *)
Fixpoint retryLoop (fuel : nat) (attempt : Z) (w : World)
  : option (Attempt T * World) :=
  match fuel with
  | O => None
  | S fuel' =>
      if (attempt <=? retries)%Z then
        match fn (calls w) with
        | Resolved v => Some (Resolved v, invoked w)
        | Rejected err =>
            let w1 := invoked w in
            let attempt := (attempt + 1)%Z in
            if (attempt <=? retries)%Z && isTransient err then
              let r := rnd (draws w1) in
              let delay := finalDelay baseDelay (isRateLimit err) attempt r in
              let w2 := drawn w1 in
              let w3 := emit (EvWarn attempt retries (isRateLimit err)
                                     (mathRound (delay / 1000))) w2 in
              let w4 := emit (EvSleep delay) w3 in
              retryLoop fuel' attempt w4
            else Some (Rejected err, w1)
        end
      else Some (Rejected maxRetryError, w)
  end.

(** The world once a failed attempt has been answered with a warning
    and a backoff sleep (the [if (attempt <= retries && isTransient)]
    branch above, named). *)
Definition afterBackoff (attempt : Z) (err : JsError) (w : World) : World :=
  let delay := finalDelay baseDelay (isRateLimit err) attempt
                          (rnd (draws (invoked w))) in
  emit (EvSleep delay)
    (emit (EvWarn attempt retries (isRateLimit err) (mathRound (delay / 1000)))
       (drawn (invoked w))).

(** The loop test is evaluated at most [retries + 2] times. *)
Definition retryFuel : nat := S (S (Z.to_nat retries)).

(** [withRetry(fn, retries, baseDelay)].  The bound above is never
    exhausted (lemma [retryLoop_enough_fuel] below), so the last branch
    is never taken. *)
Definition withRetry (w : World) : Attempt T * World :=
  match retryLoop retryFuel 0 w with
  | Some r => r
  | None => (Rejected maxRetryError, w)
  end.

End WithRetry.

Definition modelName (tier : ModelTier) : string :=
  match tier with
  | pro => "gemini-3-pro-image-preview"
  | flash => "gemini-2.5-flash-image"
  end.

(** The [for (const part of parts)] scan for the first part with
    [inlineData.data]. *)
Fixpoint firstInlineData (parts : list (option string)) : string :=
  match parts with
  | [] => EmptyString
  | Some data :: rest =>
      if truthy data then "data:image/png;base64," ++ data
      else firstInlineData rest
  | None :: rest => firstInlineData rest
  end.

Definition extractImage (candidates : list (list (option string))) : string :=
  match candidates with
  | [] => EmptyString
  | parts :: _ => firstInlineData parts
  end.

(** [base64Image.split(',')] on [undefined] (V8 wording; no engine's
    wording carries a retry marker). *)
Definition splitOfUndefined : JsError :=
  mkError "TypeError: Cannot read properties of undefined (reading 'split')"
          "Cannot read properties of undefined (reading 'split')".

(** The body of the operation handed to [withRetry] by
    [recolorImageWithGemini]; the request payload is opaque. *)
Definition recolorOnce (base64Image : option string) (settings : AppSettings)
    (reply : ApiReply) : Attempt string :=
  match base64Image with
  | None => Rejected splitOfUndefined
  | Some _ =>
      match reply with
      | ApiThrows e => Rejected e
      | ApiReturns candidates =>
          let generatedImageBase64 := extractImage candidates in
          if truthy generatedImageBase64 then Resolved generatedImageBase64
          else Rejected (newError ("No image data returned from "
                                   ++ modelName (modelTier settings) ++ "."))
      end
  end.

Definition recolorImageWithGemini (o : Oracle) (base64Image : option string)
    (settings : AppSettings) (targetColor : ColorDefinition) (w : World)
  : Attempt string * World :=
  withRetry (fun n => recolorOnce base64Image settings (service o n))
            (random o) default_retries default_baseDelay w.

(** The body of the operation handed to [withRetry] by
    [generateImageWithGemini]; the request payload is opaque. *)
Definition generateOnce (reply : ApiReply) : Attempt string :=
  match reply with
  | ApiThrows e => Rejected e
  | ApiReturns candidates =>
      let generatedImageBase64 := extractImage candidates in
      if truthy generatedImageBase64 then Resolved generatedImageBase64
      else Rejected (newError "No image data returned from Gemini 3 Pro.")
  end.

Definition generateImageWithGemini (o : Oracle) (w : World)
  : Attempt string * World :=
  withRetry (fun n => generateOnce (service o n))
            (random o) default_retries default_baseDelay w.

(** The header every extracted image carries. *)
Definition pngHeader : string := "data:image/png;base64,".

(** A part that the scan for image data passes over. *)
Definition carriesNoData (part : option string) : Prop :=
  part = None \/ part = Some EmptyString.

End GeminiService.

(* ================================================================== *)
(** ** [App.tsx]: the batch orchestrator *)

Module Task.

(** [{ imageId: img.id, color, originalUrl: img.originalUrl }] *)
Record t := mk {
  imageId : string;
  color : Types.ColorDefinition;
  originalUrl : option string
}.

End Task.

Module App.

Import JsString Types Env GeminiService.
Local Open Scope string_scope.

Record AppState := mkState {
  mode : Mode;
  images : list ProcessedImage;
  generatedDesigns : list ProcessedImage;
  isProcessing : bool;
  isSampling : bool;
  processingProgress : Q;
  showExport : bool;
  rateLimitActive : bool;
  hasApiKey : option bool;
  settings : AppSettings
}.

(** The React setters. *)
Definition setImages (f : list ProcessedImage -> list ProcessedImage)
    (s : AppState) : AppState :=
  mkState (mode s) (f (images s)) (generatedDesigns s) (isProcessing s)
          (isSampling s) (processingProgress s) (showExport s)
          (rateLimitActive s) (hasApiKey s) (settings s).

Definition setIsProcessing (b : bool) (s : AppState) : AppState :=
  mkState (mode s) (images s) (generatedDesigns s) b
          (isSampling s) (processingProgress s) (showExport s)
          (rateLimitActive s) (hasApiKey s) (settings s).

Definition setIsSampling (b : bool) (s : AppState) : AppState :=
  mkState (mode s) (images s) (generatedDesigns s) (isProcessing s)
          b (processingProgress s) (showExport s)
          (rateLimitActive s) (hasApiKey s) (settings s).

Definition setProcessingProgress (p : Q) (s : AppState) : AppState :=
  mkState (mode s) (images s) (generatedDesigns s) (isProcessing s)
          (isSampling s) p (showExport s)
          (rateLimitActive s) (hasApiKey s) (settings s).

Definition setRateLimitActive (b : bool) (s : AppState) : AppState :=
  mkState (mode s) (images s) (generatedDesigns s) (isProcessing s)
          (isSampling s) (processingProgress s) (showExport s)
          b (hasApiKey s) (settings s).

Definition setHasApiKey (k : option bool) (s : AppState) : AppState :=
  mkState (mode s) (images s) (generatedDesigns s) (isProcessing s)
          (isSampling s) (processingProgress s) (showExport s)
          (rateLimitActive s) k (settings s).

Definition setSettings (f : AppSettings -> AppSettings) (s : AppState) : AppState :=
  mkState (mode s) (images s) (generatedDesigns s) (isProcessing s)
          (isSampling s) (processingProgress s) (showExport s)
          (rateLimitActive s) (hasApiKey s) (f (settings s)).

(** [c.hex.toLowerCase() === hex.toLowerCase()], the test by which the
    colour selection recognises a colour it already holds. *)
Definition sameHexIgnoringCase (a b : string) : bool :=
  String.eqb (toLowerCase a) (toLowerCase b).

Definition withTargetColors (colors : list ColorDefinition)
    (prev : AppSettings) : AppSettings :=
  mkSettings (productCategory prev) colors (fabricType prev)
             (fabricAwareness prev) (printProtection prev) (colorAccuracy prev)
             (edgePrecision prev) (batchConsistency prev) (modelTier prev).

(** [handleSampleColor] *)
Definition handleSampleColor (pickedHex : string) (s : AppState) : AppState :=
  let newColor := mkColor ("Sampled " ++ pickedHex) pickedHex None in
  if existsb (fun c => sameHexIgnoringCase (hex c) pickedHex)
             (targetColors (settings s))
  then s
  else setSettings
         (fun prev => withTargetColors (targetColors prev ++ [newColor])%list prev)
         s.

(** [Controls.addCustomColor] and [Controls.clearColors], through
    [updateSettings]. *)
Definition addCustomColor (customHex customName : string) (s : AppState)
  : AppState :=
  let newColor := mkColor (orElse customName "Custom") customHex None in
  if existsb (fun c => sameHexIgnoringCase (hex c) customHex)
             (targetColors (settings s))
  then s
  else setSettings
         (withTargetColors (targetColors (settings s) ++ [newColor])%list) s.

Definition clearColors (s : AppState) : AppState :=
  setSettings (withTargetColors []) s.

(** [!hasApiKey] for [hasApiKey : boolean | null] *)
Definition notKey (k : option bool) : bool :=
  match k with
  | Some true => false
  | _ => true
  end.

(** *** Task generation: the two nested [for ... of] loops with [push] *)

Definition pushColors (img : ProcessedImage) (colors : list ColorDefinition)
    (tasks : list Task.t) : list Task.t :=
  fold_left
    (fun acc color => (acc ++ [Task.mk (id img) color (originalUrl img)])%list)
    colors tasks.

Definition buildTasks (imgs : list ProcessedImage)
    (colors : list ColorDefinition) : list Task.t :=
  fold_left (fun acc img => pushColors img colors acc) imgs [].

(** The product the loops are meant to enumerate, written as the
    specification words it: for each image in order, one task per colour
    in order. *)
Definition taskFor (img : ProcessedImage) (color : ColorDefinition) : Task.t :=
  Task.mk (id img) color (originalUrl img).

Definition imageMajorProduct (imgs : list ProcessedImage)
    (colors : list ColorDefinition) : list Task.t :=
  flat_map (fun img => map (taskFor img) colors) imgs.

(** *** Success: [setImages(prev => prev.map(...))] in the [try] block *)

(** [r.color?.hex !== task.color.hex] *)
Definition otherHex (taskColor : ColorDefinition) (r : ProcessedResult) : bool :=
  match color r with
  | Some c => negb (String.eqb (hex c) (hex taskColor))
  | None => true
  end.

Definition recordSuccess (task : Task.t) (processedBase64 : string)
    (img : ProcessedImage) : ProcessedImage :=
  if String.eqb (id img) (Task.imageId task) then
    let existingResults := filter (otherHex (Task.color task)) (results img) in
    mkImage (id img) (originalUrl img)
            (existingResults
               ++ [mkResult (Some (Task.color task)) processedBase64 None None])%list
            completed
            (errorMsg img)
            (Some (List.length existingResults))
  else img.

(** The hex strings carried by a result list, in order. *)
Definition hexes (rs : list ProcessedResult) : list string :=
  flat_map (fun r => match color r with
                     | Some c => [hex c]
                     | None => []
                     end) rs.

(** No two results carry the same hex string, compared exactly. *)
Definition exactHexUnique (rs : list ProcessedResult) : Prop :=
  NoDup (hexes rs).

Definition allExactHexUnique (imgs : list ProcessedImage) : Prop :=
  Forall (fun img => exactHexUnique (results img)) imgs.


(** *** Failure: the [catch] block *)

Definition isRateLimitStr (errStr : string) : bool :=
  includes errStr "429" || includes errStr "RESOURCE_EXHAUSTED".

Definition isApiKeyErrorStr (errStr : string) : bool :=
  includes errStr "Requested entity was not found"
  || includes errStr "APIKEY_ERROR".

Definition apiKeyMessage : string :=
  "API Key invalid or missing for selected engine.".
Definition quotaMessage : string :=
  "Quota limit hit. System is retrying with exponential backoff.".
Definition genericMessage : string :=
  "Generation error. Please try again.".

Definition failureMessage (isApiKeyError isRateLimit : bool) : string :=
  if isApiKeyError then apiKeyMessage
  else if isRateLimit then quotaMessage
  else genericMessage.

Definition recordFailure (task : Task.t) (isApiKeyError isRateLimit : bool)
    (img : ProcessedImage) : ProcessedImage :=
  if String.eqb (id img) (Task.imageId task)
     && (List.length (results img) =? 0)%nat then
    mkImage (id img) (originalUrl img) (results img)
            error
            (Some (failureMessage isApiKeyError isRateLimit))
            (activeResultIndex img)
  else img.

Definition onFailure (tier : ModelTier) (task : Task.t) (err : JsError)
    (s : AppState) : AppState :=
  let errStr := toStr err in
  let isRateLimit := isRateLimitStr errStr in
  let isApiKeyError := isApiKeyErrorStr errStr in
  let s1 := if isRateLimit then setRateLimitActive true s else s in
  let s2 := if isApiKeyError && tier_eqb tier pro
            then setHasApiKey (Some false) s1 else s1 in
  setImages (map (recordFailure task isApiKeyError isRateLimit)) s2.

(** *** The [for (const task of tasks)] loop *)

Definition interItemDelay (tier : ModelTier) : Q :=
  match tier with
  | pro => 5000
  | flash => 2000
  end.

(** The handler's view while the loop runs: the React state, the world,
    and the local [completedTasks]. *)
Record Run := mkRun {
  state : AppState;
  world : World;
  completedTasks : Z
}.

Section Loop.

Variable o : Oracle.
(** [settings] as captured by the handler's closure *)
Variable captured : AppSettings.
Variable totalTasks : Z.

Definition processTask (r : Run) (task : Task.t) : Run :=
  let '(outcome, w1) :=
    recolorImageWithGemini o (Task.originalUrl task) captured
                           (Task.color task) (world r) in
  let '(s1, w2) :=
    match outcome with
    | Resolved processedBase64 =>
        (setImages (map (recordSuccess task processedBase64)) (state r), w1)
    | Rejected err =>
        (onFailure (modelTier captured) task err (state r),
         emit (EvConsoleError ("Failed to process image " ++ Task.imageId task)
                                  err) w1)
    end in
  let completed := (completedTasks r + 1)%Z in
  mkRun (setProcessingProgress (inject_Z completed / inject_Z totalTasks) s1)
        (emit (EvSleep (interItemDelay (modelTier captured))) w2)
        completed.

Definition processTasks (tasks : list Task.t) (r : Run) : Run :=
  fold_left processTask tasks r.

End Loop.

Definition markProcessing (img : ProcessedImage) : ProcessedImage :=
  mkImage (id img) (originalUrl img) (results img)
          processing None (activeResultIndex img).

(** *** [handleRecolorBatch] *)

Definition startRun (s : AppState) : AppState :=
  setImages (map markProcessing)
    (setIsSampling false
       (setRateLimitActive false
          (setProcessingProgress 0
             (setIsProcessing true s)))).

Definition finishRun (s : AppState) : AppState :=
  setRateLimitActive false (setIsProcessing false s).

Definition handleRecolorBatch (o : Oracle) (s : AppState) (w : World)
  : AppState * World :=
  if (List.length (images s) =? 0)%nat
     || (List.length (targetColors (settings s)) =? 0)%nat
  then (s, w)
  else if tier_eqb (modelTier (settings s)) pro && notKey (hasApiKey s)
  then (setHasApiKey (Some false) s, w)
  else
    let tasks := buildTasks (images s) (targetColors (settings s)) in
    let totalTasks := Z.of_nat (List.length tasks) in
    let r := processTasks o (settings s) totalTasks tasks
               (mkRun (startRun s) w 0) in
    (finishRun (state r), world r).

(** *** The other handlers of [App] *)

Definition setGeneratedDesigns (f : list ProcessedImage -> list ProcessedImage)
    (s : AppState) : AppState :=
  mkState (mode s) (images s) (f (generatedDesigns s)) (isProcessing s)
          (isSampling s) (processingProgress s) (showExport s)
          (rateLimitActive s) (hasApiKey s) (settings s).

(** One [reader.onload] of [handleFileUpload]: [newId] is what [uuidv4()]
    returns, [dataUrl] is [e.target.result]. *)
Definition fileLoaded (newId : string) (dataUrl : option string) (s : AppState)
  : AppState :=
  match dataUrl with
  | Some u =>
      if truthy u
      then setImages (fun prev => prev ++ [mkImage newId (Some u) [] pending None None])%list s
      else s
  | None => s
  end.

(** [removeImage(id, isGen)] *)
Definition removeImage (target : string) (isGen : bool) (s : AppState)
  : AppState :=
  if isGen
  then setGeneratedDesigns
         (filter (fun img => negb (String.eqb (id img) target))) s
  else setImages (filter (fun img => negb (String.eqb (id img) target))) s.

(** [setActiveResult(imageId, index)] *)
Definition setActiveResult (imageId : string) (index : nat) (s : AppState)
  : AppState :=
  setImages
    (map (fun img =>
            if String.eqb (id img) imageId
            then mkImage (id img) (originalUrl img) (results img) (status img)
                         (errorMsg img) (Some index)
            else img))
    s.

(** [images.some(img => img.results.length > 0)] *)
Definition hasCompletedImages (s : AppState) : bool :=
  existsb (fun img => (0 <? List.length (results img))%nat) (images s).

(** [img.results[img.activeResultIndex ?? 0]], the variant the card of an
    image shows; the card reads it only when the image has a result, and
    reading [.url] off a missing entry is a crash. *)
Definition shownResult (img : ProcessedImage) : option ProcessedResult :=
  nth_error (results img)
            (match activeResultIndex img with
             | Some i => i
             | None => 0%nat
             end).

Definition generationFailedMessage : string :=
  "Generation failed. Verify your prompt and API project status.".

Definition recordGenerated (newGenId generatedUrl : string)
    (gen : GenerationSettings.t) (img : ProcessedImage) : ProcessedImage :=
  if String.eqb (id img) newGenId
  then mkImage (id img) (originalUrl img)
               [mkResult None generatedUrl
                         (Some (GenerationSettings.prompt gen))
                         (Some (GenerationSettings.imageSize gen))]
               completed (errorMsg img) (Some 0%nat)
  else img.

Definition recordGenerationFailure (newGenId : string) (img : ProcessedImage)
  : ProcessedImage :=
  if String.eqb (id img) newGenId
  then mkImage (id img) (originalUrl img) (results img) error
               (Some generationFailedMessage) (activeResultIndex img)
  else img.

(** [handleGenerateImage]; [newGenId] is what [uuidv4()] returns and [gen]
    is the [genSettings] state the handler has captured. *)
Definition handleGenerateImage (o : Oracle) (newGenId : string)
    (gen : GenerationSettings.t) (s : AppState) (w : World)
  : AppState * World :=
  if negb (truthy (GenerationSettings.prompt gen)) then (s, w)
  else if notKey (hasApiKey s) then (setHasApiKey (Some false) s, w)
  else
    let placeholder := mkImage newGenId None [] processing None None in
    let s1 := setGeneratedDesigns (fun prev => placeholder :: prev)
                (setIsSampling false (setIsProcessing true s)) in
    let '(outcome, w1) := generateImageWithGemini o w in
    let s2 :=
      match outcome with
      | Resolved generatedUrl =>
          setGeneratedDesigns (map (recordGenerated newGenId generatedUrl gen)) s1
      | Rejected err =>
          let errStr := toStr err in
          let isApiKeyError := isApiKeyErrorStr errStr in
          setGeneratedDesigns (map (recordGenerationFailure newGenId))
            (if isApiKeyError then setHasApiKey (Some false) s1 else s1)
      end in
    (setIsProcessing false s2, w1).

(** [onProcess] *)
Definition onProcess (o : Oracle) (newGenId : string)
    (gen : GenerationSettings.t) (s : AppState) (w : World)
  : AppState * World :=
  match mode s with
  | recolor => handleRecolorBatch o s w
  | generate => handleGenerateImage o newGenId gen s w
  end.

(** *** Words for what the handlers keep *)

(** The card of the image can be drawn: no result to show, or the shown
    entry exists. *)
Definition renderable (img : ProcessedImage) : Prop :=
  results img = [] \/ exists r, shownResult img = Some r.

Definition isFailureMessage (m : option string) : Prop :=
  m = Some apiKeyMessage \/ m = Some quotaMessage \/ m = Some genericMessage.

(** Conditions on one image that every update of a run keeps. *)
Definition consistent (img : ProcessedImage) : Prop :=
  (status img = completed -> results img <> [])
  /\ (status img = error ->
      results img = [] /\ isFailureMessage (errorMsg img))
  /\ status img <> pending.

(** Results only come with the completed status. *)
Definition resultsMeanCompleted (img : ProcessedImage) : Prop :=
  results img <> [] -> status img = completed.

(** An image of identifier [i] without result shows as an error. *)
Definition emptyMeansError (i : string) (img : ProcessedImage) : Prop :=
  id img = i -> results img = [] -> status img = error.

(** How a batch leaves an image. *)
Definition succeeded (img : ProcessedImage) : Prop :=
  status img = completed /\ results img <> [].

Definition failed (img : ProcessedImage) : Prop :=
  status img = error /\ results img = [] /\ isFailureMessage (errorMsg img).

Definition keptEarlierResults (img : ProcessedImage) : Prop :=
  status img = processing /\ results img <> [].

(** What a batch may do to one image: the identity and the source stay,
    every hex string it had it still has, and a duplicate-free result list
    stays duplicate-free and does not get shorter. *)
Definition grownFrom (before after : ProcessedImage) : Prop :=
  id after = id before
  /\ originalUrl after = originalUrl before
  /\ incl (hexes (results before)) (hexes (results after))
  /\ (exactHexUnique (results before) ->
      exactHexUnique (results after)
      /\ (List.length (results before) <= List.length (results after))%nat).

(** The image the [n]-th call of the service delivers, if it delivers
    one. *)
Definition delivered (o : Oracle) (n : nat) : string :=
  match service o n with
  | ApiReturns candidates => extractImage candidates
  | ApiThrows _ => EmptyString
  end.

(** One variant per colour, in order, from consecutive calls starting at
    call [n]. *)
Fixpoint variants (o : Oracle) (n : nat) (colors : list ColorDefinition)
  : list ProcessedResult :=
  match colors with
  | [] => []
  | c :: rest => mkResult (Some c) (delivered o n) None None :: variants o (S n) rest
  end.

(** The success update of each task in turn, the [k]-th with the image of
    call [n + k]. *)
Fixpoint recordAll (o : Oracle) (tasks : list Task.t) (n : nat)
    (img : ProcessedImage) : ProcessedImage :=
  match tasks with
  | [] => img
  | task :: rest =>
      recordAll o rest (S n) (recordSuccess task (delivered o n) img)
  end.

(** The handler returns no value and a refusal leaves the React state
    alone, so whatever a refusal tells the caller has to be something the
    handler emitted while it ran: the world's log has to have grown. *)
Definition reportsRejection (before after : World) : Prop :=
  log after <> log before.

End App.

(* ================================================================== *)
(** ** [components/ImageSampler.tsx] and the reference sampler of
       [components/Controls.tsx] *)

Module Sampler.

Import JsString.
Local Open Scope string_scope.

(** One pixel of a [Uint8ClampedArray]: four bytes. *)
Record Rgba := mkRgba {
  red : Byte.byte;
  green : Byte.byte;
  blue : Byte.byte;
  alpha : Byte.byte
}.

Record Bitmap := mkBitmap {
  width : N;
  height : N;
  pixel : Z -> Z -> Rgba
}.

Definition transparentBlack : Rgba :=
  mkRgba Byte.x00 Byte.x00 Byte.x00 Byte.x00.

(** [ctx.getImageData(sx, sy, 1, 1).data] for integer [sx], [sy]: pixels
    outside the canvas read as transparent black. *)
Definition getImageData (b : Bitmap) (sx sy : Z) : Rgba :=
  if ((0 <=? sx) && (sx <? Z.of_N (width b))
      && (0 <=? sy) && (sy <? Z.of_N (height b)))%Z
  then pixel b sx sy
  else transparentBlack.

(** Conversion of a [number] argument to a Web IDL [long]: the fraction
    is dropped, towards zero. *)
Definition toLong (q : Q) : Z :=
  if Qle_bool 0 q then Qfloor q else Qceiling q.

(** An [<img>] element: the decoded picture at its natural size, and
    its [getBoundingClientRect()].  The quotients below are exact; an
    element laid out with zero width or height (where JavaScript divides to
    [Infinity]) is outside the statements made about the sampler. *)
Record ImgElement := mkImg {
  natural : Bitmap;
  rectLeft : Q;
  rectTop : Q;
  rectWidth : Q;
  rectHeight : Q
}.

Definition naturalWidth (i : ImgElement) : Z := Z.of_N (width (natural i)).
Definition naturalHeight (i : ImgElement) : Z := Z.of_N (height (natural i)).

(** A [<canvas>] element: its bitmap, and whether [getContext('2d')]
    hands out a context. *)
Record CanvasElement := mkCanvas {
  surface : Bitmap;
  has2d : bool
}.

Record Refs := mkRefs {
  canvasRef : option CanvasElement;
  imgRef : option ImgElement
}.

Record MouseEvent := mkMouse {
  clientX : Q;
  clientY : Q
}.

(** *** [Number.prototype.toString(16)] *)

Definition hexDigit (d : N) : ascii :=
  if (d <? 10)%N then ascii_of_N (48 + d) else ascii_of_N (87 + d).

Definition inspect {A : Type} (a : A) : { b : A | a = b } :=
  exist _ a eq_refl.

Equations? hexDigits (n : N) : string by wf (N.to_nat n) lt :=
  hexDigits n with inspect (n <? 16)%N => {
    | exist _ true _ => String (hexDigit n) EmptyString;
    | exist _ false _ =>
        hexDigits (n / 16) ++ String (hexDigit (n mod 16)) EmptyString }.
Proof.
  apply N.ltb_ge in e.
  assert (n / 16 < n)%N by (apply N.div_lt; lia).
  lia.
Qed.

Definition toString16 (z : Z) : string :=
  if (z <? 0)%Z then "-" ++ hexDigits (Z.to_N (- z))
  else hexDigits (Z.to_N z).

(** *** 32-bit integer arithmetic of [<<] *)

Definition toInt32 (z : Z) : Z :=
  ((z + 2 ^ 31) mod 2 ^ 32 - 2 ^ 31)%Z.

Definition shl (a k : Z) : Z :=
  toInt32 (Z.shiftl (toInt32 a) (k mod 32)).

Definition channel (b : Byte.byte) : Z := Z.of_N (Byte.to_N b).

(** [`#${((1 << 24) + (p[0] << 16) + (p[1] << 8) + p[2])
          .toString(16).slice(1).toUpperCase()}`] *)
Definition formatHex (p : Rgba) : string :=
  "#" ++ toUpperCase
           (slice1
              (toString16 (shl 1 24 + shl (channel (red p)) 16
                           + shl (channel (green p)) 8
                           + channel (blue p))%Z)).

(** The two upper-case hexadecimal digits of a byte, and the [#RRGGBB]
    string of a pixel, as the specification words them. *)
Definition upperHexDigit (d : N) : ascii :=
  if (d <? 10)%N then ascii_of_N (48 + d) else ascii_of_N (55 + d).

Definition twoHexDigits (b : Byte.byte) : string :=
  String (upperHexDigit (Byte.to_N b / 16))
         (String (upperHexDigit (Byte.to_N b mod 16)) EmptyString).

Definition rrggbb (p : Rgba) : string :=
  "#" ++ twoHexDigits (red p) ++ twoHexDigits (green p) ++ twoHexDigits (blue p).

(** ['0'..'9'] or ['A'..'F'] *)
Definition isUpperHexDigit (c : ascii) : bool :=
  let n := nat_of_ascii c in
  ((48 <=? n)%nat && (n <=? 57)%nat) || ((65 <=? n)%nat && (n <=? 70)%nat).

Fixpoint allChars (f : ascii -> bool) (s : string) : bool :=
  match s with
  | EmptyString => true
  | String c rest => f c && allChars f rest
  end.

(** *** [ImageSampler.getHexColor] *)

Definition getHexColor (refs : Refs) (x y : Q) : string :=
  match canvasRef refs, imgRef refs with
  | Some canvas, Some img =>
      if has2d canvas then
        let scaleX := inject_Z (naturalWidth img) / rectWidth img in
        let scaleY := inject_Z (naturalHeight img) / rectHeight img in
        let pixelX := Qfloor (x * scaleX) in
        let pixelY := Qfloor (y * scaleY) in
        formatHex (getImageData (surface canvas) pixelX pixelY)
      else "#ffffff"
  | _, _ => "#ffffff"
  end.


(** [handleClick]: the colour handed to [onColorPicked], if any. *)
Definition handleClick (refs : Refs) (e : MouseEvent) : option string :=
  match imgRef refs with
  | None => None
  | Some img =>
      let x := clientX e - rectLeft img in
      let y := clientY e - rectTop img in
      Some (getHexColor refs x y)
  end.

(** *** [Controls.getRefColor] *)

Definition getRefColor (refs : Refs) (e : MouseEvent) : string :=
  match imgRef refs, canvasRef refs with
  | Some img, Some canvas =>
      let x := clientX e - rectLeft img in
      let y := clientY e - rectTop img in
      let scaleX := inject_Z (naturalWidth img) / rectWidth img in
      let scaleY := inject_Z (naturalHeight img) / rectHeight img in
      if has2d canvas then
        formatHex (getImageData (surface canvas)
                                (toLong (x * scaleX)) (toLong (y * scaleY)))
      else "#ffffff"
  | _, _ => "#ffffff"
  end.

End Sampler.

(* ================================================================== *)
(** ** [components/Controls.tsx]: the colour selection and the button *)

Module Controls.

Import JsString Types App.
Local Open Scope string_scope.

(** [settings.targetColors.find(c => c.hex.toLowerCase() === h.toLowerCase())]
    finds something. *)
Definition holds (h : string) (colors : list ColorDefinition) : bool :=
  existsb (fun c => sameHexIgnoringCase (hex c) h) colors.

(** [toggleColor] *)
Definition toggleColor (color : ColorDefinition) (s : AppState) : AppState :=
  if existsb (fun c => sameHexIgnoringCase (hex c) (hex color))
             (targetColors (settings s))
  then setSettings
         (withTargetColors
            (filter (fun c => negb (sameHexIgnoringCase (hex c) (hex color)))
                    (targetColors (settings s)))) s
  else setSettings
         (withTargetColors (targetColors (settings s) ++ [color])%list) s.

(** [selectCurrentCategory]; [categoryColors] is [COLOR_LIBRARY[activeTab]]. *)
Definition selectCurrentCategory (categoryColors : list ColorDefinition)
    (s : AppState) : AppState :=
  setSettings
    (withTargetColors
       (fold_left
          (fun newColors color =>
             if existsb (fun c => sameHexIgnoringCase (hex c) (hex color)) newColors
             then newColors
             else (newColors ++ [color])%list)
          categoryColors (targetColors (settings s)))) s.

(** [totalVariants], with [imageCount = images.length] as [App] passes it. *)
Definition totalVariants (s : AppState) : nat :=
  match mode s with
  | recolor => List.length (targetColors (settings s)) * List.length (images s)
  | generate => 1
  end.

(** The [disabled] attribute of the process button, with
    [hasImages = images.length > 0] as [App] passes it. *)
Definition processDisabled (gen : GenerationSettings.t) (s : AppState) : bool :=
  isProcessing s || isSampling s
  || (match mode s with recolor => true | generate => false end
      && (negb (0 <? List.length (images s))%nat
          || (List.length (targetColors (settings s)) =? 0)%nat))
  || (match mode s with generate => true | recolor => false end
      && negb (truthy (GenerationSettings.prompt gen))).

(** No two selected colours have the same hex string up to letter case. *)
Definition distinctIgnoringCase (colors : list ColorDefinition) : Prop :=
  NoDup (map (fun c => toLowerCase (hex c)) colors).

End Controls.

(* ================================================================== *)
(** ** The colour label of the loupe

    Both loupes ([Controls.tsx] and [ImageSampler.tsx]) print the hovered
    colour in black when
    [parseInt(hoverColor.slice(1), 16) > 0xffffff / 2], in white
    otherwise. *)

Module Loupe.

Import JsString.
Local Open Scope string_scope.

(** White space and line terminators among the characters below 256. *)
Definition isWhiteSpace (c : ascii) : bool :=
  let n := nat_of_ascii c in
  ((9 <=? n)%nat && (n <=? 13)%nat) || (n =? 32)%nat || (n =? 160)%nat.

Fixpoint trimStart (s : string) : string :=
  match s with
  | EmptyString => EmptyString
  | String c rest => if isWhiteSpace c then trimStart rest else s
  end.

(** The value of a radix-16 digit. *)
Definition hexValue (c : ascii) : option N :=
  let n := N_of_ascii c in
  if ((48 <=? n) && (n <=? 57))%N then Some (n - 48)%N
  else if ((97 <=? n) && (n <=? 102))%N then Some (n - 87)%N
  else if ((65 <=? n) && (n <=? 70))%N then Some (n - 55)%N
  else None.

(** The value of the longest prefix of digits; [None] when there is no
    digit at all. *)
Fixpoint digitsValue (s : string) (acc : N) (seen : bool) : option N :=
  match s with
  | EmptyString => if seen then Some acc else None
  | String c rest =>
      match hexValue c with
      | Some d => digitsValue rest (16 * acc + d)%N true
      | None => if seen then Some acc else None
      end
  end.

Definition stripHexPrefix (s : string) : string :=
  match s with
  | String "0" (String c rest) =>
      if Ascii.eqb c "x" || Ascii.eqb c "X" then rest else s
  | _ => s
  end.

(** [parseInt(s, 16)]; [None] is [NaN].  The value is exact (a double is,
    up to thirteen digits). *)
Definition parseInt16 (s : string) : option Z :=
  let trimmed := trimStart s in
  let '(negative, unsigned) :=
    match trimmed with
    | String "-" rest => (true, rest)
    | String "+" rest => (false, rest)
    | _ => (false, trimmed)
    end in
  match digitsValue (stripHexPrefix unsigned) 0 false with
  | Some v => Some (if negative then (- Z.of_N v)%Z else Z.of_N v)
  | None => None
  end.

(** [parseInt(hoverColor.slice(1), 16) > 0xffffff / 2]; a comparison with
    [NaN] is false. *)
Definition labelIsBlack (hoverColor : string) : bool :=
  match parseInt16 (slice1 hoverColor) with
  | Some v => negb (Qle_bool (inject_Z v) (16777215 # 2))
  | None => false
  end.

(** A radix-16 digit, of either case. *)
Definition isHexDigit (c : ascii) : bool :=
  match hexValue c with
  | Some _ => true
  | None => false
  end.

End Loupe.

(* ================================================================== *)
(** ** [BeforeAfterSlider] *)

Module Slider.

(** [containerRef.current.getBoundingClientRect()] *)
Record Rect := mkRect {
  left : Q;
  width : Q
}.

(** The [sliderPosition] state and the [isDragging] ref. *)
Record State := mkState {
  sliderPosition : Q;
  isDragging : bool
}.

Definition initial : State := mkState 50 false.

(** [Math.max(0, Math.min(100, (x / rect.width) * 100))] *)
Definition percentage (rect : Rect) (clientX : Q) : Q :=
  let x := clientX - left rect in
  Qmax 0 (Qmin 100 ((x / width rect) * 100)).

Definition handleMouseDown (st : State) : State :=
  mkState (sliderPosition st) true.

Definition handleMouseUp (st : State) : State :=
  mkState (sliderPosition st) false.

(** [handleMouseMove], and [handleTouchMove] with the first touch: the
    same body. *)
Definition handleMouseMove (containerRef : option Rect) (clientX : Q)
    (st : State) : State :=
  match containerRef with
  | Some rect =>
      if isDragging st
      then mkState (percentage rect clientX) (isDragging st)
      else st
  | None => st
  end.

Definition handleTouchMove (containerRef : option Rect) (touchX : Q)
    (st : State) : State :=
  match containerRef with
  | Some rect =>
      if isDragging st
      then mkState (percentage rect touchX) (isDragging st)
      else st
  | None => st
  end.

(** What the component reacts to: [mousedown]/[touchstart] on the
    container, [mouseup]/[touchend] on the window, and moves, each with the
    container as it is laid out at that moment. *)
Inductive Event :=
| Press
| Release
| MouseMove (containerRef : option Rect) (clientX : Q)
| TouchMove (containerRef : option Rect) (touchX : Q).

Definition handle (st : State) (e : Event) : State :=
  match e with
  | Press => handleMouseDown st
  | Release => handleMouseUp st
  | MouseMove containerRef clientX => handleMouseMove containerRef clientX st
  | TouchMove containerRef touchX => handleTouchMove containerRef touchX st
  end.

Definition run (events : list Event) (st : State) : State :=
  fold_left handle events st.

(** The container of a move has a width: with a zero width JavaScript
    divides to [Infinity] or [NaN]. *)
Definition laidOut (e : Event) : Prop :=
  match e with
  | MouseMove (Some rect) _ | TouchMove (Some rect) _ => 0 < width rect
  | _ => True
  end.

End Slider.

(* ================================================================== *)
(** ** [ExportModal] *)

Module ExportModal.

Import JsString Types.
Local Open Scope string_scope.

(** [images.filter(img => img.results.length > 0)] *)
Definition completedImages (images : list ProcessedImage)
  : list ProcessedImage :=
  filter (fun img => (0 <? List.length (results img))%nat) images.

(** [completedImages.reduce((acc, img) => acc + img.results.length, 0)] *)
Definition totalVariants (images : list ProcessedImage) : nat :=
  fold_left (fun acc img => (acc + List.length (results img))%nat)
            (completedImages images) 0%nat.

(** [s.split(sep)] for a one-character separator *)
Fixpoint split (sep : ascii) (s : string) : list string :=
  match s with
  | EmptyString => [EmptyString]
  | String c rest =>
      if Ascii.eqb c sep then EmptyString :: split sep rest
      else match split sep rest with
           | segment :: segments => String c segment :: segments
           | [] => [String c EmptyString]
           end
  end.

(** A character the class [[a-z0-9]] matches under the [i] flag. *)
Definition isAlphanumeric (c : ascii) : bool :=
  let n := nat_of_ascii c in
  ((48 <=? n)%nat && (n <=? 57)%nat)
  || ((65 <=? n)%nat && (n <=? 90)%nat)
  || ((97 <=? n)%nat && (n <=? 122)%nat).

(** [name.replace(/[^a-z0-9]/gi, '_').toLowerCase()] *)
Definition cleanName (name : string) : string :=
  toLowerCase (mapChars (fun c => if isAlphanumeric c then c else "_"%char) name).

(** The decimal digits of a count inside a template literal *)
Definition decimal (n : nat) : string :=
  DecimalString.NilEmpty.string_of_uint (Nat.to_uint n).

(** One call [folder.file(fileName, data, { base64: true })]. *)
Record FileCall := mkFile {
  fileName : string;
  data : option string
}.

(** The body of the inner [forEach]; [None] is the [TypeError] of reading
    [.name] off a result without colour. *)
Definition fileFor (index : nat) (img : ProcessedImage) (res : ProcessedResult)
  : option FileCall :=
  let data := nth_error (split "," (url res)) 1 in
  match color res with
  | None => None
  | Some c =>
      let cleanName := cleanName (name c) in
      Some (mkFile ("img" ++ decimal (index + 1) ++ "_" ++ cleanName ++ "_"
                    ++ substring 0 4 (id img) ++ ".png")
                   data)
  end.

Fixpoint filesOfResults (index : nat) (img : ProcessedImage)
    (rs : list ProcessedResult) : option (list FileCall) :=
  match rs with
  | [] => Some []
  | res :: rest =>
      match fileFor index img res with
      | None => None
      | Some f =>
          match filesOfResults index img rest with
          | None => None
          | Some fs => Some (f :: fs)
          end
      end
  end.

(** The outer [forEach((img, index) => ...)], from position [index] on. *)
Fixpoint filesFrom (index : nat) (imgs : list ProcessedImage)
  : option (list FileCall) :=
  match imgs with
  | [] => Some []
  | img :: rest =>
      match filesOfResults index img (results img) with
      | None => None
      | Some fs =>
          match filesFrom (S index) rest with
          | None => None
          | Some more => Some (fs ++ more)%list
          end
      end
  end.

(** What [handleDownloadZip] does: nothing, or the files it puts into the
    folder before the archive is generated and saved, or the [catch]
    branch ([console.error] and the alert).  The JSZip folder is taken to
    exist and the generation of the archive to succeed. *)
Inductive Outcome :=
| Declined
| Packed (files : list FileCall)
| Failed.

Definition handleDownloadZip (images : list ProcessedImage) : Outcome :=
  if (totalVariants images =? 0)%nat then Declined
  else match filesFrom 0 (completedImages images) with
       | Some files => Packed files
       | None => Failed
       end.

(** Every result of the image names its colour. *)
Definition coloured (img : ProcessedImage) : Prop :=
  Forall (fun res => color res <> None) (results img).

(** A lower-case letter, a digit or an underscore. *)
Definition isFileSafe (c : ascii) : bool :=
  let n := nat_of_ascii c in
  ((48 <=? n)%nat && (n <=? 57)%nat)
  || ((97 <=? n)%nat && (n <=? 122)%nat)
  || (n =? 95)%nat.

(** The number of results over all images. *)
Definition variantCount (imgs : list ProcessedImage) : nat :=
  list_sum (map (fun img => List.length (results img)) imgs).

(** No comma occurs in the text. *)
Definition commaFree (s : string) : Prop :=
  Sampler.allChars (fun c => negb (Ascii.eqb c ","%char)) s = true.

End ExportModal.

(* ================================================================== *)
(** ** The earlier handler: [processBatch] (v1.3) and its service

    The first version of the application has the same two loops and the
    same replace-then-append update, no retry, one failure message, and
    colour-carrying results only. *)

Module Legacy.

Import JsString Env.
Local Open Scope string_scope.

Record ColorDefinition := mkColor {
  name : string;
  hex : string
}.

Record ProcessedResult := mkResult {
  color : ColorDefinition;
  url : string
}.

Record ProcessedImage := mkImage {
  id : string;
  originalUrl : string;
  results : list ProcessedResult;
  status : Types.Status;
  errorMsg : option string;
  activeResultIndex : option nat
}.

Record AppSettings := mkSettings {
  targetColors : list ColorDefinition
}.

Record AppState := mkState {
  images : list ProcessedImage;
  isProcessing : bool;
  processingProgress : Q;
  showExport : bool;
  settings : AppSettings
}.

Module Task.

Record t := mk {
  imageId : string;
  color : ColorDefinition;
  originalUrl : string
}.

End Task.

Definition setImages (f : list ProcessedImage -> list ProcessedImage)
    (s : AppState) : AppState :=
  mkState (f (images s)) (isProcessing s) (processingProgress s)
          (showExport s) (settings s).

Definition setIsProcessing (b : bool) (s : AppState) : AppState :=
  mkState (images s) b (processingProgress s) (showExport s) (settings s).

Definition setProcessingProgress (p : Q) (s : AppState) : AppState :=
  mkState (images s) (isProcessing s) p (showExport s) (settings s).

(** [recolorImageWithGemini] of the first service: one call, logged and
    rethrown when it fails. *)
Definition recolorImageWithGemini (o : Oracle) (w : World)
  : Attempt string * World :=
  let outcome :=
    match service o (calls w) with
    | ApiThrows e => Rejected e
    | ApiReturns candidates =>
        let generatedImageBase64 := GeminiService.extractImage candidates in
        if truthy generatedImageBase64 then Resolved generatedImageBase64
        else Rejected (newError "No image data returned from Gemini.")
    end in
  match outcome with
  | Resolved v => (Resolved v, invoked w)
  | Rejected e => (Rejected e, emit (EvConsoleError "Gemini API Error:" e) (invoked w))
  end.

Definition taskFor (img : ProcessedImage) (c : ColorDefinition) : Task.t :=
  Task.mk (id img) c (originalUrl img).

Definition pushColors (img : ProcessedImage) (colors : list ColorDefinition)
    (tasks : list Task.t) : list Task.t :=
  fold_left (fun acc c => (acc ++ [Task.mk (id img) c (originalUrl img)])%list)
            colors tasks.

Definition buildTasks (imgs : list ProcessedImage)
    (colors : list ColorDefinition) : list Task.t :=
  fold_left (fun acc img => pushColors img colors acc) imgs [].

(** [r.color.hex !== task.color.hex] *)
Definition otherHex (taskColor : ColorDefinition) (r : ProcessedResult) : bool :=
  negb (String.eqb (hex (color r)) (hex taskColor)).

Definition recordSuccess (task : Task.t) (processedBase64 : string)
    (img : ProcessedImage) : ProcessedImage :=
  if String.eqb (id img) (Task.imageId task) then
    let existingResults := filter (otherHex (Task.color task)) (results img) in
    mkImage (id img) (originalUrl img)
            (existingResults ++ [mkResult (Task.color task) processedBase64])%list
            Types.completed
            (errorMsg img)
            (Some (List.length existingResults))
  else img.

Definition recordFailure (task : Task.t) (img : ProcessedImage)
  : ProcessedImage :=
  if String.eqb (id img) (Task.imageId task)
     && (List.length (results img) =? 0)%nat then
    mkImage (id img) (originalUrl img) (results img) (status img)
            (Some "Partial or full failure. check console.")
            (activeResultIndex img)
  else img.

Definition markProcessing (img : ProcessedImage) : ProcessedImage :=
  mkImage (id img) (originalUrl img) (results img)
          Types.processing None (activeResultIndex img).

Record Run := mkRun {
  state : AppState;
  world : World;
  completedTasks : Z
}.

Definition processTask (o : Oracle) (totalTasks : Z) (r : Run) (task : Task.t)
  : Run :=
  let '(outcome, w1) := recolorImageWithGemini o (world r) in
  let '(s1, w2) :=
    match outcome with
    | Resolved processedBase64 =>
        (setImages (map (recordSuccess task processedBase64)) (state r), w1)
    | Rejected err =>
        (setImages (map (recordFailure task)) (state r),
         emit (EvConsoleError
                 ("Failed to process image " ++ Task.imageId task
                  ++ " for color " ++ name (Task.color task)) err) w1)
    end in
  let completed := (completedTasks r + 1)%Z in
  mkRun (setProcessingProgress (inject_Z completed / inject_Z totalTasks) s1)
        (emit (EvSleep 1000) w2)
        completed.

Definition processBatch (o : Oracle) (s : AppState) (w : World)
  : AppState * World :=
  if (List.length (images s) =? 0)%nat
     || (List.length (targetColors (settings s)) =? 0)%nat
  then (s, w)
  else
    let s1 := setProcessingProgress 0 (setIsProcessing true s) in
    let tasks := buildTasks (images s) (targetColors (settings s)) in
    let totalTasks := Z.of_nat (List.length tasks) in
    let s2 := setImages (map markProcessing) s1 in
    let r := fold_left (processTask o totalTasks) tasks (mkRun s2 w 0) in
    (setIsProcessing false (state r), world r).

(** How the earlier batch leaves an image: completed with a result, or
    still marked as processing. *)
Definition completedOrProcessing (img : ProcessedImage) : Prop :=
  (status img = Types.completed /\ results img <> [])
  \/ status img = Types.processing.

Definition hexes (rs : list ProcessedResult) : list string :=
  map (fun r => hex (color r)) rs.

End Legacy.

(* ================================================================== *)
(** ** Concrete inputs used to exercise the statements below *)

Module Examples.

Import JsString Types Env GeminiService.
Local Open Scope string_scope.

Definition freshWorld : World := mkWorld 0 0 [].

Definition quotaError : JsError :=
  mkError "Error: 429 RESOURCE_EXHAUSTED" "429 RESOURCE_EXHAUSTED".

Definition badRequest : JsError :=
  mkError "Error: 400 INVALID_ARGUMENT" "400 INVALID_ARGUMENT".

Definition overloaded : JsError :=
  mkError "Error: 503 Service Unavailable" "503 Service Unavailable".

Definition alwaysQuota : nat -> Attempt string := fun _ => Rejected quotaError.
Definition alwaysBadRequest : nat -> Attempt string := fun _ => Rejected badRequest.
Definition alwaysOverloaded : nat -> Attempt string := fun _ => Rejected overloaded.

Definition halves : nat -> Q := fun _ => 1 # 2.

Definition red : ColorDefinition := mkColor "Red" "#FF0000" None.
Definition redLower : ColorDefinition := mkColor "red" "#ff0000" None.
Definition blue : ColorDefinition := mkColor "Blue" "#0000FF" None.

Definition imgA : ProcessedImage :=
  mkImage "imgA" (Some "data:image/png;base64,AAAA") [] pending None None.

Definition workspace (colors : list ColorDefinition) : App.AppState :=
  App.mkState recolor [imgA] [] false false 0 false false None
              (mkSettings TOP colors "Cotton" true false true true true flash).





(** A service that always answers with an image. *)
Definition obliging : Oracle :=
  mkOracle (fun _ => ApiReturns [[Some "QUJD"]]) halves.

(** A service that always refuses with a quota error. *)
Definition exhausted : Oracle :=
  mkOracle (fun _ => ApiThrows quotaError) halves.

(** A service that always refuses a malformed request. *)
Definition refusing : Oracle :=
  mkOracle (fun _ => ApiThrows badRequest) halves.

(** The workspace once a first batch, for [red], has gone through. *)
Definition afterFirstRun : App.AppState :=
  fst (App.handleRecolorBatch obliging (workspace [red]) freshWorld).

Definition worldAfterFirstRun : World :=
  snd (App.handleRecolorBatch obliging (workspace [red]) freshWorld).

(** The user then clears the selection and types the same colour in
    lower case. *)
Definition reselected : App.AppState :=
  App.addCustomColor "#ff0000" "red" (App.clearColors afterFirstRun).

(** A service that answers the first call and refuses every later one. *)
Definition onceThenRefusing : Oracle :=
  mkOracle (fun n => match n with
                     | O => ApiReturns [[Some "QUJD"]]
                     | S _ => ApiThrows badRequest
                     end) halves.

(** A service that answers the first call and is out of quota ever
    after. *)
Definition onceThenExhausted : Oracle :=
  mkOracle (fun n => match n with
                     | O => ApiReturns [[Some "QUJD"]]
                     | S _ => ApiThrows quotaError
                     end) halves.

Definition redVariant : ProcessedResult :=
  mkResult (Some red) "data:image/png;base64,QUJD" None None.

(** An operation that is overloaded twice and then answers. *)
Definition overloadedTwice : nat -> Attempt string :=
  fun n => if (n <? 2)%nat then Rejected overloaded else Resolved "done".

(** A service that answers, but never with an image. *)
Definition imageless : Oracle :=
  mkOracle (fun _ => ApiReturns [[None; Some EmptyString]]) halves.

Definition sketch : GenerationSettings.t :=
  GenerationSettings.mk "a linen summer dress" size2K GenerationSettings.ratio3x4.

(** The workspace of a user who has selected a paid key. *)
Definition keyedWorkspace : App.AppState :=
  App.setHasApiKey (Some true) (workspace [red]).

End Examples.

(* ================================================================== *)
(** * Properties *)

(** ** The retry executor *)

Section RetryFacts.

Import JsString Types Env GeminiService.

Variable T : Type.
Variable fn : nat -> Attempt T.
Variable rnd : nat -> Q.
Variable retries : Z.
Variable baseDelay : Q.

Lemma loop_resolved fuel attempt w v :
  (attempt <= retries)%Z ->
  fn (calls w) = Resolved v ->
  retryLoop fn rnd retries baseDelay (S fuel) attempt w = Some (Resolved v, invoked w).
Proof.
  intros Hle Hfn. cbn [retryLoop].
  apply Z.leb_le in Hle. rewrite Hle, Hfn. reflexivity.
Qed.

Lemma loop_retry fuel attempt w err :
  (attempt + 1 <= retries)%Z ->
  fn (calls w) = Rejected err ->
  isTransient err = true ->
  retryLoop fn rnd retries baseDelay (S fuel) attempt w = retryLoop fn rnd retries baseDelay fuel (attempt + 1) (afterBackoff rnd retries baseDelay (attempt + 1) err w).
Proof.
  intros Hle Hfn Htr. cbn [retryLoop].
  assert (H0 : (attempt <=? retries)%Z = true) by (apply Z.leb_le; lia).
  apply Z.leb_le in Hle. rewrite H0, Hfn, Hle, Htr. reflexivity.
Qed.

Lemma loop_rethrow fuel attempt w err :
  (attempt <= retries)%Z ->
  fn (calls w) = Rejected err ->
  (retries < attempt + 1)%Z \/ isTransient err = false ->
  retryLoop fn rnd retries baseDelay (S fuel) attempt w = Some (Rejected err, invoked w).
Proof.
  intros Hle Hfn Hstop. cbn [retryLoop].
  apply Z.leb_le in Hle. rewrite Hle, Hfn.
  destruct Hstop as [Hgt | Hfatal].
  - apply Z.leb_gt in Hgt. rewrite Hgt. reflexivity.
  - rewrite Hfatal, andb_false_r. reflexivity.
Qed.


(** The bound on loop tests is enough: the loop always settles. *)
Lemma retryLoop_enough_fuel fuel :
  forall attempt w,
    (Z.to_nat (retries + 1 - attempt) < fuel)%nat ->
    exists r, retryLoop fn rnd retries baseDelay fuel attempt w = Some r.
Proof.
  induction fuel as [| fuel IH]; intros attempt w Hfuel; [lia |].
  cbn [retryLoop].
  destruct (attempt <=? retries)%Z eqn:Hle; [| eauto].
  apply Z.leb_le in Hle.
  destruct (fn (calls w)) as [v | err]; [eauto |].
  destruct ((attempt + 1 <=? retries)%Z && isTransient err); [| eauto].
  apply IH. lia.
Qed.

Lemma withRetry_runs_loop w :
  retryLoop fn rnd retries baseDelay (retryFuel retries) 0 w = Some (withRetry fn rnd retries baseDelay w).
Proof.
  unfold withRetry.
  destruct (retryLoop_enough_fuel (fuel := retryFuel retries) 0 w) as [r Hr].
  - unfold retryFuel. lia.
  - rewrite Hr. reflexivity.
Qed.

(** More fuel does not change a settled loop. *)
Lemma loop_fuel_mono fuel :
  forall attempt w r,
    retryLoop fn rnd retries baseDelay fuel attempt w = Some r ->
    forall fuel', (fuel <= fuel')%nat -> retryLoop fn rnd retries baseDelay fuel' attempt w = Some r.
Proof.
  induction fuel as [| fuel IH]; intros attempt w r Hr fuel' Hle;
    [discriminate |].
  destruct fuel' as [| fuel']; [lia |].
  cbn [retryLoop] in *.
  destruct (attempt <=? retries)%Z; [| exact Hr].
  destruct (fn (calls w)) as [v | err]; [exact Hr |].
  destruct ((attempt + 1 <=? retries)%Z && isTransient err); [| exact Hr].
  eapply IH; [exact Hr | lia].
Qed.

End RetryFacts.

(** ** Counting what reached the log *)

Section LogFacts.

Import Env.

Lemma invocations_app l1 l2 :
  invocations (l1 ++ l2) = (invocations l1 + invocations l2)%nat.
Proof.
  unfold invocations. rewrite filter_app, length_app. reflexivity.
Qed.

Lemma sleeps_app l1 l2 : sleeps (l1 ++ l2) = sleeps l1 ++ sleeps l2.
Proof. unfold sleeps. apply flat_map_app. Qed.

Lemma log_invoked w : log (invoked w) = log w ++ [EvInvoke].
Proof. reflexivity. Qed.

Lemma calls_invoked w : calls (invoked w) = S (calls w).
Proof. reflexivity. Qed.

End LogFacts.

Section RetryBudget.

Import JsString Types Env GeminiService.

Variable T : Type.
Variable fn : nat -> Attempt T.
Variable rnd : nat -> Q.
Variable retries : Z.
Variable baseDelay : Q.

(** The operation fails on every invocation, each time with a transient
    error (not necessarily the same one). *)
Variable errs : nat -> JsError.
Hypothesis fn_fails : forall n, fn n = Rejected (errs n).
Hypothesis errs_transient : forall n, isTransient (errs n) = true.

Lemma calls_afterBackoff attempt err w :
  calls (afterBackoff rnd retries baseDelay attempt err w) = S (calls w).
Proof. reflexivity. Qed.

Lemma log_afterBackoff attempt err w :
  exists warning delay,
    log (afterBackoff rnd retries baseDelay attempt err w)
    = log w ++ [EvInvoke; warning; EvSleep delay]
    /\ isInvoke warning = false /\ isSleep warning = false.
Proof.
  unfold afterBackoff, emit, drawn, invoked; cbn [log calls draws].
  eexists _, _. rewrite <- !app_assoc. cbn [app].
  split; [reflexivity | split; reflexivity].
Qed.

(** With [n] attempts left after the current one, the loop invokes the
    operation [n + 1] more times, sleeps [n] times, and settles with the
    error of the last invocation. *)
Lemma loop_always_transient n :
  forall fuel attempt w,
    (attempt <= retries)%Z ->
    n = Z.to_nat (retries - attempt) ->
    (n < fuel)%nat ->
    exists w',
      retryLoop fn rnd retries baseDelay fuel attempt w
      = Some (Rejected (errs (calls w + n)), w')
      /\ calls w' = (calls w + n + 1)%nat
      /\ invocations (log w') = (invocations (log w) + n + 1)%nat
      /\ List.length (sleeps (log w')) = (List.length (sleeps (log w)) + n)%nat.
Proof.
  induction n as [| n IH]; intros fuel attempt w Hle Hn Hfuel;
    (destruct fuel as [| fuel]; [lia |]).
  - exists (invoked w).
    rewrite (loop_rethrow fn rnd baseDelay fuel w Hle (fn_fails _))
      by (left; lia).
    rewrite Nat.add_0_r, log_invoked, invocations_app, sleeps_app, length_app.
    cbn. repeat split; lia.
  - rewrite (loop_retry fn rnd baseDelay fuel attempt w (err := errs (calls w)))
      by (auto; lia).
    destruct (IH fuel (attempt + 1)%Z
                 (afterBackoff rnd retries baseDelay (attempt + 1) (errs (calls w)) w))
      as (w' & Hrun & Hcalls & Hinv & Hsl); try lia.
    exists w'. rewrite Hrun, Hcalls, Hinv, Hsl, calls_afterBackoff.
    destruct (log_afterBackoff (attempt + 1) (errs (calls w)) w)
      as (warning & delay & -> & Hw1 & Hw2).
    rewrite invocations_app, sleeps_app, length_app.
    unfold invocations, sleeps. cbn [filter flat_map isInvoke app List.length].
    rewrite Hw1.
    replace (calls w + S n)%nat with (S (calls w + n)) by lia.
    destruct warning; try discriminate; cbn; repeat split; lia.
Qed.

Lemma withRetry_always_transient w :
  (0 <= retries)%Z ->
  exists w',
    withRetry fn rnd retries baseDelay w
    = (Rejected (errs (calls w + Z.to_nat retries)), w')
    /\ calls w' = (calls w + Z.to_nat retries + 1)%nat
    /\ invocations (log w') = (invocations (log w) + Z.to_nat retries + 1)%nat
    /\ List.length (sleeps (log w'))
       = (List.length (sleeps (log w)) + Z.to_nat retries)%nat.
Proof.
  intros Hr.
  destruct (@loop_always_transient (Z.to_nat retries) (retryFuel retries) 0%Z w)
    as (w' & Hrun & Hrest); try (unfold retryFuel; lia).
  exists w'. split; [| exact Hrest].
  pose proof (withRetry_runs_loop fn rnd retries baseDelay w) as Hloop.
  rewrite Hrun in Hloop. congruence.
Qed.

End RetryBudget.

(** ** Claims about the retry executor *)

Section RetryClaims.

Import JsString Types Env GeminiService.

(** C1.  Under the default configuration (8 retries, base delay 4000), an
    operation that fails with a transient error on every invocation is
    invoked exactly 9 times (with 8 backoff sleeps in between), and the
    executor then rejects with the error of the ninth, last invocation. *)
Theorem C1_default_budget_then_last_error
    (T : Type) (fn : nat -> Attempt T) (rnd : nat -> Q)
    (errs : nat -> JsError) (w : World) :
  (forall n, fn n = Rejected (errs n)) ->
  (forall n, isTransient (errs n) = true) ->
  let run := withRetry fn rnd default_retries default_baseDelay w in
  fst run = Rejected (errs (calls w + 8)%nat)
  /\ fn (calls w + 8)%nat = fst run
  /\ calls (snd run) = (calls w + 9)%nat
  /\ invocations (log (snd run)) = (invocations (log w) + 9)%nat
  /\ List.length (sleeps (log (snd run))) = (List.length (sleeps (log w)) + 8)%nat.
Proof.
  intros Hfails Htransient run.
  destruct (withRetry_always_transient fn rnd default_baseDelay errs
              Hfails Htransient w (retries := default_retries))
    as (w' & Hrun & Hcalls & Hinv & Hsl); [unfold default_retries; lia |].
  subst run. rewrite Hrun. cbn [fst snd].
  change (Z.to_nat default_retries) with 8%nat in *.
  rewrite Hfails. repeat split; lia.
Qed.

Lemma C1_witness :
  fst (withRetry Examples.alwaysQuota Examples.halves
         default_retries default_baseDelay Examples.freshWorld)
  = Rejected Examples.quotaError
  /\ calls (snd (withRetry Examples.alwaysQuota Examples.halves
                   default_retries default_baseDelay Examples.freshWorld)) = 9%nat.
Proof.
  destruct (@C1_default_budget_then_last_error string Examples.alwaysQuota
              Examples.halves (fun _ => Examples.quotaError) Examples.freshWorld)
    as (Hout & _ & Hcalls & _).
  - intros n. reflexivity.
  - intros n. reflexivity.
  - split; [exact Hout | exact Hcalls].
Defined.

(** C2.  An error is classified transient exactly when its description
    carries a rate-limit marker, a server-error marker or a transport
    marker.  At whatever attempt within the budget an error without any
    marker occurs, the loop rejects with that very error straight away: no
    further invocation, no warning, no sleep.  Conversely the operation is
    invoked again only after an error that carries a marker. *)
Theorem C2_only_marked_errors_are_retried
    (T : Type) (fn : nat -> Attempt T) (rnd : nat -> Q)
    (retries : Z) (baseDelay : Q)
    (attempt : Z) (fuel : nat) (w : World) (e : JsError) :
  (0 <= attempt <= retries)%Z ->
  fn (calls w) = Rejected e ->
  let marked := rateLimitMarker (errorStr e)
                || serverErrorMarker (errorStr e)
                || transportMarker (errorStr e) in
  isTransient e = marked
  /\ (marked = false ->
      retryLoop fn rnd retries baseDelay (S fuel) attempt w
      = Some (Rejected e, invoked w)
      /\ log (invoked w) = log w ++ [EvInvoke]
      /\ (attempt = 0%Z ->
          withRetry fn rnd retries baseDelay w = (Rejected e, invoked w)))
  /\ (forall r,
        retryLoop fn rnd retries baseDelay (S fuel) attempt w = Some r ->
        (S (calls w) < calls (snd r))%nat ->
        marked = true).
Proof.
  intros [H0 Hle] Hfn marked.
  assert (Hclass : isTransient e = marked).
  { unfold marked, isTransient, isRateLimit, rateLimitMarker,
      serverErrorMarker, transportMarker.
    repeat rewrite <- orb_assoc. reflexivity. }
  assert (Hfatal : isTransient e = false ->
                   forall f, retryLoop fn rnd retries baseDelay (S f) attempt w
                             = Some (Rejected e, invoked w)).
  { intros Hf f. apply loop_rethrow; auto. }
  split; [exact Hclass |]. split.
  - intros Hm. rewrite <- Hclass in Hm. split; [auto |]. split; [reflexivity |].
    intros ->.
    pose proof (withRetry_runs_loop fn rnd retries baseDelay w) as Hloop.
    unfold retryFuel in Hloop. rewrite (Hfatal Hm) in Hloop. congruence.
  - intros r Hr Hcalls. rewrite <- Hclass.
    destruct (isTransient e) eqn:Htr; [reflexivity |].
    rewrite (Hfatal eq_refl) in Hr. inversion Hr; subst r.
    cbn in Hcalls. lia.
Qed.

Lemma C2_witness :
  withRetry Examples.alwaysBadRequest Examples.halves
            default_retries default_baseDelay Examples.freshWorld
  = (Rejected Examples.badRequest, invoked Examples.freshWorld).
Proof.
  destruct (@C2_only_marked_errors_are_retried string Examples.alwaysBadRequest
              Examples.halves default_retries default_baseDelay 0%Z 0%nat
              Examples.freshWorld Examples.badRequest)
    as (_ & Hfatal & _).
  - unfold default_retries. lia.
  - reflexivity.
  - destruct Hfatal as (_ & _ & Hrun); [reflexivity |].
    apply Hrun. reflexivity.
Defined.






End RetryClaims.

(** ** The task generator *)

Section TaskGenerator.

Import Types App.

Lemma pushColors_app img colors :
  forall tasks,
    pushColors img colors tasks = tasks ++ map (taskFor img) colors.
Proof.
  unfold pushColors.
  induction colors as [| c colors IH]; intros tasks; cbn [fold_left map].
  - symmetry. apply app_nil_r.
  - rewrite IH, <- app_assoc. reflexivity.
Qed.

Lemma buildTasks_from imgs colors :
  forall acc,
    fold_left (fun acc img => pushColors img colors acc) imgs acc
    = acc ++ imageMajorProduct imgs colors.
Proof.
  induction imgs as [| img imgs IH]; intros acc; cbn [fold_left].
  - symmetry. apply app_nil_r.
  - rewrite IH, pushColors_app, <- app_assoc. reflexivity.
Qed.

Lemma buildTasks_product imgs colors :
  buildTasks imgs colors = imageMajorProduct imgs colors.
Proof. unfold buildTasks. rewrite buildTasks_from. reflexivity. Qed.

(** Rows of equal length laid end to end: length and indexing. *)
Lemma rows_length (A B C : Type) (f : A -> B -> C) (xs : list A) (ys : list B) :
  List.length (flat_map (fun x => map (f x) ys) xs)
  = (List.length xs * List.length ys)%nat.
Proof.
  induction xs as [| x xs IH]; [reflexivity |].
  cbn [flat_map List.length]. rewrite length_app, length_map, IH. lia.
Qed.

Lemma rows_nth (A B C : Type) (f : A -> B -> C) (xs : list A) (ys : list B) :
  forall i j x y,
    nth_error xs i = Some x ->
    nth_error ys j = Some y ->
    nth_error (flat_map (fun x => map (f x) ys) xs) (i * List.length ys + j)
    = Some (f x y).
Proof.
  induction xs as [| x0 xs IH]; intros i j x y Hi Hj.
  - destruct i; discriminate.
  - cbn [flat_map].
    assert (Hjlt : (j < List.length ys)%nat)
      by (apply nth_error_Some; congruence).
    destruct i as [| i]; cbn [nth_error] in Hi.
    + inversion Hi; subst x0. cbn [Nat.mul Nat.add].
      rewrite nth_error_app1 by (rewrite length_map; exact Hjlt).
      apply map_nth_error. exact Hj.
    + rewrite nth_error_app2 by (rewrite length_map; cbn; lia).
      rewrite length_map.
      replace (S i * List.length ys + j - List.length ys)%nat
        with (i * List.length ys + j)%nat by (cbn; lia).
      apply IH; assumption.
Qed.

Lemma product_length imgs colors :
  List.length (imageMajorProduct imgs colors)
  = (List.length imgs * List.length colors)%nat.
Proof. apply rows_length. Qed.

Lemma product_nth imgs colors :
  forall i j img c,
    nth_error imgs i = Some img ->
    nth_error colors j = Some c ->
    nth_error (imageMajorProduct imgs colors) (i * List.length colors + j)
    = Some (taskFor img c).
Proof. apply rows_nth. Qed.

(** The loops of the earlier handler are the same loops. *)
Lemma legacy_pushColors_app img colors :
  forall tasks,
    Legacy.pushColors img colors tasks
    = tasks ++ map (Legacy.taskFor img) colors.
Proof.
  unfold Legacy.pushColors.
  induction colors as [| c colors IH]; intros tasks; cbn [fold_left map].
  - symmetry. apply app_nil_r.
  - rewrite IH, <- app_assoc. reflexivity.
Qed.

Lemma legacy_buildTasks_product imgs colors :
  Legacy.buildTasks imgs colors
  = flat_map (fun img => map (Legacy.taskFor img) colors) imgs.
Proof.
  unfold Legacy.buildTasks.
  change (flat_map (fun img => map (Legacy.taskFor img) colors) imgs)
    with ([] ++ flat_map (fun img => map (Legacy.taskFor img) colors) imgs).
  generalize (@nil Legacy.Task.t) as acc.
  induction imgs as [| img imgs IH]; intros acc; cbn [fold_left flat_map].
  - symmetry. apply app_nil_r.
  - rewrite IH, legacy_pushColors_app, <- app_assoc. reflexivity.
Qed.

(** C4.  The nested loops produce exactly the image-major, colour-minor
    product: its length is the product of the two lengths, the task at
    position [i * |colors| + j] pairs image [i] with colour [j], and nothing
    is produced when either list is empty.  The queue is a function of the
    two lists alone.  The loops of the earlier [processBatch] produce the
    same product. *)
Theorem C4_tasks_are_image_major_product
    (imgs : list ProcessedImage) (colors : list ColorDefinition) :
  buildTasks imgs colors = imageMajorProduct imgs colors
  /\ List.length (buildTasks imgs colors)
     = (List.length imgs * List.length colors)%nat
  /\ (forall i j img c,
        nth_error imgs i = Some img ->
        nth_error colors j = Some c ->
        nth_error (buildTasks imgs colors) (i * List.length colors + j)
        = Some (Task.mk (id img) c (originalUrl img)))
  /\ (imgs = [] \/ colors = [] -> buildTasks imgs colors = [])
  /\ (forall (oldImgs : list Legacy.ProcessedImage)
             (oldColors : list Legacy.ColorDefinition),
        List.length (Legacy.buildTasks oldImgs oldColors)
        = (List.length oldImgs * List.length oldColors)%nat
        /\ forall i j img c,
             nth_error oldImgs i = Some img ->
             nth_error oldColors j = Some c ->
             nth_error (Legacy.buildTasks oldImgs oldColors)
                       (i * List.length oldColors + j)
             = Some (Legacy.Task.mk (Legacy.id img) c (Legacy.originalUrl img))).
Proof.
  rewrite buildTasks_product.
  split; [reflexivity |].
  split; [apply product_length |].
  split; [intros; apply product_nth; assumption |].
  split.
  - intros [-> | ->]; [reflexivity |].
    apply length_zero_iff_nil. rewrite product_length. cbn. lia.
  - intros oldImgs oldColors. rewrite legacy_buildTasks_product.
    split; [apply rows_length |].
    intros i j img c Hi Hj.
    apply (rows_nth Legacy.taskFor oldImgs oldColors i j Hi Hj).
Qed.

End TaskGenerator.

(** ** The per-image updates of the orchestrator *)

Section ImageUpdates.

Import JsString Types Env GeminiService App.

Lemma hexes_app rs1 rs2 : hexes (rs1 ++ rs2) = hexes rs1 ++ hexes rs2.
Proof. unfold hexes. apply flat_map_app. Qed.

(** Filtering results by [otherHex] filters their hex strings. *)
Lemma hexes_filter_otherHex taskColor rs :
  hexes (filter (otherHex taskColor) rs)
  = filter (fun h => negb (String.eqb h (hex taskColor))) (hexes rs).
Proof.
  induction rs as [| r rs IH]; [reflexivity |].
  cbn [filter]. unfold otherHex at 1.
  destruct (color r) as [c |] eqn:Hc.
  - change (hexes (r :: rs)) with
      ((match color r with Some c => [hex c] | None => [] end) ++ hexes rs).
    rewrite Hc. cbn [app filter].
    destruct (negb (String.eqb (hex c) (hex taskColor))) eqn:Hneq.
    + change (hexes (r :: filter (otherHex taskColor) rs)) with
        ((match color r with Some c => [hex c] | None => [] end)
           ++ hexes (filter (otherHex taskColor) rs)).
      rewrite Hc, IH. reflexivity.
    + exact IH.
  - change (hexes (r :: rs)) with
      ((match color r with Some c => [hex c] | None => [] end) ++ hexes rs).
    change (hexes (r :: filter (otherHex taskColor) rs)) with
      ((match color r with Some c => [hex c] | None => [] end)
         ++ hexes (filter (otherHex taskColor) rs)).
    rewrite Hc, IH. reflexivity.
Qed.

Lemma survivors_differ taskColor rs :
  ~ In (hex taskColor) (hexes (filter (otherHex taskColor) rs)).
Proof.
  rewrite hexes_filter_otherHex. intros Hin.
  apply filter_In in Hin. destruct Hin as [_ Hneq].
  rewrite String.eqb_refl in Hneq. discriminate.
Qed.

Lemma recordSuccess_other task processedBase64 img :
  id img <> Task.imageId task ->
  recordSuccess task processedBase64 img = img.
Proof.
  intros Hid. unfold recordSuccess.
  destruct (String.eqb_spec (id img) (Task.imageId task)); [contradiction |].
  reflexivity.
Qed.

Lemma recordSuccess_owner task processedBase64 img :
  id img = Task.imageId task ->
  recordSuccess task processedBase64 img
  = mkImage (id img) (originalUrl img)
      (filter (otherHex (Task.color task)) (results img)
         ++ [mkResult (Some (Task.color task)) processedBase64 None None])
      completed (errorMsg img)
      (Some (List.length (filter (otherHex (Task.color task)) (results img)))).
Proof.
  intros Hid. unfold recordSuccess. rewrite Hid, String.eqb_refl. reflexivity.
Qed.

Lemma recordSuccess_unique task processedBase64 img :
  exactHexUnique (results img) ->
  exactHexUnique (results (recordSuccess task processedBase64 img)).
Proof.
  intros Huniq.
  destruct (String.eqb_spec (id img) (Task.imageId task)) as [Hid | Hid].
  - rewrite recordSuccess_owner by exact Hid. cbn [results].
    unfold exactHexUnique in *. rewrite hexes_app. cbn.
    apply NoDup_app.
    + rewrite hexes_filter_otherHex. apply NoDup_filter. exact Huniq.
    + constructor; [intros [] | constructor].
    + intros h Hin [<- | []]. exact (survivors_differ _ _ Hin).
  - rewrite recordSuccess_other by exact Hid. exact Huniq.
Qed.

Lemma recordFailure_results task isApiKeyError isRateLimit img :
  results (recordFailure task isApiKeyError isRateLimit img) = results img.
Proof.
  unfold recordFailure.
  destruct (String.eqb (id img) (Task.imageId task)
            && (List.length (results img) =? 0)%nat); reflexivity.
Qed.



Lemma recordFailure_silent task isApiKeyError isRateLimit img :
  results img <> [] ->
  recordFailure task isApiKeyError isRateLimit img = img.
Proof.
  intros Hne. unfold recordFailure.
  destruct (results img) as [| r rs]; [contradiction |].
  cbn. rewrite andb_false_r. reflexivity.
Qed.

Lemma recordFailure_empty task isApiKeyError isRateLimit img :
  id img = Task.imageId task ->
  results img = [] ->
  recordFailure task isApiKeyError isRateLimit img
  = mkImage (id img) (originalUrl img) [] error
            (Some (failureMessage isApiKeyError isRateLimit))
            (activeResultIndex img).
Proof.
  intros Hid Hres. unfold recordFailure.
  rewrite Hid, String.eqb_refl, Hres. reflexivity.
Qed.

Lemma images_onFailure tier task err s :
  images (onFailure tier task err s)
  = map (recordFailure task (isApiKeyErrorStr (toStr err))
                            (isRateLimitStr (toStr err)))
        (images s).
Proof.
  unfold onFailure.
  destruct (isRateLimitStr (toStr err));
    destruct (isApiKeyErrorStr (toStr err) && tier_eqb tier pro); reflexivity.
Qed.

(** The earlier handler: same replacement, and a failure that only writes
    a message. *)
Lemma legacy_hexes_filter taskColor rs :
  Legacy.hexes (filter (Legacy.otherHex taskColor) rs)
  = filter (fun h => negb (String.eqb h (Legacy.hex taskColor))) (Legacy.hexes rs).
Proof.
  induction rs as [| r rs IH]; [reflexivity |].
  cbn [filter Legacy.hexes map]. unfold Legacy.otherHex at 1.
  destruct (negb (String.eqb (Legacy.hex (Legacy.color r)) (Legacy.hex taskColor)));
    cbn [map]; fold (Legacy.hexes rs);
    fold (Legacy.hexes (filter (Legacy.otherHex taskColor) rs));
    rewrite IH; reflexivity.
Qed.

Lemma legacy_recordSuccess_unique task processedBase64 img :
  NoDup (Legacy.hexes (Legacy.results img)) ->
  NoDup (Legacy.hexes
           (Legacy.results (Legacy.recordSuccess task processedBase64 img))).
Proof.
  intros Huniq. unfold Legacy.recordSuccess.
  destruct (String.eqb (Legacy.id img) (Legacy.Task.imageId task));
    [| exact Huniq].
  cbn [Legacy.results]. unfold Legacy.hexes at 1. rewrite map_app.
  fold (Legacy.hexes
          (filter (Legacy.otherHex (Legacy.Task.color task)) (Legacy.results img))).
  rewrite legacy_hexes_filter. cbn [map Legacy.color].
  apply NoDup_app.
  - apply NoDup_filter. exact Huniq.
  - constructor; [intros [] | constructor].
  - intros h Hin [<- | []].
    apply filter_In in Hin. destruct Hin as [_ Hneq].
    rewrite String.eqb_refl in Hneq. discriminate.
Qed.

Lemma legacy_recordFailure_keeps_status task img :
  Legacy.status (Legacy.recordFailure task img) = Legacy.status img
  /\ Legacy.results (Legacy.recordFailure task img) = Legacy.results img.
Proof.
  unfold Legacy.recordFailure.
  destruct (String.eqb (Legacy.id img) (Legacy.Task.imageId task)
            && (List.length (Legacy.results img) =? 0)%nat);
    split; reflexivity.
Qed.

End ImageUpdates.

(** ** One more fact about the retry loop: it invokes the operation *)

Section RetryInvokes.

Import Env GeminiService.

Variable T : Type.
Variable fn : nat -> Attempt T.
Variable rnd : nat -> Q.
Variable retries : Z.
Variable baseDelay : Q.

Lemma loop_calls_mono fuel :
  forall attempt w r,
    retryLoop fn rnd retries baseDelay fuel attempt w = Some r ->
    (calls w <= calls (snd r))%nat.
Proof.
  induction fuel as [| fuel IH]; intros attempt w r Hr; [discriminate |].
  cbn [retryLoop] in Hr.
  destruct (attempt <=? retries)%Z.
  - destruct (fn (calls w)) as [v | err].
    + inversion Hr; subst r. cbn. lia.
    + destruct ((attempt + 1 <=? retries)%Z && GeminiService.isTransient err).
      * apply IH in Hr. cbn in Hr. lia.
      * inversion Hr; subst r. cbn. lia.
  - inversion Hr; subst r. cbn. lia.
Qed.

Lemma loop_invokes fuel attempt w r :
  (attempt <= retries)%Z ->
  retryLoop fn rnd retries baseDelay (S fuel) attempt w = Some r ->
  (S (calls w) <= calls (snd r))%nat.
Proof.
  intros Hle Hr.
  destruct (fn (calls w)) as [v | err] eqn:Hfn.
  - rewrite (loop_resolved fn rnd baseDelay fuel w Hle Hfn) in Hr.
    injection Hr as <-. cbn. lia.
  - destruct ((attempt + 1 <=? retries)%Z && GeminiService.isTransient err)
      eqn:Hretry.
    + apply andb_true_iff in Hretry. destruct Hretry as [Hnext Htr].
      apply Z.leb_le in Hnext.
      rewrite (loop_retry fn rnd baseDelay fuel attempt w Hnext Hfn Htr) in Hr.
      apply loop_calls_mono in Hr. cbn in Hr. lia.
    + apply andb_false_iff in Hretry.
      rewrite (loop_rethrow fn rnd baseDelay fuel w Hle Hfn) in Hr.
      * injection Hr as <-. cbn. lia.
      * destruct Hretry as [Hgt | Hfatal]; [left | right; exact Hfatal].
        apply Z.leb_gt in Hgt. lia.
Qed.

Lemma withRetry_invokes w :
  (0 <= retries)%Z ->
  (S (calls w) <= calls (snd (withRetry fn rnd retries baseDelay w)))%nat.
Proof.
  intros Hr.
  pose proof (withRetry_runs_loop fn rnd retries baseDelay w) as Hloop.
  unfold retryFuel in Hloop.
  exact (loop_invokes _ w Hr Hloop).
Qed.

End RetryInvokes.

(** ** The orchestrator loop *)

Section LoopFacts.

Import JsString Types Env GeminiService App.

Variable o : Oracle.
Variable captured : AppSettings.
Variable total : Z.

(** What one iteration does to the image list: the success update with the
    image the service returned, or the failure update with the flags read
    off the error. *)
Lemma processTask_cases r task :
  (exists processedBase64 w1,
      recolorImageWithGemini o (Task.originalUrl task) captured
                             (Task.color task) (world r)
      = (Resolved processedBase64, w1)
      /\ images (state (processTask o captured total r task))
         = map (recordSuccess task processedBase64) (images (state r)))
  \/ (exists err w1,
        recolorImageWithGemini o (Task.originalUrl task) captured
                               (Task.color task) (world r)
        = (Rejected err, w1)
        /\ images (state (processTask o captured total r task))
           = map (recordFailure task (isApiKeyErrorStr (toStr err))
                                     (isRateLimitStr (toStr err)))
                 (images (state r))).
Proof.
  unfold processTask.
  destruct (recolorImageWithGemini o (Task.originalUrl task) captured
              (Task.color task) (world r)) as [[processedBase64 | err] w1].
  - left. exists processedBase64, w1. split; reflexivity.
  - right. exists err, w1. split; [reflexivity |].
    cbn [state]. change (images (setProcessingProgress ?p ?s)) with (images s).
    apply images_onFailure.
Qed.

Lemma processTask_completed r task :
  completedTasks (processTask o captured total r task)
  = (completedTasks r + 1)%Z.
Proof.
  unfold processTask.
  destruct (recolorImageWithGemini o (Task.originalUrl task) captured
              (Task.color task) (world r)) as [[processedBase64 | err] w1];
    reflexivity.
Qed.

Lemma processTask_progress r task :
  processingProgress (state (processTask o captured total r task))
  = inject_Z (completedTasks r + 1) / inject_Z total.
Proof.
  unfold processTask.
  destruct (recolorImageWithGemini o (Task.originalUrl task) captured
              (Task.color task) (world r)) as [[processedBase64 | err] w1];
    reflexivity.
Qed.

Lemma processTask_calls r task :
  (S (calls (world r))
   <= calls (world (processTask o captured total r task)))%nat.
Proof.
  unfold processTask.
  pose proof (withRetry_invokes
                (fun n => recolorOnce (Task.originalUrl task) captured
                                      (service o n))
                (random o) default_baseDelay (world r)
                (retries := default_retries)) as Hinv.
  fold (recolorImageWithGemini o (Task.originalUrl task) captured
          (Task.color task) (world r)) in Hinv.
  destruct (recolorImageWithGemini o (Task.originalUrl task) captured
              (Task.color task) (world r)) as [[processedBase64 | err] w1];
    cbn in *; apply Hinv; unfold default_retries; lia.
Qed.

Lemma processTasks_app done rest r :
  processTasks o captured total (done ++ rest) r
  = processTasks o captured total rest (processTasks o captured total done r).
Proof. unfold processTasks. apply fold_left_app. Qed.

Lemma processTasks_completed tasks :
  forall r,
    completedTasks (processTasks o captured total tasks r)
    = (completedTasks r + Z.of_nat (List.length tasks))%Z.
Proof.
  induction tasks as [| task tasks IH]; intros r.
  - cbn. lia.
  - change (processTasks o captured total (task :: tasks) r)
      with (processTasks o captured total tasks
              (processTask o captured total r task)).
    rewrite IH, processTask_completed. cbn [List.length]. lia.
Qed.

Lemma processTasks_calls tasks :
  forall r,
    (calls (world r) + List.length tasks
     <= calls (world (processTasks o captured total tasks r)))%nat.
Proof.
  induction tasks as [| task tasks IH]; intros r.
  - cbn. lia.
  - change (processTasks o captured total (task :: tasks) r)
      with (processTasks o captured total tasks
              (processTask o captured total r task)).
    pose proof (IH (processTask o captured total r task)).
    pose proof (processTask_calls r task). cbn [List.length]. lia.
Qed.

(** A property of the image list that both updates keep is kept by the
    loop. *)
Lemma processTasks_keeps (P : list ProcessedImage -> Prop) :
  (forall task processedBase64 imgs,
      P imgs -> P (map (recordSuccess task processedBase64) imgs)) ->
  (forall task isApiKeyError isRateLimit imgs,
      P imgs -> P (map (recordFailure task isApiKeyError isRateLimit) imgs)) ->
  forall tasks r,
    P (images (state r)) ->
    P (images (state (processTasks o captured total tasks r))).
Proof.
  intros Hok Hko tasks.
  induction tasks as [| task tasks IH]; intros r HP; [exact HP |].
  change (processTasks o captured total (task :: tasks) r)
    with (processTasks o captured total tasks
            (processTask o captured total r task)).
  apply IH.
  destruct (processTask_cases r task)
    as [(b64 & w1 & _ & ->) | (err & w1 & _ & ->)]; auto.
Qed.

End LoopFacts.

(** ** Claims about the orchestrator *)

Section OrchestratorClaims.

Import JsString Types Env GeminiService App.

Lemma unique_recordSuccess task processedBase64 imgs :
  allExactHexUnique imgs ->
  allExactHexUnique (map (recordSuccess task processedBase64) imgs).
Proof.
  unfold allExactHexUnique. intros Hall. apply Forall_map.
  eapply Forall_impl; [| exact Hall].
  intros img. apply recordSuccess_unique.
Qed.

Lemma unique_recordFailure task isApiKeyError isRateLimit imgs :
  allExactHexUnique imgs ->
  allExactHexUnique (map (recordFailure task isApiKeyError isRateLimit) imgs).
Proof.
  unfold allExactHexUnique. intros Hall. apply Forall_map.
  eapply Forall_impl; [| exact Hall].
  intros img. rewrite recordFailure_results. auto.
Qed.

Lemma unique_startRun s :
  allExactHexUnique (images s) -> allExactHexUnique (images (startRun s)).
Proof.
  unfold allExactHexUnique, startRun. cbn [images setImages].
  intros Hall. apply Forall_map. exact Hall.
Qed.

(** When neither guard fires the handler starts, walks the whole queue
    and finishes. *)
Lemma handleRecolorBatch_runs o s w :
  images s <> [] ->
  targetColors (settings s) <> [] ->
  tier_eqb (modelTier (settings s)) pro && notKey (hasApiKey s) = false ->
  handleRecolorBatch o s w
  = (finishRun
       (state (processTasks o (settings s)
                 (Z.of_nat (List.length
                              (buildTasks (images s) (targetColors (settings s)))))
                 (buildTasks (images s) (targetColors (settings s)))
                 (mkRun (startRun s) w 0))),
     world (processTasks o (settings s)
              (Z.of_nat (List.length
                           (buildTasks (images s) (targetColors (settings s)))))
              (buildTasks (images s) (targetColors (settings s)))
              (mkRun (startRun s) w 0))).
Proof.
  intros Himgs Hcolors Hkey. unfold handleRecolorBatch.
  destruct (images s) as [| img imgs] eqn:Ei; [contradiction |].
  destruct (targetColors (settings s)) as [| c cs] eqn:Ec; [contradiction |].
  cbn [List.length Nat.eqb orb]. rewrite Hkey. reflexivity.
Qed.

(** C10.  Exact-hex uniqueness of every result list is an invariant of the
    orchestrator: a success writes [filter ... ++ [new]], where no survivor
    of the filter carries the new colour's hex string, and so keeps the
    list free of exact duplicates; starting the run, every prefix of the
    queue, and the whole handler keep it for every image.  The success
    update of the earlier [processBatch] keeps it as well. *)
Theorem C10_exact_hex_uniqueness_is_invariant
    (o : Oracle) (s : AppState) (w : World) :
  allExactHexUnique (images s) ->
  (forall task processedBase64 img,
      In img (images s) ->
      id img = Task.imageId task ->
      results (recordSuccess task processedBase64 img)
      = filter (otherHex (Task.color task)) (results img)
          ++ [mkResult (Some (Task.color task)) processedBase64 None None]
      /\ ~ In (hex (Task.color task))
              (hexes (filter (otherHex (Task.color task)) (results img)))
      /\ exactHexUnique (results (recordSuccess task processedBase64 img)))
  /\ (forall done rest,
        buildTasks (images s) (targetColors (settings s)) = done ++ rest ->
        allExactHexUnique
          (images (state (processTasks o (settings s)
                            (Z.of_nat (List.length (done ++ rest))) done
                            (mkRun (startRun s) w 0)))))
  /\ allExactHexUnique (images (fst (handleRecolorBatch o s w)))
  /\ (forall oldTask processedBase64 (oldImg : Legacy.ProcessedImage),
        NoDup (Legacy.hexes (Legacy.results oldImg)) ->
        NoDup (Legacy.hexes
                 (Legacy.results
                    (Legacy.recordSuccess oldTask processedBase64 oldImg)))).
Proof.
  intros Hall.
  assert (Hloop : forall total tasks,
             allExactHexUnique
               (images (state (processTasks o (settings s) total tasks
                                 (mkRun (startRun s) w 0))))).
  { intros total tasks.
    apply (processTasks_keeps o (settings s) total allExactHexUnique).
    - intros; apply unique_recordSuccess; assumption.
    - intros; apply unique_recordFailure; assumption.
    - cbn [state]. apply unique_startRun. exact Hall. }
  split; [| split; [| split]];
    [| | | intros; apply legacy_recordSuccess_unique; assumption].
  - intros task processedBase64 img Hin Hid.
    rewrite (recordSuccess_owner task processedBase64 img Hid). cbn [results].
    split; [reflexivity |]. split; [apply survivors_differ |].
    pose proof (recordSuccess_unique task processedBase64 img) as Hu.
    rewrite (recordSuccess_owner task processedBase64 img Hid) in Hu.
    apply Hu. unfold allExactHexUnique in Hall.
    rewrite Forall_forall in Hall. auto.
  - intros done rest _. apply Hloop.
  - unfold handleRecolorBatch.
    destruct ((List.length (images s) =? 0)%nat
              || (List.length (targetColors (settings s)) =? 0)%nat);
      [exact Hall |].
    destruct (tier_eqb (modelTier (settings s)) pro && notKey (hasApiKey s));
      [exact Hall |].
    cbn [fst]. apply Hloop.
Qed.

Lemma C10_witness :
  allExactHexUnique
    (images (fst (handleRecolorBatch Examples.obliging Examples.afterFirstRun
                    Examples.worldAfterFirstRun))).
Proof.
  destruct (C10_exact_hex_uniqueness_is_invariant Examples.obliging
              Examples.afterFirstRun Examples.worldAfterFirstRun)
    as (_ & _ & Hrun & _).
  - repeat constructor. intros [].
  - exact Hrun.
Defined.

(** C5 (the code departs from it).  A first batch stores a variant for
    "#FF0000"; the user reselects the same colour spelled "#ff0000" (the
    selection itself treats the two spellings as one colour); the second
    batch then leaves the image with two variants of that one colour,
    because the replacement test compares the hex strings exactly. *)
Theorem C5_case_differing_hex_is_kept_twice :
  map (fun img => hexes (results img))
      (images (fst (handleRecolorBatch Examples.obliging Examples.reselected
                      Examples.worldAfterFirstRun)))
  = [["#FF0000"; "#ff0000"]]%string
  /\ sameHexIgnoringCase "#FF0000" "#ff0000" = true
  /\ handleSampleColor "#ff0000" (Examples.workspace [Examples.red])
     = Examples.workspace [Examples.red].
Proof. repeat split. Qed.





Lemma inject_Z_ratio_one n : (n <> 0)%Z -> inject_Z n / inject_Z n == 1.
Proof.
  intros Hn. apply Qmult_inv_r.
  unfold Qeq. cbn. lia.
Qed.

(** C7.  In a run that starts, the counter starts at 0 (progress 0) with
    [N = |images| * |colors|] items; every item, whatever its outcome, adds
    exactly one to the counter, publishes [counter / N] and has invoked the
    service at least once; after any prefix of the queue the counter is the
    length of the prefix and the rest of the queue is still processed; at
    the end the counter is [N], the published progress is 1, and the run is
    marked inactive, whatever the service answered. *)
Theorem C7_progress_counts_every_item
    (o : Oracle) (s : AppState) (w : World) :
  images s <> [] ->
  targetColors (settings s) <> [] ->
  tier_eqb (modelTier (settings s)) pro && notKey (hasApiKey s) = false ->
  let tasks := buildTasks (images s) (targetColors (settings s)) in
  let N := Z.of_nat (List.length tasks) in
  let start := mkRun (startRun s) w 0 in
  let final := processTasks o (settings s) N tasks start in
  (completedTasks start = 0%Z
   /\ processingProgress (state start) == 0
   /\ N = Z.of_nat (List.length (images s)
                    * List.length (targetColors (settings s))))
  /\ (forall r task,
        completedTasks (processTask o (settings s) N r task)
        = (completedTasks r + 1)%Z
        /\ processingProgress (state (processTask o (settings s) N r task))
           == inject_Z (completedTasks r + 1) / inject_Z N
        /\ (S (calls (world r))
            <= calls (world (processTask o (settings s) N r task)))%nat)
  /\ (forall done rest,
        tasks = done ++ rest ->
        completedTasks (processTasks o (settings s) N done start)
        = Z.of_nat (List.length done)
        /\ final = processTasks o (settings s) N rest
                     (processTasks o (settings s) N done start)
        /\ (calls w + List.length done
            <= calls (world (processTasks o (settings s) N done start)))%nat)
  /\ completedTasks final = N
  /\ handleRecolorBatch o s w = (finishRun (state final), world final)
  /\ processingProgress (fst (handleRecolorBatch o s w)) == 1
  /\ isProcessing (fst (handleRecolorBatch o s w)) = false.
Proof.
  intros Himgs Hcolors Hkey tasks N start final.
  assert (HN : N = Z.of_nat (List.length (images s)
                             * List.length (targetColors (settings s)))).
  { unfold N, tasks. rewrite buildTasks_product, product_length. reflexivity. }
  assert (Hpos : (0 < N)%Z).
  { rewrite HN. destruct (images s); [contradiction |].
    destruct (targetColors (settings s)); [contradiction |]. cbn. lia. }
  split; [split; [reflexivity | split; [reflexivity | exact HN]] |].
  split.
  { intros r task. split; [apply processTask_completed |].
    split; [rewrite processTask_progress; reflexivity | apply processTask_calls]. }
  split.
  { intros done rest Hsplit.
    split; [rewrite processTasks_completed; cbn; lia |].
    split; [unfold final; rewrite Hsplit; apply processTasks_app |].
    apply (processTasks_calls o (settings s) N done start). }
  assert (Hfinal : completedTasks final = N).
  { unfold final. rewrite processTasks_completed. cbn. unfold N. lia. }
  split; [exact Hfinal |].
  assert (Hrun : handleRecolorBatch o s w = (finishRun (state final), world final)).
  { apply handleRecolorBatch_runs; assumption. }
  split; [exact Hrun |].
  rewrite Hrun. cbn [fst]. split; [| reflexivity].
  change (processingProgress (finishRun (state final)))
    with (processingProgress (state final)).
  assert (Hne : tasks <> []).
  { intros Hnil. unfold N in Hpos. rewrite Hnil in Hpos. cbn in Hpos. lia. }
  destruct (exists_last Hne) as (done & lastTask & Hsplit).
  unfold final. rewrite Hsplit, processTasks_app.
  change (processTasks o (settings s) N [lastTask]
            (processTasks o (settings s) N done start))
    with (processTask o (settings s) N
            (processTasks o (settings s) N done start) lastTask).
  rewrite processTask_progress, processTasks_completed.
  replace (completedTasks start + Z.of_nat (List.length done) + 1)%Z with N.
  - apply inject_Z_ratio_one. lia.
  - unfold N. rewrite Hsplit, length_app. cbn. lia.
Qed.

Lemma C7_witness :
  processingProgress
    (fst (handleRecolorBatch Examples.exhausted
            (Examples.workspace [Examples.red; Examples.blue])
            Examples.freshWorld)) == 1.
Proof.
  destruct (C7_progress_counts_every_item Examples.exhausted
              (Examples.workspace [Examples.red; Examples.blue])
              Examples.freshWorld)
    as (_ & _ & _ & _ & _ & Hdone & _).
  - discriminate.
  - discriminate.
  - reflexivity.
  - exact Hdone.
Defined.

(** C8, as the code has it.  Asked to start with no image or with no target
    colour, the handler returns at once: the state and the world come back
    exactly as they were, and nothing is emitted, so no reason for the
    refusal reaches the caller. *)
Theorem C8_empty_batch_is_declined_silently
    (o : Oracle) (s : AppState) (w : World) :
  images s = [] \/ targetColors (settings s) = [] ->
  handleRecolorBatch o s w = (s, w)
  /\ ~ reportsRejection w (snd (handleRecolorBatch o s w)).
Proof.
  intros Hempty.
  assert (Hrun : handleRecolorBatch o s w = (s, w)).
  { unfold handleRecolorBatch.
    destruct Hempty as [-> | ->]; cbn [List.length Nat.eqb orb];
      [| rewrite orb_true_r]; reflexivity. }
  split; [exact Hrun |].
  rewrite Hrun. cbn [snd]. intros Hgrown. apply Hgrown. reflexivity.
Qed.

Lemma C8_witness :
  handleRecolorBatch Examples.obliging (Examples.workspace [])
                     Examples.freshWorld
  = (Examples.workspace [], Examples.freshWorld).
Proof.
  apply (C8_empty_batch_is_declined_silently Examples.obliging
           (Examples.workspace []) Examples.freshWorld).
  right. reflexivity.
Defined.

(** C8, as written, fails: with an image but no target colour the handler
    changes nothing and also reports nothing. *)
Lemma C8_refusal_reports_no_reason :
  ~ (fst (handleRecolorBatch Examples.obliging (Examples.workspace [])
            Examples.freshWorld) = Examples.workspace []
     /\ reportsRejection Examples.freshWorld
          (snd (handleRecolorBatch Examples.obliging (Examples.workspace [])
                  Examples.freshWorld))).
Proof.
  intros [_ Hgrown]. apply Hgrown. reflexivity.
Qed.

(** The scenarios of the specification, run through the handler. *)

Example scenario_A_one_success :
  let done := handleRecolorBatch Examples.obliging
                (Examples.workspace [Examples.red]) Examples.freshWorld in
  images (fst done)
  = [mkImage "imgA" (originalUrl Examples.imgA) [Examples.redVariant]
             completed None (Some 0%nat)]
  /\ processingProgress (fst done) == 1.
Proof. split; reflexivity. Qed.

Example scenario_B_success_then_exhausted :
  let done := handleRecolorBatch Examples.onceThenExhausted
                (Examples.workspace [Examples.red; Examples.blue])
                Examples.freshWorld in
  images (fst done)
  = [mkImage "imgA" (originalUrl Examples.imgA) [Examples.redVariant]
             completed None (Some 0%nat)]
  /\ calls (snd done) = 10%nat
  /\ processingProgress (fst done) == 1.
Proof. repeat split. Qed.

Example scenario_C_always_rate_limited :
  let done := handleRecolorBatch Examples.exhausted
                (Examples.workspace [Examples.red]) Examples.freshWorld in
  images (fst done)
  = [mkImage "imgA" (originalUrl Examples.imgA) [] error
             (Some quotaMessage) None]
  /\ calls (snd done) = 9%nat
  /\ processingProgress (fst done) == 1.
Proof. repeat split. Qed.

End OrchestratorClaims.

(** ** The colour sampler *)

Section SamplerFacts.

Import JsString Sampler.

Lemma append_assoc (a b c : string) :
  ((a ++ b) ++ c = a ++ (b ++ c))%string.
Proof.
  induction a as [| ch a IH]; cbn; [reflexivity |].
  rewrite IH. reflexivity.
Qed.

Lemma hexDigits_low n :
  (n < 16)%N -> hexDigits n = String (hexDigit n) EmptyString.
Proof.
  intros Hn. funelim (hexDigits n).
  - reflexivity.
  - pose proof (proj1 (N.ltb_ge _ _) e). lia.
Qed.

Lemma hexDigits_high n :
  (16 <= n)%N ->
  hexDigits n
  = (hexDigits (n / 16) ++ String (hexDigit (n mod 16)) EmptyString)%string.
Proof.
  intros Hn. funelim (hexDigits n).
  - pose proof (proj1 (N.ltb_lt _ _) e). lia.
  - reflexivity.
Qed.

(** Appending one byte to a positive number appends its two digits. *)
Lemma hexDigits_byte q x :
  (0 < q)%N -> (x < 256)%N ->
  hexDigits (q * 256 + x)
  = (hexDigits q
     ++ String (hexDigit (x / 16)) (String (hexDigit (x mod 16)) EmptyString))%string.
Proof.
  intros Hq Hx.
  assert (Hdiv : ((q * 256 + x) / 16 = q * 16 + x / 16)%N).
  { replace (q * 256 + x)%N with (x + (q * 16) * 16)%N by lia.
    rewrite N.div_add by lia. lia. }
  assert (Hmod : ((q * 256 + x) mod 16 = x mod 16)%N).
  { replace (q * 256 + x)%N with (x + (q * 16) * 16)%N by lia.
    apply N.Div0.mod_add. }
  assert (Hx16 : (x / 16 < 16)%N) by (apply N.Div0.div_lt_upper_bound; lia).
  assert (Hdiv2 : ((q * 16 + x / 16) / 16 = q)%N).
  { replace (q * 16 + x / 16)%N with (x / 16 + q * 16)%N by lia.
    rewrite N.div_add by lia. rewrite (N.div_small (x / 16) 16) by exact Hx16.
    lia. }
  assert (Hmod2 : ((q * 16 + x / 16) mod 16 = x / 16)%N).
  { replace (q * 16 + x / 16)%N with (x / 16 + q * 16)%N by lia.
    rewrite N.Div0.mod_add. apply N.mod_small. exact Hx16. }
  rewrite hexDigits_high by lia. rewrite Hdiv, Hmod.
  assert (Hbig : (16 <= q * 16 + x / 16)%N).
  { pose proof (N.le_0_l (x / 16)). nia. }
  rewrite (hexDigits_high Hbig), Hdiv2, Hmod2.
  rewrite append_assoc. reflexivity.
Qed.

Lemma toInt32_small z :
  (- 2 ^ 31 <= z < 2 ^ 31)%Z -> toInt32 z = z.
Proof.
  intros Hz. unfold toInt32. rewrite Z.mod_small by lia. lia.
Qed.

Lemma shl_small a k :
  (0 <= k < 32)%Z -> (0 <= a)%Z -> (a * 2 ^ k < 2 ^ 31)%Z ->
  shl a k = (a * 2 ^ k)%Z.
Proof.
  intros Hk Ha Hfit. unfold shl.
  assert (Hpow : (1 <= 2 ^ k)%Z) by (apply Z.lt_pred_le, Z.pow_pos_nonneg; lia).
  rewrite (Z.mod_small k 32) by lia.
  rewrite (toInt32_small (z := a)) by nia.
  rewrite Z.shiftl_mul_pow2 by lia.
  apply toInt32_small. nia.
Qed.

Lemma channel_range b : (0 <= channel b < 256)%Z.
Proof.
  unfold channel. pose proof (Byte.to_N_bounded b). lia.
Qed.

(** The number formatted by [formatHex], as a natural number built byte
    by byte. *)
Lemma packed_value p :
  Z.to_N (shl 1 24 + shl (channel (red p)) 16
          + shl (channel (green p)) 8 + channel (blue p))
  = (((1 * 256 + Byte.to_N (red p)) * 256 + Byte.to_N (green p)) * 256
     + Byte.to_N (blue p))%N
  /\ (0 <= shl 1 24 + shl (channel (red p)) 16
           + shl (channel (green p)) 8 + channel (blue p))%Z.
Proof.
  pose proof (channel_range (red p)) as Hr.
  pose proof (channel_range (green p)) as Hg.
  pose proof (channel_range (blue p)) as Hb.
  rewrite (shl_small (a := 1) (k := 24)) by lia.
  rewrite (shl_small (a := channel (red p)) (k := 16)) by lia.
  rewrite (shl_small (a := channel (green p)) (k := 8)) by lia.
  unfold channel in *. split; lia.
Qed.

Lemma upper_of_lower_digit d :
  (d < 16)%N -> upperChar (hexDigit d) = upperHexDigit d.
Proof.
  intros Hd.
  assert (Hcases : In d [0; 1; 2; 3; 4; 5; 6; 7; 8; 9; 10; 11; 12; 13; 14; 15]%N).
  { cbn. lia. }
  cbn in Hcases.
  repeat (destruct Hcases as [<- | Hcases]; [reflexivity |]).
  contradiction.
Qed.

Lemma upperHexDigit_ok d :
  (d < 16)%N -> isUpperHexDigit (upperHexDigit d) = true.
Proof.
  intros Hd.
  assert (Hcases : In d [0; 1; 2; 3; 4; 5; 6; 7; 8; 9; 10; 11; 12; 13; 14; 15]%N).
  { cbn. lia. }
  cbn in Hcases.
  repeat (destruct Hcases as [<- | Hcases]; [reflexivity |]).
  contradiction.
Qed.

Lemma byte_nibbles b :
  (Byte.to_N b / 16 < 16)%N /\ (Byte.to_N b mod 16 < 16)%N.
Proof.
  pose proof (Byte.to_N_bounded b). split.
  - apply N.Div0.div_lt_upper_bound. lia.
  - apply N.mod_lt. lia.
Qed.

(** [formatHex] writes '#' and the six upper-case digits RRGGBB. *)
Lemma formatHex_rrggbb p : formatHex p = rrggbb p.
Proof.
  unfold formatHex, toString16.
  destruct (packed_value p) as [Hval Hpos].
  apply Z.ltb_ge in Hpos. rewrite Hpos, Hval.
  pose proof (Byte.to_N_bounded (red p)).
  pose proof (Byte.to_N_bounded (green p)).
  pose proof (Byte.to_N_bounded (blue p)).
  rewrite !hexDigits_byte by lia.
  rewrite (hexDigits_low (n := 1)) by lia.
  destruct (byte_nibbles (red p)) as [Hr1 Hr2].
  destruct (byte_nibbles (green p)) as [Hg1 Hg2].
  destruct (byte_nibbles (blue p)) as [Hb1 Hb2].
  unfold rrggbb, twoHexDigits. cbn [append slice1 toUpperCase mapChars].
  rewrite !upper_of_lower_digit by assumption.
  reflexivity.
Qed.

Lemma rrggbb_shape p :
  String.length (rrggbb p) = 7%nat
  /\ exists digits,
       rrggbb p = String "#" digits
       /\ String.length digits = 6%nat
       /\ allChars isUpperHexDigit digits = true.
Proof.
  split; [reflexivity |].
  eexists. split; [reflexivity |]. split; [reflexivity |].
  destruct (byte_nibbles (red p)) as [Hr1 Hr2].
  destruct (byte_nibbles (green p)) as [Hg1 Hg2].
  destruct (byte_nibbles (blue p)) as [Hb1 Hb2].
  cbn [twoHexDigits append allChars].
  rewrite !upperHexDigit_ok by assumption. reflexivity.
Qed.






End SamplerFacts.

(* ================================================================== *)
(** * Further properties of the code *)

(** ** The retry executor, whatever the operation does *)

Section RetryShape.

Import JsString Types Env GeminiService.

Variable T : Type.
Variable fn : nat -> Attempt T.
Variable rnd : nat -> Q.
Variable retries : Z.
Variable baseDelay : Q.

(** What a settled loop has added to the world. *)
Lemma loop_shape fuel :
  forall attempt w r,
    (attempt <= retries)%Z ->
    retryLoop fn rnd retries baseDelay fuel attempt w = Some r ->
    exists n added,
      calls (snd r) = (calls w + S n)%nat
      /\ (n <= Z.to_nat (retries - attempt))%nat
      /\ fst r = fn (calls w + n)%nat
      /\ draws (snd r) = (draws w + n)%nat
      /\ log (snd r) = log w ++ added
      /\ invocations added = S n
      /\ List.length (sleeps added) = n
      /\ Forall (fun d => 2000 <= d) (sleeps added)
      /\ Forall (fun e => match e with EvConsoleError _ _ => False | _ => True end)
                added.
Proof.
  induction fuel as [| fuel IH]; intros attempt w r Hle Hr; [discriminate |].
  destruct (fn (calls w)) as [v | err] eqn:Hfn.
  - rewrite (loop_resolved fn rnd baseDelay fuel w Hle Hfn) in Hr.
    injection Hr as <-. exists 0%nat, [EvInvoke]. cbn.
    rewrite Nat.add_0_r, Hfn.
    repeat split; try lia; repeat constructor.
  - destruct ((attempt + 1 <=? retries)%Z && isTransient err) eqn:Hretry.
    + apply andb_true_iff in Hretry. destruct Hretry as [Hnext Htr].
      apply Z.leb_le in Hnext.
      rewrite (loop_retry fn rnd baseDelay fuel attempt w Hnext Hfn Htr) in Hr.
      destruct (IH _ _ _ Hnext Hr)
        as (n & added & Hcalls & Hn & Hout & Hdraws & Hlog & Hinv & Hsl & Hmin & Hquiet).
      destruct (log_afterBackoff rnd retries baseDelay (attempt + 1) err w)
        as (warning & delay & Hlog' & Hw1 & Hw2).
      exists (S n),
        ([EvInvoke;
          EvWarn (attempt + 1) retries (isRateLimit err)
                 (mathRound (finalDelay baseDelay (isRateLimit err) (attempt + 1)
                                        (rnd (draws (invoked w))) / 1000));
          EvSleep (finalDelay baseDelay (isRateLimit err) (attempt + 1)
                              (rnd (draws (invoked w))))] ++ added).
      rewrite Hcalls, Hout, Hdraws, Hlog.
      unfold afterBackoff, emit, drawn, invoked; cbn [calls draws log].
      rewrite invocations_app, sleeps_app, length_app, Hinv, Hsl.
      rewrite <- !app_assoc. cbn [app].
      repeat split; try (cbn; lia).
      * f_equal. lia.
      * cbn. constructor; [apply Q.le_max_l | exact Hmin].
      * repeat (constructor; [exact I |]). exact Hquiet.
    + apply andb_false_iff in Hretry.
      rewrite (loop_rethrow fn rnd baseDelay fuel w Hle Hfn) in Hr.
      * injection Hr as <-. exists 0%nat, [EvInvoke]. cbn.
        rewrite Nat.add_0_r, Hfn.
        repeat split; try lia; repeat constructor.
      * destruct Hretry as [Hgt | Hfatal]; [left | right; exact Hfatal].
        apply Z.leb_gt in Hgt. lia.
Qed.

(** With a budget that is not negative, the outcome is that of the last
    call, and at most [retries + 1] calls are made. *)
Lemma withRetry_last_call (w : World) :
  (0 <= retries)%Z ->
  exists n,
    calls (snd (withRetry fn rnd retries baseDelay w)) = (calls w + S n)%nat
    /\ (n <= Z.to_nat retries)%nat
    /\ fst (withRetry fn rnd retries baseDelay w) = fn (calls w + n)%nat.
Proof.
  intros Hpos.
  pose proof (withRetry_runs_loop fn rnd retries baseDelay w) as Hloop.
  destruct (loop_shape _ _ Hpos Hloop) as (n & added & Hcalls & Hn & Hout & _).
  exists n. rewrite Z.sub_0_r in Hn. split; [exact Hcalls |].
  split; [exact Hn | exact Hout].
Qed.


(** After [j] transient failures and then a success, all within the
    budget, the loop hands back the value of call [j + 1]. *)
Lemma loop_eventual_success j :
  forall fuel attempt w (v : T),
    (attempt + Z.of_nat j <= retries)%Z ->
    (j < fuel)%nat ->
    (forall i, (i < j)%nat ->
       exists e, fn (calls w + i)%nat = Rejected e /\ isTransient e = true) ->
    fn (calls w + j)%nat = Resolved v ->
    exists w',
      retryLoop fn rnd retries baseDelay fuel attempt w = Some (Resolved v, w')
      /\ calls w' = (calls w + S j)%nat
      /\ List.length (sleeps (log w')) = (List.length (sleeps (log w)) + j)%nat.
Proof.
  induction j as [| j IH]; intros fuel attempt w v Hle Hfuel Hfail Hok;
    (destruct fuel as [| fuel]; [lia |]).
  - rewrite Nat.add_0_r in Hok.
    rewrite (loop_resolved fn rnd baseDelay fuel w (attempt := attempt) (v := v))
      by (auto; lia).
    exists (invoked w). rewrite log_invoked, sleeps_app, length_app. cbn.
    repeat split; lia.
  - destruct (Hfail 0%nat) as (e & He & Htr); [lia |].
    rewrite Nat.add_0_r in He.
    rewrite (loop_retry fn rnd baseDelay fuel attempt w (err := e))
      by (auto; lia).
    destruct (IH fuel (attempt + 1)%Z
                 (afterBackoff rnd retries baseDelay (attempt + 1) e w) v)
      as (w' & Hrun & Hcalls & Hsl); try lia.
    + intros i Hi. rewrite calls_afterBackoff.
      destruct (Hfail (S i)) as (e' & He' & Htr'); [lia |].
      exists e'. split; [| exact Htr'].
      rewrite <- He'. f_equal. lia.
    + rewrite calls_afterBackoff. rewrite <- Hok. f_equal. lia.
    + exists w'. rewrite Hrun, Hcalls, Hsl, calls_afterBackoff.
      destruct (log_afterBackoff rnd retries baseDelay (attempt + 1) e w)
        as (warning & delay & -> & Hw1 & Hw2).
      rewrite sleeps_app, length_app.
      unfold sleeps. cbn [flat_map app List.length].
      destruct warning; try discriminate; cbn; repeat split; lia.
Qed.

(** If the operation fails [j] times with transient errors and then
    answers, with [j] within the budget, the executor returns that answer
    after exactly [j + 1] calls and [j] backoff sleeps. *)
Theorem withRetry_recovers_after_transient_failures
    (j : nat) (w : World) (v : T) :
  (Z.of_nat j <= retries)%Z ->
  (forall i, (i < j)%nat ->
     exists e, fn (calls w + i)%nat = Rejected e /\ isTransient e = true) ->
  fn (calls w + j)%nat = Resolved v ->
  fst (withRetry fn rnd retries baseDelay w) = Resolved v
  /\ calls (snd (withRetry fn rnd retries baseDelay w)) = (calls w + S j)%nat
  /\ List.length (sleeps (log (snd (withRetry fn rnd retries baseDelay w))))
     = (List.length (sleeps (log w)) + j)%nat.
Proof.
  intros Hj Hfail Hok.
  destruct (@loop_eventual_success j (retryFuel retries) 0%Z w v)
    as (w' & Hrun & Hcalls & Hsl); auto; try (unfold retryFuel; lia).
  pose proof (withRetry_runs_loop fn rnd retries baseDelay w) as Hloop.
  rewrite Hrun in Hloop. injection Hloop as Heq. rewrite <- Heq. cbn [fst snd].
  repeat split; assumption.
Qed.

End RetryShape.

Lemma withRetry_recovers_witness :
  fst (GeminiService.withRetry Examples.overloadedTwice Examples.halves
         GeminiService.default_retries GeminiService.default_baseDelay
         Examples.freshWorld)
  = Env.Resolved "done"%string.
Proof.
  destruct (@withRetry_recovers_after_transient_failures string
              Examples.overloadedTwice Examples.halves
              GeminiService.default_retries GeminiService.default_baseDelay
              2%nat Examples.freshWorld "done"%string) as (Hout & _).
  - unfold GeminiService.default_retries. lia.
  - intros i Hi. exists Examples.overloaded.
    destruct i as [| [| i]]; [split; reflexivity | split; reflexivity | lia].
  - reflexivity.
  - exact Hout.
Defined.

(** ** The two service calls *)

Section ServiceFacts.

Import JsString Types Env GeminiService.

Lemma prefix_append (p rest : string) : String.prefix p (p ++ rest) = true.
Proof.
  induction p as [| c p IH]; cbn.
  - destruct rest; reflexivity.
  - destruct (Ascii.ascii_dec c c) as [_ | Hne]; [exact IH | contradiction].
Qed.

Lemma truthy_nonempty (s : string) : truthy s = true <-> s <> EmptyString.
Proof.
  destruct s; cbn; split; intros H; try reflexivity; try discriminate.
  contradiction.
Qed.

Lemma firstInlineData_skips before :
  forall rest,
    Forall carriesNoData before ->
    firstInlineData (before ++ rest) = firstInlineData rest.
Proof.
  induction before as [| part before IH]; intros rest Hall; [reflexivity |].
  inversion Hall as [| ? ? Hpart Hrest]; subst.
  cbn [app firstInlineData].
  destruct Hpart as [-> | ->]; cbn; apply IH; assumption.
Qed.

Lemma firstInlineData_nothing parts :
  Forall carriesNoData parts -> firstInlineData parts = EmptyString.
Proof.
  intros Hall. rewrite <- (app_nil_r parts).
  rewrite firstInlineData_skips by exact Hall. reflexivity.
Qed.

(** Either the scan finds nothing, or it returns the header followed by
    the first non-empty data. *)
Lemma firstInlineData_cases parts :
  (Forall carriesNoData parts /\ firstInlineData parts = EmptyString)
  \/ (exists before data rest,
        parts = before ++ Some data :: rest
        /\ Forall carriesNoData before
        /\ data <> EmptyString
        /\ firstInlineData parts = (pngHeader ++ data)%string).
Proof.
  induction parts as [| part parts IH].
  - left. split; [constructor | reflexivity].
  - destruct part as [data |].
    + destruct data as [| c data].
      * destruct IH as [[Hall Hnone] | (before & d & rest & -> & Hall & Hd & Hfound)].
        -- left. split; [constructor; [right; reflexivity | exact Hall] |].
           exact Hnone.
        -- right. exists (Some EmptyString :: before), d, rest.
           repeat split; try assumption.
           constructor; [right; reflexivity | exact Hall].
      * right. exists [], (String c data), parts.
        repeat split; [constructor | discriminate].
    + destruct IH as [[Hall Hnone] | (before & d & rest & -> & Hall & Hd & Hfound)].
      * left. split; [constructor; [left; reflexivity | exact Hall] |].
        exact Hnone.
      * right. exists (None :: before), d, rest.
        repeat split; try assumption.
        constructor; [left; reflexivity | exact Hall].
Qed.

(** An attempt that resolves hands back the PNG header followed by a
    non-empty payload. *)
Lemma recolorOnce_resolved (settings : AppSettings) (reply : ApiReply)
    (source : string) (v : string) :
  recolorOnce (Some source) settings reply = Resolved v ->
  String.prefix pngHeader v = true
  /\ (String.length pngHeader < String.length v)%nat.
Proof.
  intros Hv. unfold recolorOnce in Hv.
  destruct reply as [e | candidates]; [discriminate |].
  destruct candidates as [| parts others]; [discriminate |].
  cbn [extractImage] in Hv.
  destruct (firstInlineData_cases parts)
    as [[_ Hnone] | (before & data & rest & _ & _ & Hdata & Hfound)].
  + rewrite Hnone in Hv. discriminate.
  + rewrite Hfound in Hv.
    destruct (truthy (pngHeader ++ data)); [| discriminate].
    injection Hv as <-. split; [exact (prefix_append pngHeader data) |].
    destruct data as [| c data]; [contradiction |].
    unfold pngHeader. cbn. lia.
Qed.

(** What one recolouring attempt makes of an answer: only the first
    candidate counts; within it the first part with non-empty data is
    returned behind the PNG header; with no such part, or no candidate at
    all, the attempt fails with the "No image data" error of the tier's
    model; and without a source picture it fails before reading the
    answer. *)
Theorem recolorOnce_reads_first_image
    (settings : AppSettings) (reply : ApiReply) (source : string) :
  (forall before data rest others,
      Forall carriesNoData before ->
      data <> EmptyString ->
      recolorOnce (Some source) settings
                  (ApiReturns ((before ++ Some data :: rest) :: others))
      = Resolved (pngHeader ++ data)%string)
  /\ (forall parts others,
        Forall carriesNoData parts ->
        recolorOnce (Some source) settings (ApiReturns (parts :: others))
        = Rejected (newError ("No image data returned from "
                              ++ modelName (modelTier settings) ++ ".")%string))
  /\ recolorOnce (Some source) settings (ApiReturns [])
     = Rejected (newError ("No image data returned from "
                           ++ modelName (modelTier settings) ++ ".")%string)
  /\ (forall e, recolorOnce (Some source) settings (ApiThrows e) = Rejected e)
  /\ recolorOnce None settings reply = Rejected splitOfUndefined
  /\ (forall v,
        recolorOnce (Some source) settings reply = Resolved v ->
        String.prefix pngHeader v = true
        /\ (String.length pngHeader < String.length v)%nat).
Proof.
  split; [| split; [| split; [| split; [| split]]]].
  - intros before data rest others Hall Hdata.
    unfold recolorOnce, extractImage.
    rewrite firstInlineData_skips by exact Hall. cbn [firstInlineData].
    apply truthy_nonempty in Hdata. rewrite Hdata. reflexivity.
  - intros parts others Hall. unfold recolorOnce, extractImage.
    rewrite firstInlineData_nothing by exact Hall. reflexivity.
  - reflexivity.
  - reflexivity.
  - reflexivity.
  - intros v Hv. exact (recolorOnce_resolved settings reply source Hv).
Qed.

Lemma noImage_is_fatal tier :
  isTransient (newError ("No image data returned from "
                         ++ modelName tier ++ ".")%string) = false.
Proof. destruct tier; reflexivity. Qed.

Lemma withRetry_first_fatal (T : Type) (fn : nat -> Attempt T) rnd w e :
  fn (calls w) = Rejected e ->
  isTransient e = false ->
  withRetry fn rnd default_retries default_baseDelay w = (Rejected e, invoked w).
Proof.
  intros Hfn Hfatal.
  pose proof (withRetry_runs_loop fn rnd default_retries default_baseDelay w)
    as Hloop.
  unfold retryFuel in Hloop.
  rewrite (loop_rethrow fn rnd default_baseDelay _ w (attempt := 0%Z) (err := e))
    in Hloop; auto.
  - congruence.
  - unfold default_retries. lia.
Qed.

(** A service answer without image data is not retried: both service
    functions reject after one call, with no warning and no sleep, with
    their "No image data" error; so does a recolouring whose source picture
    is missing. *)
Theorem imageless_answer_is_not_retried
    (o : Oracle) (w : World) (settings : AppSettings)
    (targetColor : ColorDefinition) (source : string) (candidates : list (list (option string))) :
  service o (calls w) = ApiReturns candidates ->
  extractImage candidates = EmptyString ->
  recolorImageWithGemini o (Some source) settings targetColor w
  = (Rejected (newError ("No image data returned from "
                         ++ modelName (modelTier settings) ++ ".")%string),
     invoked w)
  /\ generateImageWithGemini o w
     = (Rejected (newError "No image data returned from Gemini 3 Pro."),
        invoked w)
  /\ recolorImageWithGemini o None settings targetColor w
     = (Rejected splitOfUndefined, invoked w).
Proof.
  intros Hreply Hnone.
  split; [| split].
  - unfold recolorImageWithGemini. apply withRetry_first_fatal.
    + unfold recolorOnce. rewrite Hreply, Hnone. reflexivity.
    + apply noImage_is_fatal.
  - unfold generateImageWithGemini. apply withRetry_first_fatal.
    + unfold generateOnce. rewrite Hreply, Hnone. reflexivity.
    + reflexivity.
  - unfold recolorImageWithGemini. apply withRetry_first_fatal; reflexivity.
Qed.

(** One recolouring, or one generation, settles to what its last attempt
    settled to after one to nine calls of the service. *)
Lemma service_last_call (o : Oracle) (w : World) (settings : AppSettings)
    (targetColor : ColorDefinition) (source : option string) :
  (exists n,
      calls (snd (recolorImageWithGemini o source settings targetColor w))
      = (calls w + S n)%nat
      /\ (n <= 8)%nat
      /\ fst (recolorImageWithGemini o source settings targetColor w)
         = recolorOnce source settings (service o (calls w + n)%nat))
  /\ (exists m,
        calls (snd (generateImageWithGemini o w)) = (calls w + S m)%nat
        /\ (m <= 8)%nat
        /\ fst (generateImageWithGemini o w)
           = generateOnce (service o (calls w + m)%nat)).
Proof.
  assert (H8 : (0 <= default_retries)%Z) by (unfold default_retries; lia).
  split.
  - exact (withRetry_last_call
             (fun n => recolorOnce source settings (service o n))
             (random o) default_baseDelay w H8).
  - exact (withRetry_last_call
             (fun n => generateOnce (service o n))
             (random o) default_baseDelay w H8).
Qed.

Lemma service_call_bounds (o : Oracle) (w : World) (settings : AppSettings)
    (targetColor : ColorDefinition) (source : option string) :
  (calls w + 1
   <= calls (snd (recolorImageWithGemini o source settings targetColor w))
   <= calls w + 9)%nat
  /\ (calls w + 1 <= calls (snd (generateImageWithGemini o w)) <= calls w + 9)%nat.
Proof.
  destruct (service_last_call o w settings targetColor source)
    as [(n & Hcalls & Hn & _) (m & Hcalls' & Hm & _)].
  rewrite Hcalls, Hcalls'. lia.
Qed.

(** Whatever the service does, a recolouring or a generation that
    resolves hands back a PNG data URL with a non-empty payload, and has
    cost between one and nine service calls. *)
Theorem resolved_image_is_png_data_url
    (o : Oracle) (w : World) (settings : AppSettings)
    (targetColor : ColorDefinition) (source : option string) (v : string) :
  (fst (recolorImageWithGemini o source settings targetColor w) = Resolved v ->
   String.prefix pngHeader v = true
   /\ (String.length pngHeader < String.length v)%nat)
  /\ (fst (generateImageWithGemini o w) = Resolved v ->
      String.prefix pngHeader v = true
      /\ (String.length pngHeader < String.length v)%nat)
  /\ (calls w + 1
      <= calls (snd (recolorImageWithGemini o source settings targetColor w))
      <= calls w + 9)%nat
  /\ (calls w + 1 <= calls (snd (generateImageWithGemini o w)) <= calls w + 9)%nat.
Proof.
  destruct (service_last_call o w settings targetColor source)
    as [(n & _ & _ & Hout) (m & _ & _ & Hout')].
  destruct (service_call_bounds o w settings targetColor source)
    as [Hbound Hbound'].
  split; [| split; [| split]].
  - rewrite Hout. intros Hv.
    destruct source as [u |]; [| discriminate].
    exact (recolorOnce_resolved settings (service o (calls w + n)) u Hv).
  - rewrite Hout'. intros Hv. unfold generateOnce in Hv.
    destruct (service o (calls w + m)) as [e | candidates]; [discriminate |].
    destruct candidates as [| parts others]; [discriminate |].
    cbn [extractImage] in Hv.
    destruct (firstInlineData_cases parts)
      as [[_ Hnone] | (before & data & rest & _ & _ & Hdata & Hfound)].
    + rewrite Hnone in Hv. discriminate.
    + rewrite Hfound in Hv.
      destruct (truthy (pngHeader ++ data)); [| discriminate].
      injection Hv as <-. split; [exact (prefix_append pngHeader data) |].
      destruct data as [| c data]; [contradiction |].
      unfold pngHeader. cbn. lia.
  - exact Hbound.
  - exact Hbound'.
Qed.

End ServiceFacts.

Lemma imageless_answer_witness :
  GeminiService.generateImageWithGemini Examples.imageless Examples.freshWorld
  = (Env.Rejected (Env.newError "No image data returned from Gemini 3 Pro."),
     Env.invoked Examples.freshWorld).
Proof.
  destruct (@imageless_answer_is_not_retried Examples.imageless
              Examples.freshWorld
              (App.settings (Examples.workspace []))
              Examples.red "data:image/png;base64,AAAA"%string
              [[None; Some EmptyString]]) as (_ & Hgen & _).
  - reflexivity.
  - reflexivity.
  - exact Hgen.
Defined.

(** ** What a batch does to the workspace as a whole *)

Section BatchFrame.

Import JsString Types Env GeminiService App.

Lemma Forall2_same (A : Type) (R : A -> A -> Prop) (l : list A) :
  (forall a, R a a) -> Forall2 R l l.
Proof. intros Hrefl. induction l; constructor; auto. Qed.

Lemma Forall2_chain (A : Type) (R : A -> A -> Prop) :
  (forall a b c, R a b -> R b c -> R a c) ->
  forall l1 l2 l3, Forall2 R l1 l2 -> Forall2 R l2 l3 -> Forall2 R l1 l3.
Proof.
  intros Htrans l1 l2 l3 H12. revert l3.
  induction H12 as [| a b l1 l2 Hab _ IH]; intros l3 H23;
    inversion H23; subst; constructor; eauto.
Qed.

Lemma Forall2_mapped (A : Type) (R : A -> A -> Prop) (f : A -> A) (l : list A) :
  (forall a, R a (f a)) -> Forall2 R l (map f l).
Proof. intros Hf. induction l; cbn; constructor; auto. Qed.

(** A relation between an image and its later self that both updates
    respect relates the image list before and after any part of the
    queue, position by position. *)
Lemma processTasks_relates o captured total
    (R : ProcessedImage -> ProcessedImage -> Prop) :
  (forall img, R img img) ->
  (forall a b c, R a b -> R b c -> R a c) ->
  (forall task processedBase64 img, R img (recordSuccess task processedBase64 img)) ->
  (forall task isApiKeyError isRateLimit img,
      R img (recordFailure task isApiKeyError isRateLimit img)) ->
  forall tasks r,
    Forall2 R (images (state r))
              (images (state (processTasks o captured total tasks r))).
Proof.
  intros Hrefl Htrans Hok Hko tasks.
  induction tasks as [| task tasks IH]; intros r.
  - apply Forall2_same. exact Hrefl.
  - change (processTasks o captured total (task :: tasks) r)
      with (processTasks o captured total tasks
              (processTask o captured total r task)).
    apply (Forall2_chain Htrans) with (l2 := images (state (processTask o captured total r task)));
      [| apply IH].
    destruct (processTask_cases o captured total r task)
      as [(b64 & w1 & _ & ->) | (err & w1 & _ & ->)];
      apply Forall2_mapped; auto.
Qed.

Lemma grownFrom_refl img : grownFrom img img.
Proof.
  unfold grownFrom. repeat split; auto using incl_refl.
Qed.

Lemma grownFrom_trans a b c : grownFrom a b -> grownFrom b c -> grownFrom a c.
Proof.
  unfold grownFrom.
  intros (Hid1 & Hurl1 & Hin1 & Hu1) (Hid2 & Hurl2 & Hin2 & Hu2).
  repeat split.
  - congruence.
  - congruence.
  - eapply incl_tran; eassumption.
  - apply Hu2, Hu1. assumption.
  - destruct (Hu1 H) as [Hb Hl1]. destruct (Hu2 Hb) as [_ Hl2]. lia.
Qed.

Lemma filter_otherHex_all taskColor rs :
  ~ In (hex taskColor) (hexes rs) -> filter (otherHex taskColor) rs = rs.
Proof.
  induction rs as [| r rs IH]; intros Hnot; [reflexivity |].
  change (hexes (r :: rs)) with
    ((match color r with Some c => [hex c] | None => [] end) ++ hexes rs) in Hnot.
  cbn [filter]. unfold otherHex at 1.
  destruct (color r) as [c |].
  - destruct (String.eqb_spec (hex c) (hex taskColor)) as [Heq | Hne].
    + exfalso. apply Hnot. left. exact Heq.
    + cbn [negb]. f_equal. apply IH. intros Hin. apply Hnot. right. exact Hin.
  - f_equal. apply IH. exact Hnot.
Qed.

(** Replacing by exact hex removes at most one entry of a duplicate-free
    list. *)
Lemma filter_otherHex_length taskColor rs :
  exactHexUnique rs ->
  (List.length rs <= S (List.length (filter (otherHex taskColor) rs)))%nat.
Proof.
  unfold exactHexUnique.
  induction rs as [| r rs IH]; intros Huniq; [cbn; lia |].
  change (hexes (r :: rs)) with
    ((match color r with Some c => [hex c] | None => [] end) ++ hexes rs) in Huniq.
  cbn [filter]. unfold otherHex at 1.
  destruct (color r) as [c |].
  - cbn [app] in Huniq. apply NoDup_cons_iff in Huniq. destruct Huniq as [Hnot Hrest].
    destruct (String.eqb_spec (hex c) (hex taskColor)) as [Heq | Hne]; cbn [negb].
    + rewrite filter_otherHex_all by (rewrite <- Heq; exact Hnot). cbn. lia.
    + specialize (IH Hrest). cbn [List.length]. lia.
  - specialize (IH Huniq). cbn [List.length]. lia.
Qed.

Lemma grownFrom_recordSuccess task processedBase64 img :
  grownFrom img (recordSuccess task processedBase64 img).
Proof.
  destruct (String.eqb_spec (id img) (Task.imageId task)) as [Hown | Hother].
  - pose proof (recordSuccess_unique task processedBase64 img) as Huniq.
    rewrite (recordSuccess_owner task processedBase64 img Hown) in *.
    unfold grownFrom. cbn [id originalUrl results] in *.
    split; [reflexivity |]. split; [reflexivity |]. split.
    + intros h Hin. rewrite hexes_app. apply in_or_app.
      destruct (String.eqb_spec h (hex (Task.color task))) as [-> | Hne].
      * right. left. reflexivity.
      * left. rewrite hexes_filter_otherHex. apply filter_In.
        split; [exact Hin |].
        destruct (String.eqb_spec h (hex (Task.color task)));
          [contradiction | reflexivity].
    + intros Hu. split; [apply Huniq; exact Hu |].
      rewrite length_app. cbn [List.length].
      pose proof (filter_otherHex_length (Task.color task) Hu). lia.
  - rewrite recordSuccess_other by exact Hother. apply grownFrom_refl.
Qed.

Lemma grownFrom_recordFailure task isApiKeyError isRateLimit img :
  grownFrom img (recordFailure task isApiKeyError isRateLimit img).
Proof.
  unfold grownFrom, recordFailure.
  destruct (String.eqb (id img) (Task.imageId task)
            && (List.length (results img) =? 0)%nat);
    cbn [id originalUrl results]; repeat split; auto using incl_refl.
Qed.

Lemma grownFrom_markProcessing img : grownFrom img (markProcessing img).
Proof.
  unfold grownFrom, markProcessing. cbn [id originalUrl results].
  repeat split; auto using incl_refl.
Qed.

(** The parts of the state no iteration writes. *)
Lemma processTask_untouched o captured total r task :
  mode (state (processTask o captured total r task)) = mode (state r)
  /\ generatedDesigns (state (processTask o captured total r task))
     = generatedDesigns (state r)
  /\ showExport (state (processTask o captured total r task))
     = showExport (state r)
  /\ settings (state (processTask o captured total r task))
     = settings (state r)
  /\ isSampling (state (processTask o captured total r task))
     = isSampling (state r)
  /\ (modelTier captured = flash ->
      hasApiKey (state (processTask o captured total r task))
      = hasApiKey (state r)).
Proof.
  unfold processTask.
  destruct (recolorImageWithGemini o (Task.originalUrl task) captured
              (Task.color task) (world r)) as [[processedBase64 | err] w1];
    cbn [state].
  - repeat split.
  - unfold onFailure.
    destruct (isRateLimitStr (toStr err));
      destruct (isApiKeyErrorStr (toStr err));
      destruct (modelTier captured); cbn; repeat split; discriminate.
Qed.

Lemma processTasks_untouched o captured total tasks :
  forall r,
    mode (state (processTasks o captured total tasks r)) = mode (state r)
    /\ generatedDesigns (state (processTasks o captured total tasks r))
       = generatedDesigns (state r)
    /\ showExport (state (processTasks o captured total tasks r))
       = showExport (state r)
    /\ settings (state (processTasks o captured total tasks r))
       = settings (state r)
    /\ isSampling (state (processTasks o captured total tasks r))
       = isSampling (state r)
    /\ (modelTier captured = flash ->
        hasApiKey (state (processTasks o captured total tasks r))
        = hasApiKey (state r)).
Proof.
  induction tasks as [| task tasks IH]; intros r; [repeat split |].
  change (processTasks o captured total (task :: tasks) r)
    with (processTasks o captured total tasks
            (processTask o captured total r task)).
  destruct (IH (processTask o captured total r task))
    as (H1 & H2 & H3 & H4 & H5 & H6).
  destruct (processTask_untouched o captured total r task)
    as (G1 & G2 & G3 & G4 & G5 & G6).
  repeat split; try congruence.
  intros Hflash. rewrite (H6 Hflash). apply G6. exact Hflash.
Qed.

Lemma batch_grownFrom (o : Oracle) (s : AppState) (w : World) :
  Forall2 grownFrom (images s) (images (fst (handleRecolorBatch o s w))).
Proof.
  unfold handleRecolorBatch.
  destruct ((List.length (images s) =? 0)%nat
            || (List.length (targetColors (settings s)) =? 0)%nat).
  { cbn [fst]. apply Forall2_same, grownFrom_refl. }
  destruct (tier_eqb (modelTier (settings s)) pro && notKey (hasApiKey s)).
  { cbn [fst]. apply Forall2_same, grownFrom_refl. }
  cbn [fst].
  set (tasks := buildTasks (images s) (targetColors (settings s))).
  set (total := Z.of_nat (List.length tasks)).
  set (start := mkRun (startRun s) w 0).
  apply (Forall2_chain grownFrom_trans) with (l2 := images (startRun s)).
  - unfold startRun. cbn [images setImages].
    apply Forall2_mapped. apply grownFrom_markProcessing.
  - apply (processTasks_relates o (settings s) total grownFrom
             grownFrom_refl grownFrom_trans
             grownFrom_recordSuccess grownFrom_recordFailure tasks start).
Qed.

(** A batch, whether it runs or declines and whatever the service does,
    never adds, removes or reorders images and never changes an image's
    identifier or source picture; every hex string an image had it still
    has, and a duplicate-free result list does not get shorter.  The mode,
    the generated designs, the export flag and the settings are left
    alone, and on the flash tier so is the API-key flag. *)
Theorem batch_only_grows_results (o : Oracle) (s : AppState) (w : World) :
  Forall2 grownFrom (images s) (images (fst (handleRecolorBatch o s w)))
  /\ mode (fst (handleRecolorBatch o s w)) = mode s
  /\ generatedDesigns (fst (handleRecolorBatch o s w)) = generatedDesigns s
  /\ showExport (fst (handleRecolorBatch o s w)) = showExport s
  /\ settings (fst (handleRecolorBatch o s w)) = settings s
  /\ (modelTier (settings s) = flash ->
      hasApiKey (fst (handleRecolorBatch o s w)) = hasApiKey s).
Proof.
  split; [apply batch_grownFrom |].
  unfold handleRecolorBatch.
  destruct ((List.length (images s) =? 0)%nat
            || (List.length (targetColors (settings s)) =? 0)%nat).
  { cbn [fst]. repeat split. }
  destruct (tier_eqb (modelTier (settings s)) pro && notKey (hasApiKey s))
    eqn:Hgate.
  { cbn [fst]. repeat split.
    intros Hflash. rewrite Hflash in Hgate. discriminate. }
  cbn [fst].
  set (tasks := buildTasks (images s) (targetColors (settings s))).
  set (total := Z.of_nat (List.length tasks)).
  set (start := mkRun (startRun s) w 0).
  destruct (processTasks_untouched o (settings s) total tasks start)
    as (H1 & H2 & H3 & H4 & _ & H6).
  repeat split; try assumption.
Qed.

End BatchFrame.

(** ** How a batch leaves the images *)

Section BatchOutcome.

Import JsString Types Env GeminiService App.

Lemma failureMessage_known isApiKeyError isRateLimit :
  isFailureMessage (Some (failureMessage isApiKeyError isRateLimit)).
Proof.
  unfold isFailureMessage, failureMessage.
  destruct isApiKeyError; [left; reflexivity |].
  destruct isRateLimit; [right; left | right; right]; reflexivity.
Qed.

Lemma recordSuccess_cases task processedBase64 img :
  (status (recordSuccess task processedBase64 img) = completed
   /\ results (recordSuccess task processedBase64 img) <> []
   /\ id img = Task.imageId task)
  \/ recordSuccess task processedBase64 img = img /\ id img <> Task.imageId task.
Proof.
  destruct (String.eqb_spec (id img) (Task.imageId task)) as [Hown | Hother].
  - left. rewrite (recordSuccess_owner task processedBase64 img Hown).
    cbn [status results]. repeat split; [| exact Hown].
    intros Hnil. apply app_eq_nil in Hnil. destruct Hnil; discriminate.
  - right. split; [apply recordSuccess_other; exact Hother | exact Hother].
Qed.

Lemma recordFailure_cases task isApiKeyError isRateLimit img :
  (recordFailure task isApiKeyError isRateLimit img
   = mkImage (id img) (originalUrl img) [] error
             (Some (failureMessage isApiKeyError isRateLimit))
             (activeResultIndex img)
   /\ id img = Task.imageId task /\ results img = [])
  \/ (recordFailure task isApiKeyError isRateLimit img = img
      /\ (id img <> Task.imageId task \/ results img <> [])).
Proof.
  destruct (String.eqb_spec (id img) (Task.imageId task)) as [Hown | Hother].
  - destruct (results img) as [| r rs] eqn:Hres.
    + left. split; [apply recordFailure_empty; assumption | auto].
    + right. split; [| right; discriminate].
      apply recordFailure_silent. rewrite Hres. discriminate.
  - right. split; [| left; exact Hother].
    unfold recordFailure.
    destruct (String.eqb_spec (id img) (Task.imageId task)); [contradiction |].
    reflexivity.
Qed.

Lemma Forall_mapped (P : ProcessedImage -> Prop) (f : ProcessedImage -> ProcessedImage)
    (imgs : list ProcessedImage) :
  (forall img, P img -> P (f img)) -> Forall P imgs -> Forall P (map f imgs).
Proof.
  intros Hf Hall. apply Forall_map. eapply Forall_impl; [| exact Hall]. exact Hf.
Qed.

Lemma consistent_recordSuccess task processedBase64 img :
  consistent img -> consistent (recordSuccess task processedBase64 img).
Proof.
  intros Hc.
  destruct (recordSuccess_cases task processedBase64 img)
    as [(Hst & Hres & _) | [-> _]]; [| exact Hc].
  unfold consistent. rewrite Hst.
  split; [intros _; exact Hres | split; discriminate].
Qed.

Lemma consistent_recordFailure task isApiKeyError isRateLimit img :
  consistent img -> consistent (recordFailure task isApiKeyError isRateLimit img).
Proof.
  intros Hc.
  destruct (recordFailure_cases task isApiKeyError isRateLimit img)
    as [(-> & _ & _) | [-> _]]; [| exact Hc].
  unfold consistent. cbn [status results errorMsg].
  split; [discriminate |]. split; [| discriminate].
  intros _. split; [reflexivity | apply failureMessage_known].
Qed.

Lemma meanCompleted_recordSuccess task processedBase64 img :
  resultsMeanCompleted img ->
  resultsMeanCompleted (recordSuccess task processedBase64 img).
Proof.
  intros Hc.
  destruct (recordSuccess_cases task processedBase64 img)
    as [(Hst & _ & _) | [-> _]]; [| exact Hc].
  intros _. exact Hst.
Qed.

Lemma meanCompleted_recordFailure task isApiKeyError isRateLimit img :
  resultsMeanCompleted img ->
  resultsMeanCompleted (recordFailure task isApiKeyError isRateLimit img).
Proof.
  intros Hc.
  destruct (recordFailure_cases task isApiKeyError isRateLimit img)
    as [(-> & _ & _) | [-> _]]; [| exact Hc].
  intros Hres. cbn in Hres. contradiction.
Qed.

Lemma emptyMeansError_recordSuccess i task processedBase64 img :
  emptyMeansError i img -> emptyMeansError i (recordSuccess task processedBase64 img).
Proof.
  intros Hc.
  destruct (recordSuccess_cases task processedBase64 img)
    as [(_ & Hres & _) | [-> _]]; [| exact Hc].
  intros _ Hnil. contradiction.
Qed.

Lemma emptyMeansError_recordFailure i task isApiKeyError isRateLimit img :
  emptyMeansError i img ->
  emptyMeansError i (recordFailure task isApiKeyError isRateLimit img).
Proof.
  intros Hc.
  destruct (recordFailure_cases task isApiKeyError isRateLimit img)
    as [(-> & _ & _) | [-> _]]; [| exact Hc].
  intros _ _. reflexivity.
Qed.

(** Whatever a work item of image [i] settles to, afterwards no image [i]
    is left without result and without the error status. *)
Lemma processTask_settles o captured total r task :
  Forall (emptyMeansError (Task.imageId task))
         (images (state (processTask o captured total r task))).
Proof.
  destruct (processTask_cases o captured total r task)
    as [(b64 & w1 & _ & ->) | (err & w1 & _ & ->)];
    apply Forall_map, Forall_forall; intros img _.
  - destruct (recordSuccess_cases task b64 img)
      as [(_ & Hres & _) | [-> Hother]].
    + intros _ Hnil. contradiction.
    + intros Hid. contradiction.
  - destruct (recordFailure_cases task (isApiKeyErrorStr (toStr err))
                (isRateLimitStr (toStr err)) img)
      as [(-> & _ & _) | [-> [Hother | Hres]]].
    + intros _ _. reflexivity.
    + intros Hid. contradiction.
    + intros _ Hnil. contradiction.
Qed.

Lemma processTasks_settles o captured total tasks :
  forall r task,
    In task tasks ->
    Forall (emptyMeansError (Task.imageId task))
           (images (state (processTasks o captured total tasks r))).
Proof.
  induction tasks as [| t tasks IH]; intros r task Hin; [contradiction |].
  change (processTasks o captured total (t :: tasks) r)
    with (processTasks o captured total tasks
            (processTask o captured total r t)).
  destruct Hin as [-> | Hin].
  - apply (processTasks_keeps o captured total
             (Forall (emptyMeansError (Task.imageId task)))).
    + intros task' b64 imgs. apply Forall_mapped.
      intros img. apply emptyMeansError_recordSuccess.
    + intros task' ak rl imgs. apply Forall_mapped.
      intros img. apply emptyMeansError_recordFailure.
    + apply processTask_settles.
  - apply IH. exact Hin.
Qed.

(** Every image of a workspace with a colour selected has a work item in
    the queue. *)
Lemma every_image_is_queued imgs colors img c :
  In img imgs -> In c colors ->
  In (taskFor img c) (buildTasks imgs colors).
Proof.
  intros Himg Hc. rewrite buildTasks_product. unfold imageMajorProduct.
  apply in_flat_map. exists img. split; [exact Himg |].
  apply in_map. exact Hc.
Qed.

Lemma Forall2_ids (before after : list ProcessedImage) :
  Forall2 grownFrom before after ->
  forall img', In img' after -> exists img, In img before /\ id img' = id img.
Proof.
  induction 1 as [| a b la lb Hab _ IH]; intros img' Hin; [contradiction |].
  destruct Hin as [<- | Hin].
  - exists a. split; [left; reflexivity | apply Hab].
  - destruct (IH img' Hin) as (img & Him & Hid).
    exists img. split; [right; exact Him | exact Hid].
Qed.

(** After a batch that runs, whatever the service did, every image is in
    one of three conditions: completed with at least one result; in error,
    with no result and one of the three failure messages; or still marked
    processing while holding results of an earlier run (every item of this
    run failed for it).  No image is left pending, and no image is left
    processing without a result.  If the workspace held no result before
    the run, only the first two remain. *)
Theorem batch_settles_every_image (o : Oracle) (s : AppState) (w : World) :
  images s <> [] ->
  targetColors (settings s) <> [] ->
  tier_eqb (modelTier (settings s)) pro && notKey (hasApiKey s) = false ->
  Forall (fun img => succeeded img \/ failed img \/ keptEarlierResults img)
         (images (fst (handleRecolorBatch o s w)))
  /\ (Forall (fun img => results img = []) (images s) ->
      Forall (fun img => succeeded img \/ failed img)
             (images (fst (handleRecolorBatch o s w)))).
Proof.
  intros Himgs Hcolors Hgate.
  pose proof (batch_grownFrom o s w) as Hgrown.
  rewrite (handleRecolorBatch_runs o s w Himgs Hcolors Hgate) in *.
  cbn [fst] in *.
  set (tasks := buildTasks (images s) (targetColors (settings s))) in *.
  set (total := Z.of_nat (List.length tasks)) in *.
  set (start := mkRun (startRun s) w 0) in *.
  change (images (finishRun (state (processTasks o (settings s) total tasks start))))
    with (images (state (processTasks o (settings s) total tasks start))) in *.
  assert (Hcons : Forall consistent
                    (images (state (processTasks o (settings s) total tasks start)))).
  { apply (processTasks_keeps o (settings s) total (Forall consistent)).
    - intros task b64 imgs. apply Forall_mapped.
      intros img. apply consistent_recordSuccess.
    - intros task ak rl imgs. apply Forall_mapped.
      intros img. apply consistent_recordFailure.
    - unfold start, startRun. cbn [state images setImages].
      apply Forall_map, Forall_forall. intros img _.
      unfold consistent, markProcessing. cbn [status].
      repeat split; discriminate. }
  assert (Hsettled : forall img',
             In img' (images (state (processTasks o (settings s) total tasks start))) ->
             results img' = [] -> status img' = error).
  { intros img' Hin Hnil.
    destruct (Forall2_ids Hgrown img' Hin) as (img & Himg & Hid).
    destruct (targetColors (settings s)) as [| c cs] eqn:Ec; [contradiction |].
    assert (Hq : In (taskFor img c) tasks).
    { unfold tasks. apply every_image_is_queued; [exact Himg | left; reflexivity]. }
    pose proof (processTasks_settles o (settings s) total tasks start _ Hq) as Hall.
    rewrite Forall_forall in Hall. apply (Hall img' Hin); [exact Hid | exact Hnil]. }
  split.
  - apply Forall_forall. intros img' Hin.
    rewrite Forall_forall in Hcons.
    destruct (Hcons img' Hin) as (Hdone & Herr & Hpend).
    destruct (status img') eqn:Hst.
    + contradiction.
    + right. right. split; [exact Hst |].
      intros Hnil. specialize (Hsettled img' Hin Hnil). congruence.
    + left. split; [exact Hst | exact (Hdone eq_refl)].
    + right. left. destruct (Herr eq_refl) as [Hnil Hmsg].
      split; [exact Hst | split; assumption].
  - intros Hfresh. apply Forall_forall. intros img' Hin.
    assert (Hmc : Forall resultsMeanCompleted
                    (images (state (processTasks o (settings s) total tasks start)))).
    { apply (processTasks_keeps o (settings s) total (Forall resultsMeanCompleted)).
      - intros task b64 imgs. apply Forall_mapped.
        intros img. apply meanCompleted_recordSuccess.
      - intros task ak rl imgs. apply Forall_mapped.
        intros img. apply meanCompleted_recordFailure.
      - unfold start, startRun. cbn [state images setImages].
        apply Forall_map. eapply Forall_impl; [| exact Hfresh].
        intros img Hnil Hres. cbn in Hres. contradiction. }
    rewrite Forall_forall in Hcons, Hmc.
    destruct (Hcons img' Hin) as (Hdone & Herr & Hpend).
    destruct (results img') as [| r rs] eqn:Hres.
    + right. assert (Hst : status img' = error)
        by (apply Hsettled; assumption).
      destruct (Herr Hst) as [Hnil Hmsg].
      split; [exact Hst | split; [exact Hres | exact Hmsg]].
    + assert (Hne : results img' <> []) by (rewrite Hres; discriminate).
      left. split; [exact (Hmc img' Hin Hne) | exact Hne].
Qed.

End BatchOutcome.

Lemma batch_settles_witness :
  Forall (fun img => App.succeeded img \/ App.failed img)
         (App.images (fst (App.handleRecolorBatch Examples.onceThenExhausted
                             (Examples.workspace [Examples.red; Examples.blue])
                             Examples.freshWorld))).
Proof.
  apply (batch_settles_every_image Examples.onceThenExhausted
           (Examples.workspace [Examples.red; Examples.blue])
           Examples.freshWorld).
  - discriminate.
  - discriminate.
  - reflexivity.
  - repeat constructor.
Defined.

(** ** Calls to the service, cards, removal, generation *)

Section WorkspaceHandlers.

Import JsString Types Env GeminiService App.

Lemma processTask_calls_upper o captured total r task :
  (calls (world (processTask o captured total r task))
   <= calls (world r) + 9)%nat.
Proof.
  pose proof (service_call_bounds o (world r) captured
                (Task.color task) (Task.originalUrl task))
    as (Hbound & _).
  unfold processTask.
  destruct (recolorImageWithGemini o (Task.originalUrl task) captured
              (Task.color task) (world r)) as [[processedBase64 | err] w1];
    cbn in *; lia.
Qed.

Lemma processTasks_calls_upper o captured total tasks :
  forall r,
    (calls (world (processTasks o captured total tasks r))
     <= calls (world r) + 9 * List.length tasks)%nat.
Proof.
  induction tasks as [| task tasks IH]; intros r; [cbn; lia |].
  change (processTasks o captured total (task :: tasks) r)
    with (processTasks o captured total tasks
            (processTask o captured total r task)).
  pose proof (IH (processTask o captured total r task)).
  pose proof (processTask_calls_upper o captured total r task).
  cbn [List.length]. lia.
Qed.

(** A batch over [I] images and [C] colours costs at most [9 * I * C]
    calls to the service, whatever the service answers; a batch that runs
    costs at least [I * C]; a batch that declines costs none. *)
Theorem batch_service_calls_are_bounded (o : Oracle) (s : AppState) (w : World) :
  let cost := (calls (snd (handleRecolorBatch o s w)) - calls w)%nat in
  let items := (List.length (images s)
                * List.length (targetColors (settings s)))%nat in
  (calls w <= calls (snd (handleRecolorBatch o s w)))%nat
  /\ (cost <= 9 * items)%nat
  /\ (images s <> [] -> targetColors (settings s) <> [] ->
      tier_eqb (modelTier (settings s)) pro && notKey (hasApiKey s) = false ->
      (items <= cost)%nat)
  /\ (tier_eqb (modelTier (settings s)) pro && notKey (hasApiKey s) = true ->
      cost = 0%nat).
Proof.
  intros cost items. unfold cost, items. clear cost items.
  unfold handleRecolorBatch.
  destruct (images s) as [| img imgs] eqn:Ei.
  { cbn. repeat split; intros; try contradiction; lia. }
  destruct (targetColors (settings s)) as [| c cs] eqn:Ec.
  { cbn [List.length Nat.eqb orb snd].
    repeat split; intros; try contradiction; lia. }
  cbn [List.length Nat.eqb orb].
  destruct (tier_eqb (modelTier (settings s)) pro && notKey (hasApiKey s)).
  { cbn [snd]. repeat split; intros; try discriminate; lia. }
  cbn [snd].
  set (tasks := buildTasks (img :: imgs) (c :: cs)).
  set (start := mkRun (startRun s) w 0).
  generalize (Z.of_nat (List.length tasks)). intros total.
  pose proof (processTasks_calls o (settings s) total tasks start) as Hlow.
  pose proof (processTasks_calls_upper o (settings s) total tasks start) as Hup.
  assert (Hlen : List.length tasks = (S (List.length imgs) * S (List.length cs))%nat).
  { unfold tasks. rewrite buildTasks_product, product_length. reflexivity. }
  rewrite Hlen in Hlow, Hup. cbn [world start] in Hlow, Hup.
  repeat split; intros; try discriminate; lia.
Qed.

Lemma shownResult_recordFailure task isApiKeyError isRateLimit img :
  renderable img -> renderable (recordFailure task isApiKeyError isRateLimit img).
Proof.
  intros Hr.
  destruct (recordFailure_cases task isApiKeyError isRateLimit img)
    as [(-> & _ & _) | [-> _]]; [left; reflexivity | exact Hr].
Qed.

Lemma shownResult_recordSuccess task processedBase64 img :
  id img = Task.imageId task ->
  shownResult (recordSuccess task processedBase64 img)
  = Some (mkResult (Some (Task.color task)) processedBase64 None None).
Proof.
  intros Hown. rewrite (recordSuccess_owner task processedBase64 img Hown).
  unfold shownResult. cbn [results activeResultIndex].
  rewrite nth_error_app2 by lia. rewrite Nat.sub_diag. reflexivity.
Qed.

Lemma renderable_recordSuccess task processedBase64 img :
  renderable img -> renderable (recordSuccess task processedBase64 img).
Proof.
  intros Hr.
  destruct (String.eqb_spec (id img) (Task.imageId task)) as [Hown | Hother].
  - right. eexists. apply shownResult_recordSuccess. exact Hown.
  - rewrite recordSuccess_other by exact Hother. exact Hr.
Qed.

(** The cards of the workspace stay drawable: loading a file, removing an
    image, selecting a variant that exists, and a whole batch each keep
    "no result, or the shown entry exists" for every image; after a
    success the owning image shows the variant just written.  Selecting a
    position past the end is not checked, and leaves an image that has
    results without an entry to show. *)
Theorem cards_stay_drawable (o : Oracle) (s : AppState) (w : World) :
  Forall renderable (images s) ->
  Forall renderable (images (fst (handleRecolorBatch o s w)))
  /\ (forall newId dataUrl,
        Forall renderable (images (fileLoaded newId dataUrl s)))
  /\ (forall target isGen,
        Forall renderable (images (removeImage target isGen s)))
  /\ (forall imageId index,
        (forall img, In img (images s) -> id img = imageId ->
                     (index < List.length (results img))%nat) ->
        Forall renderable (images (setActiveResult imageId index s)))
  /\ (forall task processedBase64 img,
        id img = Task.imageId task ->
        shownResult (recordSuccess task processedBase64 img)
        = Some (mkResult (Some (Task.color task)) processedBase64 None None))
  /\ (forall imageId index img,
        In img (images s) -> id img = imageId ->
        results img <> [] ->
        (List.length (results img) <= index)%nat ->
        exists img', In img' (images (setActiveResult imageId index s))
                     /\ id img' = imageId /\ ~ renderable img').
Proof.
  intros Hall.
  split; [| split; [| split; [| split; [| split]]]].
  - unfold handleRecolorBatch.
    destruct ((List.length (images s) =? 0)%nat
              || (List.length (targetColors (settings s)) =? 0)%nat);
      [exact Hall |].
    destruct (tier_eqb (modelTier (settings s)) pro && notKey (hasApiKey s));
      [exact Hall |].
    cbn [fst].
    apply (processTasks_keeps o (settings s) _ (Forall renderable)).
    + intros task b64 imgs. apply Forall_mapped.
      intros img. apply renderable_recordSuccess.
    + intros task ak rl imgs. apply Forall_mapped.
      intros img. apply shownResult_recordFailure.
    + unfold startRun. cbn [state images setImages].
      apply Forall_mapped; [| exact Hall].
      intros img Hr. exact Hr.
  - intros newId dataUrl. unfold fileLoaded.
    destruct dataUrl as [u |]; [| exact Hall].
    destruct (truthy u); [| exact Hall].
    cbn [images setImages]. apply Forall_app. split; [exact Hall |].
    constructor; [left; reflexivity | constructor].
  - intros target isGen. unfold removeImage.
    destruct isGen; cbn [images setImages setGeneratedDesigns]; [exact Hall |].
    apply Forall_forall. intros img Hin. apply filter_In in Hin.
    rewrite Forall_forall in Hall. apply Hall. apply Hin.
  - intros imageId index Hrange. unfold setActiveResult.
    cbn [images setImages]. apply Forall_map, Forall_forall. intros img Hin.
    destruct (String.eqb_spec (id img) imageId) as [Hid | Hid].
    + right. unfold shownResult. cbn [results activeResultIndex].
      specialize (Hrange img Hin Hid).
      destruct (nth_error (results img) index) as [r |] eqn:Hnth;
        [eexists; reflexivity |].
      apply nth_error_None in Hnth. lia.
    + rewrite Forall_forall in Hall. apply Hall. exact Hin.
  - intros task processedBase64 img. apply shownResult_recordSuccess.
  - intros imageId index img Hin Hid Hres Hlen.
    exists (mkImage (id img) (originalUrl img) (results img) (status img)
                    (errorMsg img) (Some index)).
    split; [| split; [exact Hid |]].
    + unfold setActiveResult. cbn [images setImages].
      apply in_map_iff. exists img. split; [| exact Hin].
      destruct (String.eqb_spec (id img) imageId); [reflexivity | contradiction].
    + intros [Hnil | (r & Hshown)]; [contradiction |].
      unfold shownResult in Hshown. cbn [results activeResultIndex] in Hshown.
      apply nth_error_None in Hlen. congruence.
Qed.

Lemma filter_twice (A : Type) (f : A -> bool) (l : list A) :
  filter f (filter f l) = filter f l.
Proof.
  induction l as [| a l IH]; [reflexivity |].
  cbn [filter]. destruct (f a) eqn:Hf; [| exact IH].
  cbn [filter]. rewrite Hf, IH. reflexivity.
Qed.

Lemma filter_swap (A : Type) (f g : A -> bool) (l : list A) :
  filter f (filter g l) = filter g (filter f l).
Proof.
  induction l as [| a l IH]; [reflexivity |].
  cbn [filter]. destruct (g a) eqn:Hg; destruct (f a) eqn:Hf;
    cbn [filter]; rewrite ?Hg, ?Hf, IH; reflexivity.
Qed.

(** Removing an image takes out every image with that identifier and
    nothing else, leaves the generated designs alone (and conversely),
    can be repeated or reordered without effect, and a removed image is
    never put in the queue of a later batch. *)
Theorem removed_image_is_gone (target : string) (s : AppState) :
  (forall img,
      In img (images (removeImage target false s))
      <-> In img (images s) /\ id img <> target)
  /\ generatedDesigns (removeImage target false s) = generatedDesigns s
  /\ images (removeImage target true s) = images s
  /\ removeImage target false (removeImage target false s)
     = removeImage target false s
  /\ (forall other,
        removeImage target false (removeImage other false s)
        = removeImage other false (removeImage target false s))
  /\ (forall task,
        In task (buildTasks (images (removeImage target false s))
                            (targetColors (settings (removeImage target false s)))) ->
        Task.imageId task <> target).
Proof.
  assert (Hin : forall img,
             In img (images (removeImage target false s))
             <-> In img (images s) /\ id img <> target).
  { intros img. unfold removeImage. cbn [images setImages].
    rewrite filter_In.
    destruct (String.eqb_spec (id img) target); cbn; intuition congruence. }
  split; [exact Hin |].
  split; [reflexivity |]. split; [reflexivity |].
  split; [| split].
  - unfold removeImage, setImages. cbn [images mode generatedDesigns isProcessing
      isSampling processingProgress showExport rateLimitActive hasApiKey settings].
    f_equal. apply filter_twice.
  - intros other.
    unfold removeImage, setImages. cbn [images mode generatedDesigns isProcessing
      isSampling processingProgress showExport rateLimitActive hasApiKey settings].
    f_equal. apply filter_swap.
  - intros task Htask. rewrite buildTasks_product in Htask.
    unfold imageMajorProduct in Htask. apply in_flat_map in Htask.
    destruct Htask as (img & Himg & Htask).
    apply in_map_iff in Htask. destruct Htask as (c & <- & _).
    cbn [Task.imageId taskFor]. apply Hin in Himg. apply Himg.
Qed.

(** The generation handler.  Without a prompt it does nothing; without a
    selected key it only clears the key flag; either way the service is not
    called.  Otherwise it calls the service between one and nine times and
    ends with the processing flag down, the images and the settings as
    they were, and exactly one new design in front of the earlier ones,
    which (its identifier being fresh) are unchanged: completed, showing
    its single result that records the prompt and the size, when the
    service answered; in error with the fixed message and no result when
    it did not. *)
Theorem generation_adds_one_design
    (o : Oracle) (newGenId : string) (gen : GenerationSettings.t)
    (s : AppState) (w : World) :
  let after := handleGenerateImage o newGenId gen s w in
  (GenerationSettings.prompt gen = EmptyString -> after = (s, w))
  /\ (GenerationSettings.prompt gen <> EmptyString -> hasApiKey s <> Some true ->
      after = (setHasApiKey (Some false) s, w))
  /\ (GenerationSettings.prompt gen <> EmptyString -> hasApiKey s = Some true ->
      Forall (fun d => id d <> newGenId) (generatedDesigns s) ->
      images (fst after) = images s
      /\ settings (fst after) = settings s
      /\ isProcessing (fst after) = false
      /\ (calls w + 1 <= calls (snd after) <= calls w + 9)%nat
      /\ exists design,
           generatedDesigns (fst after) = design :: generatedDesigns s
           /\ id design = newGenId
           /\ ((exists generatedUrl,
                   fst (generateImageWithGemini o w) = Resolved generatedUrl
                   /\ status design = completed
                   /\ results design
                      = [mkResult None generatedUrl
                                  (Some (GenerationSettings.prompt gen))
                                  (Some (GenerationSettings.imageSize gen))]
                   /\ shownResult design
                      = Some (mkResult None generatedUrl
                                       (Some (GenerationSettings.prompt gen))
                                       (Some (GenerationSettings.imageSize gen))))
               \/ (exists err,
                      fst (generateImageWithGemini o w) = Rejected err
                      /\ status design = error
                      /\ results design = []
                      /\ errorMsg design = Some generationFailedMessage))).
Proof.
  intros after. unfold after, handleGenerateImage. clear after.
  split; [| split].
  - intros ->. reflexivity.
  - intros Hprompt Hkey. apply truthy_nonempty in Hprompt. rewrite Hprompt.
    cbn [negb]. destruct (hasApiKey s) as [[|] |]; try reflexivity.
    contradiction.
  - intros Hprompt Hkey Hfresh. apply truthy_nonempty in Hprompt.
    rewrite Hprompt, Hkey. cbn [negb notKey].
    pose proof (service_call_bounds o w (settings s) Examples.red None)
      as (_ & Hcalls).
    assert (Hold : forall f,
               (forall d, id d <> newGenId -> f d = d) ->
               map f (generatedDesigns s) = generatedDesigns s).
    { intros f Hf. induction Hfresh as [| d ds Hd _ IH]; [reflexivity |].
      cbn [map]. rewrite (Hf d Hd), IH. reflexivity. }
    destruct (generateImageWithGemini o w) as [[generatedUrl | err] w1] eqn:Hgen;
      cbn [fst snd] in *.
    + repeat split; try lia.
      eexists. cbn [generatedDesigns setGeneratedDesigns setIsProcessing map].
      unfold recordGenerated at 1. cbn [id]. rewrite String.eqb_refl.
      rewrite Hold.
      * split; [reflexivity |]. split; [reflexivity |].
        left. exists generatedUrl. repeat split.
      * intros d Hd. unfold recordGenerated.
        destruct (String.eqb_spec (id d) newGenId); [contradiction | reflexivity].
    + assert (Himgs : forall b : bool,
                 images (if b then setHasApiKey (Some false)
                                     (setGeneratedDesigns
                                        (fun prev => mkImage newGenId None [] processing None None :: prev)
                                        (setIsSampling false (setIsProcessing true s)))
                         else setGeneratedDesigns
                                (fun prev => mkImage newGenId None [] processing None None :: prev)
                                (setIsSampling false (setIsProcessing true s)))
                 = images s) by (intros [|]; reflexivity).
      destruct (isApiKeyErrorStr (toStr err));
        (repeat split; try lia;
         eexists; cbn [generatedDesigns setGeneratedDesigns setIsProcessing
                         setHasApiKey map];
         unfold recordGenerationFailure at 1; cbn [id]; rewrite String.eqb_refl;
         rewrite Hold;
         [ split; [reflexivity |]; split; [reflexivity |];
           right; exists err; repeat split
         | intros d Hd; unfold recordGenerationFailure;
           destruct (String.eqb_spec (id d) newGenId);
           [contradiction | reflexivity] ]).
Qed.

End WorkspaceHandlers.

Lemma generation_witness :
  App.isProcessing
    (fst (App.handleGenerateImage Examples.obliging "gen-1" Examples.sketch
            Examples.keyedWorkspace Examples.freshWorld)) = false.
Proof.
  destruct (generation_adds_one_design Examples.obliging "gen-1"
              Examples.sketch Examples.keyedWorkspace Examples.freshWorld)
    as (_ & _ & Hrun).
  destruct Hrun as (_ & _ & Hdone & _).
  - discriminate.
  - reflexivity.
  - constructor.
  - exact Hdone.
Defined.

Lemma cards_witness :
  Forall App.renderable
    (App.images (fst (App.handleRecolorBatch Examples.onceThenExhausted
                        (Examples.workspace [Examples.red; Examples.blue])
                        Examples.freshWorld))).
Proof.
  apply (cards_stay_drawable Examples.onceThenExhausted
           (Examples.workspace [Examples.red; Examples.blue])
           Examples.freshWorld).
  constructor; [left; reflexivity | constructor].
Defined.

(** ** The colour selection *)

Section Selection.

Import JsString Types Env App Controls.

Lemma holds_spec h colors :
  holds h colors = true
  <-> In (toLowerCase h) (map (fun c => toLowerCase (hex c)) colors).
Proof.
  unfold holds. rewrite existsb_exists, in_map_iff. split.
  - intros (c & Hin & Hsame). unfold sameHexIgnoringCase in Hsame.
    apply String.eqb_eq in Hsame. exists c. split; assumption.
  - intros (c & Heq & Hin). exists c. split; [exact Hin |].
    unfold sameHexIgnoringCase. apply String.eqb_eq. exact Heq.
Qed.

Lemma distinct_snoc colors c :
  distinctIgnoringCase colors ->
  holds (hex c) colors = false ->
  distinctIgnoringCase (colors ++ [c]).
Proof.
  unfold distinctIgnoringCase. intros Hd Hnot. rewrite map_app. cbn [map].
  apply NoDup_app.
  - exact Hd.
  - constructor; [intros [] | constructor].
  - intros h Hin [<- | []].
    apply holds_spec in Hin. congruence.
Qed.

Lemma distinct_filter (f : ColorDefinition -> bool) colors :
  distinctIgnoringCase colors -> distinctIgnoringCase (filter f colors).
Proof.
  unfold distinctIgnoringCase.
  induction colors as [| c colors IH]; intros Hd; [constructor |].
  cbn [map] in Hd. apply NoDup_cons_iff in Hd. destruct Hd as [Hnot Hrest].
  cbn [filter]. destruct (f c); [| apply IH; exact Hrest].
  cbn [map]. constructor; [| apply IH; exact Hrest].
  intros Hin. apply Hnot. apply in_map_iff in Hin.
  destruct Hin as (c' & Heq & Hin). apply filter_In in Hin.
  apply in_map_iff. exists c'. split; [exact Heq | apply Hin].
Qed.

Lemma distinct_category categoryColors :
  forall colors,
    distinctIgnoringCase colors ->
    distinctIgnoringCase
      (fold_left
         (fun newColors color =>
            if existsb (fun c => sameHexIgnoringCase (hex c) (hex color)) newColors
            then newColors
            else newColors ++ [color])
         categoryColors colors).
Proof.
  induction categoryColors as [| c cs IH]; intros colors Hd; [exact Hd |].
  cbn [fold_left]. apply IH.
  destruct (existsb (fun c0 => sameHexIgnoringCase (hex c0) (hex c)) colors)
    eqn:Hh; [exact Hd |].
  apply distinct_snoc; assumption.
Qed.

(** Every way the application has of changing the selection keeps it free
    of colours that differ only by letter case: toggling a swatch, taking
    a whole category, adding a custom colour, adding a sampled colour,
    clearing. *)
Theorem selection_stays_distinct (s : AppState) :
  distinctIgnoringCase (targetColors (settings s)) ->
  (forall color,
      distinctIgnoringCase (targetColors (settings (toggleColor color s))))
  /\ (forall categoryColors,
        distinctIgnoringCase
          (targetColors (settings (selectCurrentCategory categoryColors s))))
  /\ (forall customHex customName,
        distinctIgnoringCase
          (targetColors (settings (addCustomColor customHex customName s))))
  /\ (forall pickedHex,
        distinctIgnoringCase
          (targetColors (settings (handleSampleColor pickedHex s))))
  /\ distinctIgnoringCase (targetColors (settings (clearColors s))).
Proof.
  intros Hd. split; [| split; [| split; [| split]]].
  - intros color. unfold toggleColor.
    fold (holds (hex color) (targetColors (settings s))).
    destruct (holds (hex color) (targetColors (settings s))) eqn:Hh;
      cbn [settings setSettings targetColors withTargetColors].
    + apply distinct_filter. exact Hd.
    + apply distinct_snoc; assumption.
  - intros categoryColors. unfold selectCurrentCategory.
    cbn [settings setSettings targetColors withTargetColors].
    apply distinct_category. exact Hd.
  - intros customHex customName. unfold addCustomColor.
    fold (holds customHex (targetColors (settings s))).
    destruct (holds customHex (targetColors (settings s))) eqn:Hh; [exact Hd |].
    cbn [settings setSettings targetColors withTargetColors].
    apply distinct_snoc; assumption.
  - intros pickedHex. unfold handleSampleColor.
    fold (holds pickedHex (targetColors (settings s))).
    destruct (holds pickedHex (targetColors (settings s))) eqn:Hh; [exact Hd |].
    cbn [settings setSettings targetColors withTargetColors].
    apply distinct_snoc; assumption.
  - constructor.
Qed.

Lemma filter_unheld h colors :
  holds h colors = false ->
  filter (fun c => negb (sameHexIgnoringCase (hex c) h)) colors = colors.
Proof.
  unfold holds. induction colors as [| c colors IH]; intros Hnot; [reflexivity |].
  cbn [existsb] in Hnot. apply orb_false_iff in Hnot. destruct Hnot as [Hc Hrest].
  cbn [filter]. rewrite Hc. cbn [negb]. f_equal. apply IH. exact Hrest.
Qed.

Lemma sameHex_refl h : sameHexIgnoringCase h h = true.
Proof. unfold sameHexIgnoringCase. apply String.eqb_refl. Qed.

Lemma setSettings_same s :
  setSettings (withTargetColors (targetColors (settings s))) s = s.
Proof. destruct s as [m i g p sa pp se r k st]. destruct st. reflexivity. Qed.

Lemma toggle_held color s :
  holds (hex color) (targetColors (settings s)) = true ->
  toggleColor color s
  = setSettings
      (withTargetColors
         (filter (fun c => negb (sameHexIgnoringCase (hex c) (hex color)))
                 (targetColors (settings s)))) s.
Proof.
  intros Hh. unfold toggleColor.
  fold (holds (hex color) (targetColors (settings s))). rewrite Hh. reflexivity.
Qed.

Lemma toggle_unheld color s :
  holds (hex color) (targetColors (settings s)) = false ->
  toggleColor color s
  = setSettings (withTargetColors (targetColors (settings s) ++ [color])) s.
Proof.
  intros Hh. unfold toggleColor.
  fold (holds (hex color) (targetColors (settings s))). rewrite Hh. reflexivity.
Qed.

(** Toggling a swatch.  If some spelling of the colour is selected, every
    spelling of it is taken out and the other colours stay, in order.  If
    none is, the colour goes to the end of the selection.  Toggling twice a
    colour that was not selected gives back the selection exactly. *)
Theorem toggleColor_takes_out_or_appends (color : ColorDefinition) (s : AppState) :
  (holds (hex color) (targetColors (settings s)) = true ->
   holds (hex color) (targetColors (settings (toggleColor color s))) = false
   /\ targetColors (settings (toggleColor color s))
      = filter (fun c => negb (sameHexIgnoringCase (hex c) (hex color)))
               (targetColors (settings s)))
  /\ (holds (hex color) (targetColors (settings s)) = false ->
      targetColors (settings (toggleColor color s))
      = targetColors (settings s) ++ [color]
      /\ toggleColor color (toggleColor color s) = s).
Proof.
  split; intros Hh.
  - rewrite (toggle_held color s Hh).
    cbn [settings setSettings targetColors withTargetColors].
    split; [| reflexivity].
    unfold holds. apply not_true_is_false. intros Hex.
    apply existsb_exists in Hex. destruct Hex as (c & Hin & Hsame).
    apply filter_In in Hin. destruct Hin as [_ Hkeep].
    rewrite Hsame in Hkeep. discriminate.
  - rewrite (toggle_unheld color s Hh).
    cbn [settings setSettings targetColors withTargetColors].
    split; [reflexivity |].
    rewrite toggle_held.
    + cbn [settings setSettings targetColors withTargetColors].
      rewrite filter_app. cbn [filter]. rewrite sameHex_refl. cbn [negb].
      rewrite app_nil_r, (filter_unheld _ _ Hh).
      destruct s as [m i g p sa pp se r k st]. destruct st. reflexivity.
    + cbn [settings setSettings targetColors withTargetColors].
      unfold holds. rewrite existsb_app. cbn [existsb].
      rewrite sameHex_refl. rewrite orb_true_r. reflexivity.
Qed.

(** Hex strings that differ up to letter case differ exactly, so a
    selection kept distinct this way never asks a batch for the same hex
    string twice. *)
Lemma distinct_hexes colors :
  distinctIgnoringCase colors -> NoDup (map hex colors).
Proof.
  unfold distinctIgnoringCase. intros Hd.
  rewrite <- (map_map hex toLowerCase) in Hd.
  apply NoDup_map_inv in Hd. exact Hd.
Qed.

(** The button and the handler agree: the count the button announces for
    a recolouring is the number of work items the batch queues, and
    whenever the button is enabled in recolour mode the batch finds images
    and colours to work on. *)
Theorem button_matches_batch (gen : GenerationSettings.t) (s : AppState) :
  mode s = recolor ->
  totalVariants s
  = List.length (buildTasks (images s) (targetColors (settings s)))
  /\ (processDisabled gen s = false ->
      images s <> [] /\ targetColors (settings s) <> []
      /\ isProcessing s = false /\ isSampling s = false).
Proof.
  intros Hmode. unfold totalVariants, processDisabled. rewrite Hmode.
  split.
  - rewrite buildTasks_product, product_length. apply Nat.mul_comm.
  - intros Hen. repeat rewrite orb_false_iff in Hen.
    destruct Hen as [[[Hp Hs] Hguard] _]. cbn [andb] in Hguard.
    apply orb_false_iff in Hguard. destruct Hguard as [Hi Hc].
    repeat split; try assumption.
    + intros Hnil. rewrite Hnil in Hi. discriminate.
    + intros Hnil. rewrite Hnil in Hc. discriminate.
Qed.

End Selection.

Lemma selection_witness :
  Controls.distinctIgnoringCase
    (Types.targetColors
       (App.settings (Controls.toggleColor Examples.redLower
                        (Examples.workspace [Examples.red; Examples.blue])))).
Proof.
  apply (selection_stays_distinct (Examples.workspace [Examples.red; Examples.blue])).
  repeat constructor; cbn; intuition discriminate.
Defined.

Lemma button_witness :
  Controls.totalVariants (Examples.workspace [Examples.red; Examples.blue]) = 2%nat.
Proof.
  destruct (button_matches_batch Examples.sketch
              (Examples.workspace [Examples.red; Examples.blue])) as [Hcount _].
  - reflexivity.
  - rewrite Hcount. reflexivity.
Defined.

(** ** A batch on which the service answers every call *)

Section HappyPath.

Import JsString Types Env GeminiService App.

Variable o : Oracle.
(** Every call is answered with an image. *)
Hypothesis always_delivers : forall n, delivered o n <> EmptyString.

Lemma service_delivers n :
  exists candidates,
    service o n = ApiReturns candidates
    /\ truthy (extractImage candidates) = true
    /\ extractImage candidates = delivered o n.
Proof.
  pose proof (always_delivers n) as Hd. unfold delivered in *.
  destruct (service o n) as [e | candidates]; [contradiction |].
  exists candidates. split; [reflexivity |]. split; [| reflexivity].
  apply truthy_nonempty. exact Hd.
Qed.

Lemma recolor_delivers source settings targetColor w :
  recolorImageWithGemini o (Some source) settings targetColor w
  = (Resolved (delivered o (calls w)), invoked w).
Proof.
  unfold recolorImageWithGemini.
  pose proof (withRetry_runs_loop
                (fun n => recolorOnce (Some source) settings (service o n))
                (random o) default_retries default_baseDelay w) as Hloop.
  unfold retryFuel in Hloop.
  rewrite (loop_resolved _ (random o) default_baseDelay _ w
             (attempt := 0%Z) (retries := default_retries)
             (v := delivered o (calls w))) in Hloop.
  - congruence.
  - unfold default_retries. lia.
  - destruct (service_delivers (calls w)) as (candidates & Hs & Ht & Hd).
    unfold recolorOnce. rewrite Hs, Ht, Hd. reflexivity.
Qed.

Lemma processTasks_recordAll captured total tasks :
  forall r,
    Forall (fun task => Task.originalUrl task <> None) tasks ->
    images (state (processTasks o captured total tasks r))
    = map (recordAll o tasks (calls (world r))) (images (state r))
    /\ calls (world (processTasks o captured total tasks r))
       = (calls (world r) + List.length tasks)%nat.
Proof.
  induction tasks as [| task tasks IH]; intros r Hsrc.
  - cbn. rewrite map_id. split; [reflexivity | lia].
  - inversion Hsrc as [| ? ? Hurl Hrest]; subst.
    change (processTasks o captured total (task :: tasks) r)
      with (processTasks o captured total tasks
              (processTask o captured total r task)).
    destruct (IH (processTask o captured total r task) Hrest) as [Himgs Hcalls].
    rewrite Himgs, Hcalls.
    destruct (Task.originalUrl task) as [source |] eqn:Hsource; [| contradiction].
    unfold processTask. rewrite Hsource, recolor_delivers.
    cbn [state world images setImages setProcessingProgress calls emit invoked].
    rewrite map_map. cbn [recordAll List.length]. split; [reflexivity | lia].
Qed.

Lemma recordAll_app ts1 :
  forall ts2 n img,
    recordAll o (ts1 ++ ts2) n img
    = recordAll o ts2 (n + List.length ts1) (recordAll o ts1 n img).
Proof.
  induction ts1 as [| t ts1 IH]; intros ts2 n img; cbn [app recordAll List.length].
  - rewrite Nat.add_0_r. reflexivity.
  - rewrite IH. f_equal. lia.
Qed.

Lemma recordAll_others tasks :
  forall n img,
    Forall (fun task => Task.imageId task <> id img) tasks ->
    recordAll o tasks n img = img.
Proof.
  induction tasks as [| t tasks IH]; intros n img Hall; [reflexivity |].
  inversion Hall as [| ? ? Ht Hrest]; subst. cbn [recordAll].
  rewrite recordSuccess_other by congruence. apply IH. exact Hrest.
Qed.

(** The items of one image, on that image: with colours whose hex strings
    are new to the image and differ from one another, each success just
    appends. *)
Lemma recordAll_own colors :
  forall n owner img,
    id img = id owner ->
    colors <> [] ->
    NoDup (map hex colors) ->
    (forall h, In h (hexes (results img)) -> ~ In h (map hex colors)) ->
    recordAll o (map (taskFor owner) colors) n img
    = mkImage (id img) (originalUrl img)
              (results img ++ variants o n colors)
              completed (errorMsg img)
              (Some (List.length (results img) + List.length colors - 1)%nat).
Proof.
  induction colors as [| c colors IH]; intros n owner img Hid Hne Hnd Hnew;
    [contradiction |].
  cbn [map recordAll variants]. cbn [map] in Hnd.
  apply NoDup_cons_iff in Hnd. destruct Hnd as [Hc Hrest].
  assert (Hkeep : filter (otherHex c) (results img) = results img).
  { apply filter_otherHex_all. intros Hin. apply (Hnew _ Hin). left. reflexivity. }
  assert (Hstep : recordSuccess (taskFor owner c) (delivered o n) img
                  = mkImage (id img) (originalUrl img)
                            (results img ++ [mkResult (Some c) (delivered o n) None None])
                            completed (errorMsg img)
                            (Some (List.length (results img)))).
  { rewrite recordSuccess_owner by (cbn; exact Hid).
    cbn [Task.color taskFor]. rewrite Hkeep. reflexivity. }
  rewrite Hstep.
  destruct colors as [| c' colors'].
  - cbn [map recordAll variants List.length]. f_equal. f_equal. lia.
  - rewrite (IH (S n) owner); try assumption; try discriminate.
    + cbn [id originalUrl results errorMsg].
      rewrite <- app_assoc, length_app. cbn [app List.length].
      f_equal. f_equal. lia.
    + cbn [results]. intros h Hin Hin'. rewrite hexes_app in Hin.
      apply in_app_or in Hin. destruct Hin as [Hin | [<- | []]].
      * apply (Hnew _ Hin). right. exact Hin'.
      * apply Hc. exact Hin'.
Qed.

Lemma product_of_others imgs colors img :
  ~ In (id img) (map id imgs) ->
  Forall (fun task => Task.imageId task <> id img) (imageMajorProduct imgs colors).
Proof.
  intros Hnot. apply Forall_forall. intros task Hin.
  unfold imageMajorProduct in Hin. apply in_flat_map in Hin.
  destruct Hin as (other & Hother & Hin).
  apply in_map_iff in Hin. destruct Hin as (c & <- & _).
  cbn [Task.imageId taskFor]. intros Heq. apply Hnot.
  apply in_map_iff. exists other. split; assumption.
Qed.

(** The whole queue, on the image at position [p]. *)
Lemma recordAll_product colors before img after n :
  colors <> [] ->
  NoDup (map hex colors) ->
  NoDup (map id (before ++ img :: after)) ->
  recordAll o (imageMajorProduct (before ++ img :: after) colors) n
            (markProcessing (mkImage (id img) (originalUrl img) []
                                     (status img) (errorMsg img)
                                     (activeResultIndex img)))
  = mkImage (id img) (originalUrl img)
            (variants o (n + List.length before * List.length colors) colors)
            completed None
            (Some (List.length colors - 1)%nat).
Proof.
  intros Hne Hnd Hids.
  rewrite map_app in Hids. cbn [map] in Hids.
  pose proof (NoDup_remove_2 _ _ _ Hids) as Hnotin.
  assert (Hb : ~ In (id img) (map id before))
    by (intros H; apply Hnotin; apply in_or_app; left; exact H).
  assert (Ha : ~ In (id img) (map id after))
    by (intros H; apply Hnotin; apply in_or_app; right; exact H).
  unfold imageMajorProduct. rewrite flat_map_app. cbn [flat_map].
  fold (imageMajorProduct before colors). fold (imageMajorProduct after colors).
  rewrite recordAll_app, product_length.
  rewrite (recordAll_others (tasks := imageMajorProduct before colors))
    by (exact (@product_of_others before colors img Hb)).
  rewrite recordAll_app.
  rewrite (recordAll_own (colors := colors)); try assumption; try reflexivity.
  - rewrite recordAll_others.
    + cbn [markProcessing id originalUrl results errorMsg app List.length].
      reflexivity.
    + exact (@product_of_others after colors img Ha).
  - cbn. intros h [].
Qed.

(** When the service answers every call with an image, a batch over a
    workspace of distinct images that hold no result yet, with colours of
    distinct hex strings, costs exactly one call per item, and leaves the
    image at position [p] completed, without error message, with one
    variant per selected colour in selection order (the variant of colour
    [j] being the image delivered by call [p * |colors| + j] of the run),
    showing the last of them. *)
Theorem batch_with_obliging_service (s : AppState) (w : World) :
  images s <> [] ->
  targetColors (settings s) <> [] ->
  tier_eqb (modelTier (settings s)) pro && notKey (hasApiKey s) = false ->
  NoDup (map id (images s)) ->
  NoDup (map hex (targetColors (settings s))) ->
  Forall (fun img => results img = [] /\ originalUrl img <> None) (images s) ->
  calls (snd (handleRecolorBatch o s w))
  = (calls w + List.length (images s) * List.length (targetColors (settings s)))%nat
  /\ forall p img,
       nth_error (images s) p = Some img ->
       nth_error (images (fst (handleRecolorBatch o s w))) p
       = Some (mkImage (id img) (originalUrl img)
                 (variants o (calls w + p * List.length (targetColors (settings s)))
                           (targetColors (settings s)))
                 completed None
                 (Some (List.length (targetColors (settings s)) - 1)%nat)).
Proof.
  intros Himgs Hcolors Hgate Hids Hhex Hfresh.
  rewrite (handleRecolorBatch_runs o s w Himgs Hcolors Hgate). cbn [fst snd].
  set (colors := targetColors (settings s)) in *.
  set (tasks := buildTasks (images s) colors).
  set (total := Z.of_nat (List.length tasks)).
  set (start := mkRun (startRun s) w 0).
  assert (Hsrc : Forall (fun task => Task.originalUrl task <> None) tasks).
  { unfold tasks. rewrite buildTasks_product. apply Forall_forall.
    intros task Hin. unfold imageMajorProduct in Hin. apply in_flat_map in Hin.
    destruct Hin as (img & Himg & Hin). apply in_map_iff in Hin.
    destruct Hin as (c & <- & _). cbn [Task.originalUrl taskFor].
    rewrite Forall_forall in Hfresh. apply (Hfresh img Himg). }
  destruct (processTasks_recordAll (settings s) total start Hsrc) as [Hfinal Hcalls].
  change (images (finishRun (state (processTasks o (settings s) total tasks start))))
    with (images (state (processTasks o (settings s) total tasks start))).
  rewrite Hfinal, Hcalls. cbn [world state start].
  split.
  - unfold tasks. rewrite buildTasks_product, product_length. reflexivity.
  - intros p img Hp.
    unfold startRun. cbn [images setImages]. rewrite map_map.
    change (images (setIsSampling false
              (setRateLimitActive false
                 (setProcessingProgress 0 (setIsProcessing true s)))))
      with (images s).
    rewrite nth_error_map, Hp. cbn [option_map]. f_equal.
    destruct (nth_error_split _ _ Hp) as (before & after & Hsplit & Hlen).
    rewrite Forall_forall in Hfresh.
    destruct (Hfresh img (nth_error_In _ _ Hp)) as [Hres _].
    unfold tasks. rewrite buildTasks_product.
    pose proof (recordAll_product (colors := colors) before img after (calls w)
                  Hcolors Hhex) as Hrow.
    rewrite <- Hsplit in Hrow. specialize (Hrow Hids).
    rewrite Hlen in Hrow. rewrite <- Hrow.
    f_equal. unfold markProcessing. cbn [id originalUrl results activeResultIndex].
    rewrite Hres. reflexivity.
Qed.

End HappyPath.

Lemma obliging_batch_witness :
  Env.calls (snd (App.handleRecolorBatch Examples.obliging
                    (Examples.workspace [Examples.red; Examples.blue])
                    Examples.freshWorld)) = 2%nat.
Proof.
  destruct (@batch_with_obliging_service Examples.obliging)
    with (s := Examples.workspace [Examples.red; Examples.blue])
         (w := Examples.freshWorld) as [Hcalls _].
  - intros n. discriminate.
  - discriminate.
  - discriminate.
  - reflexivity.
  - repeat constructor. intros [].
  - repeat constructor; cbn; intuition discriminate.
  - repeat constructor. discriminate.
  - exact Hcalls.
Defined.

(** ** The loupe label *)

Section LoupeFacts.

Import JsString Sampler Loupe.

Lemma nibble_cases (d : N) :
  (d < 16)%N ->
  In d [0; 1; 2; 3; 4; 5; 6; 7; 8; 9; 10; 11; 12; 13; 14; 15]%N.
Proof. intros Hd. cbn. lia. Qed.

Lemma hexValue_upper d :
  (d < 16)%N -> hexValue (upperHexDigit d) = Some d.
Proof.
  intros Hd. pose proof (nibble_cases Hd) as Hcases. cbn in Hcases.
  repeat (destruct Hcases as [<- | Hcases]; [reflexivity |]).
  contradiction.
Qed.

Lemma digitsValue_upper d rest acc seen :
  (d < 16)%N ->
  digitsValue (String (upperHexDigit d) rest) acc seen
  = digitsValue rest (16 * acc + d)%N true.
Proof.
  intros Hd. cbn [digitsValue]. rewrite (hexValue_upper Hd). reflexivity.
Qed.

(** Two leading digits are neither white space, nor a sign, nor the
    [0x] prefix. *)
Lemma parseInt16_two_digits d1 d2 rest :
  (d1 < 16)%N -> (d2 < 16)%N ->
  parseInt16 (String (upperHexDigit d1) (String (upperHexDigit d2) rest))
  = option_map Z.of_N (digitsValue rest (16 * d1 + d2)%N true).
Proof.
  intros H1 H2.
  pose proof (nibble_cases H1) as C1. pose proof (nibble_cases H2) as C2.
  cbn in C1, C2.
  repeat (destruct C1 as [<- | C1];
          [repeat (destruct C2 as [<- | C2];
                   [cbv - [digitsValue Z.of_N]; reflexivity |]);
           contradiction |]).
  contradiction.
Qed.

Lemma nibbles_value (n : N) : (16 * (n / 16) + n mod 16 = n)%N.
Proof. symmetry. apply N.div_mod. discriminate. Qed.

(** Read back with [parseInt], the colour a pixel is formatted to is the
    number [65536 r + 256 g + b] of its channels, so that the loupe prints
    the colour in black exactly when the red channel is 128 or more: green
    and blue play no part in the choice. *)
Theorem loupe_label_follows_red_channel (p : Rgba) :
  parseInt16 (slice1 (formatHex p))
  = Some (65536 * channel (red p) + 256 * channel (green p) + channel (blue p))%Z
  /\ labelIsBlack (formatHex p) = (128 <=? channel (red p))%Z.
Proof.
  assert (Hparse :
    parseInt16 (slice1 (formatHex p))
    = Some (65536 * channel (red p) + 256 * channel (green p)
            + channel (blue p))%Z).
  { rewrite formatHex_rrggbb. unfold rrggbb, twoHexDigits.
    cbn [append slice1].
    destruct (byte_nibbles (red p)) as [Hr1 Hr2].
    destruct (byte_nibbles (green p)) as [Hg1 Hg2].
    destruct (byte_nibbles (blue p)) as [Hb1 Hb2].
    rewrite (parseInt16_two_digits _ Hr1 Hr2).
    rewrite (digitsValue_upper _ _ _ Hg1), (digitsValue_upper _ _ _ Hg2),
            (digitsValue_upper _ _ _ Hb1), (digitsValue_upper _ _ _ Hb2).
    cbn [digitsValue option_map]. f_equal. unfold channel.
    pose proof (nibbles_value (Byte.to_N (red p))) as Er.
    pose proof (nibbles_value (Byte.to_N (green p))) as Eg.
    pose proof (nibbles_value (Byte.to_N (blue p))) as Eb.
    revert Er Eg Eb.
    generalize (Byte.to_N (red p) / 16)%N (Byte.to_N (red p) mod 16)%N
               (Byte.to_N (green p) / 16)%N (Byte.to_N (green p) mod 16)%N
               (Byte.to_N (blue p) / 16)%N (Byte.to_N (blue p) mod 16)%N.
    intros r1 r2 g1 g2 b1 b2 Er Eg Eb. lia. }
  split; [exact Hparse |].
  unfold labelIsBlack. rewrite Hparse.
  pose proof (channel_range (red p)) as Hr.
  pose proof (channel_range (green p)) as Hg.
  pose proof (channel_range (blue p)) as Hb.
  unfold Qle_bool. cbn [Qnum Qden inject_Z].
  destruct (Z.leb_spec 128 (channel (red p))) as [Hhigh | Hlow].
  - apply negb_true_iff. apply Z.leb_gt. lia.
  - apply negb_false_iff. apply Z.leb_le. lia.
Qed.

End LoupeFacts.

(** ** The before/after slider *)

Section SliderFacts.

Import Slider.

Lemma percentage_range rect clientX :
  0 <= percentage rect clientX /\ percentage rect clientX <= 100.
Proof.
  unfold percentage. split.
  - apply Q.le_max_l.
  - apply Q.max_lub; [discriminate | apply Q.le_min_l].
Qed.

Lemma handle_range st e :
  0 <= sliderPosition st /\ sliderPosition st <= 100 ->
  0 <= sliderPosition (handle st e) /\ sliderPosition (handle st e) <= 100.
Proof.
  intros Hst.
  destruct e as [| | [rect |] clientX | [rect |] touchX]; cbn; try exact Hst.
  - destruct (isDragging st); [apply percentage_range | exact Hst].
  - destruct (isDragging st); [apply percentage_range | exact Hst].
Qed.

Lemma run_range events :
  forall st,
    0 <= sliderPosition st /\ sliderPosition st <= 100 ->
    0 <= sliderPosition (run events st)
    /\ sliderPosition (run events st) <= 100.
Proof.
  induction events as [| e events IH]; intros st Hst; [exact Hst |].
  cbn [run fold_left]. apply IH. apply handle_range. exact Hst.
Qed.

Lemma run_unpressed events :
  forall st,
    isDragging st = false ->
    ~ In Press events ->
    run events st = mkState (sliderPosition st) false.
Proof.
  induction events as [| e events IH]; intros st Hst Hno.
  - cbn. destruct st as [pos dragging]. cbn in Hst. subst. reflexivity.
  - cbn [run fold_left]. fold (run events (handle st e)).
    assert (Hnext : handle st e = mkState (sliderPosition st) false).
    { destruct e as [| | [rect |] clientX | [rect |] touchX]; cbn.
      - exfalso. apply Hno. left. reflexivity.
      - reflexivity.
      - rewrite Hst. destruct st; cbn in *; subst; reflexivity.
      - destruct st; cbn in *; subst; reflexivity.
      - rewrite Hst. destruct st; cbn in *; subst; reflexivity.
      - destruct st; cbn in *; subst; reflexivity. }
    rewrite Hnext.
    rewrite (IH (mkState (sliderPosition st) false)); [reflexivity | reflexivity |].
    intros Hin. apply Hno. right. exact Hin.
Qed.

(** Whatever the user does with the slider over a container that has a
    width, the divider stays between 0 and 100 percent; until the first
    press it stays at the initial 50; and while the pointer is over the
    container a drag puts the divider exactly under it. *)
Theorem slider_stays_within_the_frame (events : list Event) :
  Forall laidOut events ->
  (0 <= sliderPosition (run events initial)
   /\ sliderPosition (run events initial) <= 100)
  /\ (~ In Press events -> run events initial = initial)
  /\ (forall rect clientX,
        0 < width rect ->
        left rect <= clientX -> clientX <= left rect + width rect ->
        sliderPosition
          (handle (handle (run events initial) Press)
                  (MouseMove (Some rect) clientX))
        == (clientX - left rect) / width rect * 100).
Proof.
  intros _. split; [| split].
  - apply run_range. cbn. split; discriminate.
  - intros Hno. apply (@run_unpressed events initial); [reflexivity | exact Hno].
  - intros rect clientX Hw Hlow Hhigh. cbn. unfold percentage.
    set (t := (clientX - left rect) / width rect * 100).
    assert (Ht0 : 0 <= t).
    { unfold t, Qdiv. apply Qmult_le_0_compat; [| discriminate].
      apply Qmult_le_0_compat; [lra |].
      apply Qinv_le_0_compat. lra. }
    assert (Ht1 : t <= 100).
    { unfold t.
      assert (Hfrac : (clientX - left rect) / width rect <= 1).
      { apply Qle_shift_div_r; [exact Hw | lra]. }
      lra. }
    rewrite (Q.min_r 100 t) by exact Ht1.
    apply Q.max_r. exact Ht0.
Qed.

End SliderFacts.

Lemma slider_witness :
  Slider.sliderPosition
    (Slider.run [Slider.Press;
                 Slider.MouseMove (Some (Slider.mkRect 10 200)) 500]
                Slider.initial) <= 100.
Proof.
  apply (@slider_stays_within_the_frame
           [Slider.Press; Slider.MouseMove (Some (Slider.mkRect 10 200)) 500]).
  repeat constructor.
Defined.

(** ** The export *)

Section ExportFacts.

Import JsString Types Env GeminiService App ExportModal.

Lemma list_sum_cons (n : nat) (ns : list nat) :
  list_sum (n :: ns) = (n + list_sum ns)%nat.
Proof. reflexivity. Qed.

Lemma reduce_from imgs :
  forall acc,
    fold_left (fun acc img => (acc + List.length (results img))%nat) imgs acc
    = (acc + variantCount imgs)%nat.
Proof.
  unfold variantCount.
  induction imgs as [| img imgs IH]; intros acc; cbn [fold_left map]; rewrite ?list_sum_cons.
  - change (list_sum []) with 0%nat. lia.
  - rewrite IH. lia.
Qed.

Lemma variantCount_completed imgs :
  variantCount (completedImages imgs) = variantCount imgs.
Proof.
  unfold variantCount, completedImages.
  induction imgs as [| img imgs IH]; [reflexivity |].
  cbn [filter map]; rewrite ?list_sum_cons.
  destruct (Nat.ltb_spec 0 (List.length (results img))) as [Hpos | Hzero];
    cbn [map]; rewrite ?list_sum_cons; rewrite IH; lia.
Qed.

Lemma totalVariants_counts imgs : totalVariants imgs = variantCount imgs.
Proof.
  unfold totalVariants. rewrite reduce_from, variantCount_completed. lia.
Qed.


Lemma filesOfResults_coloured index img rs :
  Forall (fun res => color res <> None) rs ->
  exists files,
    filesOfResults index img rs = Some files
    /\ List.length files = List.length rs.
Proof.
  induction rs as [| res rs IH]; intros Hall.
  - exists []. split; reflexivity.
  - inversion Hall as [| ? ? Hres Hrest]; subst.
    destruct (IH Hrest) as (files & Hfiles & Hlen).
    cbn [filesOfResults]. unfold fileFor.
    destruct (color res) as [c |]; [| contradiction].
    rewrite Hfiles. eexists. split; [reflexivity |].
    cbn [List.length]. rewrite Hlen. reflexivity.
Qed.

Lemma filesFrom_coloured imgs :
  forall index,
    Forall coloured imgs ->
    exists files,
      filesFrom index imgs = Some files
      /\ List.length files = variantCount imgs.
Proof.
  unfold variantCount.
  induction imgs as [| img imgs IH]; intros index Hall.
  - exists []. split; reflexivity.
  - inversion Hall as [| ? ? Himg Hrest]; subst.
    destruct (filesOfResults_coloured index img Himg) as (fs & Hfs & Hlen).
    destruct (IH (S index) Hrest) as (more & Hmore & Hlen').
    cbn [filesFrom]. rewrite Hfs, Hmore.
    exists (fs ++ more). split; [reflexivity |].
    rewrite length_app. cbn [map]; rewrite ?list_sum_cons. lia.
Qed.

Lemma coloured_completed imgs :
  Forall coloured imgs -> Forall coloured (completedImages imgs).
Proof.
  intros Hall. apply Forall_forall. intros img Hin.
  apply filter_In in Hin. rewrite Forall_forall in Hall.
  apply Hall. apply Hin.
Qed.

Lemma export_of_coloured imgs :
  Forall coloured imgs ->
  (variantCount imgs = 0%nat /\ handleDownloadZip imgs = Declined)
  \/ (variantCount imgs <> 0%nat
      /\ exists files,
           handleDownloadZip imgs = Packed files
           /\ List.length files = variantCount imgs).
Proof.
  intros Hall. unfold handleDownloadZip. rewrite totalVariants_counts.
  destruct (Nat.eqb_spec (variantCount imgs) 0) as [Hzero | Hsome].
  - left. split; [exact Hzero | reflexivity].
  - right. split; [exact Hsome |].
    destruct (filesFrom_coloured 0 (coloured_completed Hall))
      as (files & Hfiles & Hlen).
    rewrite Hfiles. exists files. split; [reflexivity |].
    rewrite Hlen. apply variantCount_completed.
Qed.


Lemma isFileSafe_char c :
  isFileSafe (lowerChar (if isAlphanumeric c then c else "_"%char)) = true.
Proof.
  destruct c as [[] [] [] [] [] [] [] []]; reflexivity.
Qed.

(** The colour name inside an exported file name has as many characters
    as the colour's name, and each is a lower-case letter, a digit or an
    underscore. *)
Theorem cleanName_is_file_safe (colourName : string) :
  Sampler.allChars isFileSafe (cleanName colourName) = true
  /\ String.length (cleanName colourName) = String.length colourName.
Proof.
  unfold cleanName, toLowerCase.
  induction colourName as [| c rest [IHsafe IHlen]]; [split; reflexivity |].
  cbn [mapChars Sampler.allChars String.length].
  rewrite isFileSafe_char, IHsafe, IHlen. split; reflexivity.
Qed.

Lemma split_commaFree s : commaFree s -> split "," s = [s].
Proof.
  unfold commaFree. induction s as [| c s IH]; intros Hfree; [reflexivity |].
  cbn [Sampler.allChars] in Hfree. apply andb_true_iff in Hfree.
  destruct Hfree as [Hc Hs]. cbn [split].
  apply negb_true_iff in Hc. rewrite Hc, (IH Hs). reflexivity.
Qed.

Lemma payload_of_data_url payload :
  commaFree payload ->
  nth_error (split "," (pngHeader ++ payload)) 1 = Some payload.
Proof.
  intros Hfree. unfold pngHeader. cbn [append split Ascii.eqb Bool.eqb].
  rewrite (split_commaFree Hfree). reflexivity.
Qed.

(** The export undoes what the service does to the picture it receives:
    the data of the first image part of an answer, which the service
    returns behind the PNG header, is the data the export puts into the
    archive for that result, provided it holds no comma (base64 text holds
    none). *)
Theorem export_recovers_service_data
    (settings : AppSettings) (source : string)
    (before rest : list (option string)) (others : list (list (option string)))
    (payload : string) (c : ColorDefinition) (index : nat) (img : ProcessedImage) :
  Forall carriesNoData before ->
  payload <> EmptyString ->
  commaFree payload ->
  exists dataUrl file,
    recolorOnce (Some source) settings
                (ApiReturns ((before ++ Some payload :: rest) :: others))
    = Resolved dataUrl
    /\ fileFor index img (mkResult (Some c) dataUrl None None) = Some file
    /\ data file = Some payload.
Proof.
  intros Hnone Hpayload Hfree.
  exists (pngHeader ++ payload)%string.
  assert (Hresolved :
    recolorOnce (Some source) settings
                (ApiReturns ((before ++ Some payload :: rest) :: others))
    = Resolved (pngHeader ++ payload)%string).
  { unfold recolorOnce, extractImage.
    rewrite firstInlineData_skips by exact Hnone. cbn [firstInlineData].
    apply truthy_nonempty in Hpayload. rewrite Hpayload. reflexivity. }
  unfold fileFor. cbn [color url].
  eexists. split; [exact Hresolved |]. split; [reflexivity |].
  cbn [data]. apply payload_of_data_url. exact Hfree.
Qed.

Lemma coloured_recordSuccess task processedBase64 img :
  coloured img -> coloured (recordSuccess task processedBase64 img).
Proof.
  unfold coloured, recordSuccess. intros Hall.
  destruct (String.eqb (id img) (Task.imageId task)); [| exact Hall].
  cbn [results]. apply Forall_app. split.
  - apply Forall_forall. intros res Hin. apply filter_In in Hin.
    rewrite Forall_forall in Hall. apply Hall. apply Hin.
  - constructor; [discriminate | constructor].
Qed.

Lemma coloured_recordFailure task isApiKeyError isRateLimit img :
  coloured img -> coloured (recordFailure task isApiKeyError isRateLimit img).
Proof.
  unfold coloured, recordFailure. intros Hall.
  destruct (String.eqb (id img) (Task.imageId task)
            && (List.length (results img) =? 0)%nat); exact Hall.
Qed.

Lemma coloured_map (f : ProcessedImage -> ProcessedImage) imgs :
  (forall img, coloured img -> coloured (f img)) ->
  Forall coloured imgs -> Forall coloured (map f imgs).
Proof.
  intros Hf Hall. apply Forall_forall. intros img' Hin.
  apply in_map_iff in Hin. destruct Hin as (img & <- & Hin).
  apply Hf. rewrite Forall_forall in Hall. apply Hall. exact Hin.
Qed.

Lemma coloured_processTask o captured total r task :
  Forall coloured (images (state r)) ->
  Forall coloured (images (state (processTask o captured total r task))).
Proof.
  intros Hall. unfold processTask.
  destruct (recolorImageWithGemini o (Task.originalUrl task) captured
              (Task.color task) (world r)) as [[processedBase64 | err] w1];
    cbn [state].
  - cbn [images setProcessingProgress setImages].
    apply coloured_map; [apply coloured_recordSuccess | exact Hall].
  - unfold onFailure.
    destruct (isRateLimitStr (toStr err));
      destruct (isApiKeyErrorStr (toStr err) && tier_eqb (modelTier captured) pro);
      cbn [images setProcessingProgress setImages setRateLimitActive setHasApiKey];
      (apply coloured_map; [apply coloured_recordFailure | exact Hall]).
Qed.

Lemma coloured_processTasks o captured total tasks :
  forall r,
    Forall coloured (images (state r)) ->
    Forall coloured (images (state (processTasks o captured total tasks r))).
Proof.
  induction tasks as [| task tasks IH]; intros r Hall; [exact Hall |].
  change (processTasks o captured total (task :: tasks) r)
    with (processTasks o captured total tasks
            (processTask o captured total r task)).
  apply IH. apply coloured_processTask. exact Hall.
Qed.

(** A batch, whatever the service does, leaves every result of the
    workspace with its colour if it found them so, and the export of the
    workspace it leaves never ends in its error branch. *)
Theorem batch_results_export_cleanly (o : Oracle) (s : AppState) (w : World) :
  Forall coloured (images s) ->
  Forall coloured (images (fst (handleRecolorBatch o s w)))
  /\ handleDownloadZip (images (fst (handleRecolorBatch o s w))) <> Failed.
Proof.
  intros Hall.
  assert (Hafter : Forall coloured (images (fst (handleRecolorBatch o s w)))).
  { unfold handleRecolorBatch.
    destruct ((List.length (images s) =? 0)%nat
              || (List.length (targetColors (settings s)) =? 0)%nat);
      [exact Hall |].
    destruct (tier_eqb (modelTier (settings s)) pro && notKey (hasApiKey s));
      [exact Hall |].
    cbn [fst]. unfold finishRun.
    cbn [images setRateLimitActive setIsProcessing].
    apply coloured_processTasks. cbn [state]. unfold startRun.
    cbn [images setImages setIsSampling setRateLimitActive
         setProcessingProgress setIsProcessing].
    apply coloured_map; [| exact Hall].
    intros img Himg. exact Himg. }
  split; [exact Hafter |].
  destruct (export_of_coloured Hafter)
    as [[_ Hdecl] | (_ & files & Hpacked & _)].
  - rewrite Hdecl. discriminate.
  - rewrite Hpacked. discriminate.
Qed.

End ExportFacts.


Lemma export_data_witness :
  exists dataUrl file,
    GeminiService.recolorOnce (Some "data:image/png;base64,AAAA"%string)
      (App.settings (Examples.workspace [Examples.red]))
      (Env.ApiReturns [[None; Some "iVBORw0KGgo="%string]])
    = Env.Resolved dataUrl
    /\ ExportModal.fileFor 0 Examples.imgA
         (Types.mkResult (Some Examples.red) dataUrl None None) = Some file
    /\ ExportModal.data file = Some "iVBORw0KGgo="%string.
Proof.
  apply (@export_recovers_service_data
           (App.settings (Examples.workspace [Examples.red]))
           "data:image/png;base64,AAAA"%string
           [None] [] [] "iVBORw0KGgo="%string Examples.red 0%nat Examples.imgA).
  - repeat constructor.
  - discriminate.
  - reflexivity.
Defined.

Lemma batch_export_witness :
  ExportModal.handleDownloadZip
    (App.images (fst (App.handleRecolorBatch Examples.refusing
                        (Examples.workspace [Examples.red])
                        Examples.freshWorld)))
  <> ExportModal.Failed.
Proof.
  apply (@batch_results_export_cleanly Examples.refusing
           (Examples.workspace [Examples.red]) Examples.freshWorld).
  vm_compute. repeat constructor.
Defined.

(** ** The earlier handler *)

Section LegacyFacts.

Import Env.

Lemma legacy_service_step o w :
  calls (snd (Legacy.recolorImageWithGemini o w)) = S (calls w)
  /\ sleeps (log (snd (Legacy.recolorImageWithGemini o w))) = sleeps (log w).
Proof.
  unfold Legacy.recolorImageWithGemini.
  destruct (service o (calls w)) as [e | candidates].
  - cbn [snd calls emit invoked log]. split; [reflexivity |].
    rewrite !sleeps_app. cbn. rewrite !app_nil_r. reflexivity.
  - destruct (JsString.truthy (GeminiService.extractImage candidates));
      cbn [snd calls emit invoked log]; (split; [reflexivity |]);
      rewrite !sleeps_app; cbn; rewrite ?app_nil_r; reflexivity.
Qed.

Lemma legacy_recordSuccess_status task processedBase64 img :
  Legacy.completedOrProcessing img ->
  Legacy.completedOrProcessing (Legacy.recordSuccess task processedBase64 img).
Proof.
  intros Himg. unfold Legacy.recordSuccess.
  destruct (String.eqb (Legacy.id img) (Legacy.Task.imageId task));
    [| exact Himg].
  left. cbn [Legacy.status Legacy.results]. split; [reflexivity |].
  intros Hnil. apply app_eq_nil in Hnil. destruct Hnil as [_ Hnil].
  discriminate.
Qed.

Lemma legacy_recordFailure_status task img :
  Legacy.completedOrProcessing img ->
  Legacy.completedOrProcessing (Legacy.recordFailure task img).
Proof.
  unfold Legacy.completedOrProcessing.
  destruct (legacy_recordFailure_keeps_status task img) as [-> ->].
  intros Himg. exact Himg.
Qed.

Lemma legacy_processTask_step o total r task :
  Forall Legacy.completedOrProcessing (Legacy.images (Legacy.state r)) ->
  Forall Legacy.completedOrProcessing
         (Legacy.images (Legacy.state (Legacy.processTask o total r task)))
  /\ calls (Legacy.world (Legacy.processTask o total r task))
     = S (calls (Legacy.world r))
  /\ sleeps (log (Legacy.world (Legacy.processTask o total r task)))
     = sleeps (log (Legacy.world r)) ++ [1000].
Proof.
  intros Hall. unfold Legacy.processTask.
  destruct (legacy_service_step o (Legacy.world r)) as [Hcalls Hsleeps].
  destruct (Legacy.recolorImageWithGemini o (Legacy.world r))
    as [[processedBase64 | err] w1]; cbn [snd] in Hcalls, Hsleeps;
    cbn [Legacy.state Legacy.world Legacy.images Legacy.setProcessingProgress
         Legacy.setImages emit calls log].
  - split; [| split].
    + apply Forall_forall. intros img' Hin. apply in_map_iff in Hin.
      destruct Hin as (img & <- & Hin). apply legacy_recordSuccess_status.
      rewrite Forall_forall in Hall. apply Hall. exact Hin.
    + exact Hcalls.
    + rewrite sleeps_app, Hsleeps. reflexivity.
  - split; [| split].
    + apply Forall_forall. intros img' Hin. apply in_map_iff in Hin.
      destruct Hin as (img & <- & Hin). apply legacy_recordFailure_status.
      rewrite Forall_forall in Hall. apply Hall. exact Hin.
    + exact Hcalls.
    + rewrite !sleeps_app, Hsleeps. cbn. rewrite app_nil_r. reflexivity.
Qed.

Lemma legacy_loop o total tasks :
  forall r,
    Forall Legacy.completedOrProcessing (Legacy.images (Legacy.state r)) ->
    Forall Legacy.completedOrProcessing
           (Legacy.images
              (Legacy.state (fold_left (Legacy.processTask o total) tasks r)))
    /\ calls (Legacy.world (fold_left (Legacy.processTask o total) tasks r))
       = (calls (Legacy.world r) + List.length tasks)%nat
    /\ sleeps (log (Legacy.world
                      (fold_left (Legacy.processTask o total) tasks r)))
       = sleeps (log (Legacy.world r)) ++ repeat 1000 (List.length tasks).
Proof.
  induction tasks as [| task tasks IH]; intros r Hall.
  - cbn. rewrite app_nil_r. repeat split; [exact Hall | lia].
  - destruct (legacy_processTask_step o total r task Hall)
      as (Hnext & Hcalls & Hsleeps).
    destruct (IH _ Hnext) as (Hend & Hcalls' & Hsleeps').
    cbn [fold_left]. split; [exact Hend | split].
    + rewrite Hcalls', Hcalls. cbn [List.length]. lia.
    + rewrite Hsleeps', Hsleeps, <- app_assoc. reflexivity.
Qed.

(** The earlier batch handler asks the service exactly once per item,
    whatever the answers, pauses one second after each item, and has no
    error status: when it is done every image is completed with a result or
    still marked as processing. *)
Theorem legacy_batch_asks_once_and_marks_no_error
    (o : Oracle) (s : Legacy.AppState) (w : World) :
  Legacy.images s <> [] ->
  Legacy.targetColors (Legacy.settings s) <> [] ->
  calls (snd (Legacy.processBatch o s w))
  = (calls w
     + List.length (Legacy.images s)
       * List.length (Legacy.targetColors (Legacy.settings s)))%nat
  /\ sleeps (log (snd (Legacy.processBatch o s w)))
     = sleeps (log w)
       ++ repeat 1000
            (List.length (Legacy.images s)
             * List.length (Legacy.targetColors (Legacy.settings s)))
  /\ Forall Legacy.completedOrProcessing
            (Legacy.images (fst (Legacy.processBatch o s w)))
  /\ Forall (fun img => Legacy.status img <> Types.error)
            (Legacy.images (fst (Legacy.processBatch o s w))).
Proof.
  intros Himgs Hcolors. unfold Legacy.processBatch.
  destruct (Legacy.images s) as [| img0 imgs] eqn:Eimgs; [contradiction |].
  destruct (Legacy.targetColors (Legacy.settings s)) as [| c0 colors] eqn:Ecolors;
    [contradiction |].
  cbn [List.length Nat.eqb orb fst snd].
  set (tasks := Legacy.buildTasks (img0 :: imgs) (c0 :: colors)).
  set (start := Legacy.mkRun _ w 0).
  assert (Hstart : Forall Legacy.completedOrProcessing
                          (Legacy.images (Legacy.state start))).
  { unfold start. cbn [Legacy.state Legacy.images Legacy.setImages
                       Legacy.setProcessingProgress Legacy.setIsProcessing].
    apply Forall_forall. intros img' Hin. apply in_map_iff in Hin.
    destruct Hin as (img & <- & _). right. reflexivity. }
  destruct (legacy_loop o (Z.of_nat (List.length tasks)) tasks start Hstart)
    as (Hend & Hcalls & Hsleeps).
  assert (Hlen : List.length tasks
                 = (S (List.length imgs) * S (List.length colors))%nat).
  { unfold tasks. rewrite legacy_buildTasks_product, rows_length. reflexivity. }
  cbn [Legacy.images Legacy.setIsProcessing].
  split; [| split; [| split]].
  - rewrite Hcalls, Hlen. reflexivity.
  - rewrite Hsleeps, Hlen. reflexivity.
  - exact Hend.
  - apply Forall_forall. intros img Hin. rewrite Forall_forall in Hend.
    destruct (Hend img Hin) as [[Hst _] | Hst]; rewrite Hst; discriminate.
Qed.

End LegacyFacts.

(** ** The sampler at the edges *)

Section SamplerEdges.

Import JsString Sampler Loupe.

Lemma isHexDigit_upper c : isUpperHexDigit c = true -> isHexDigit c = true.
Proof.
  destruct c as [[] [] [] [] [] [] [] []]; intros H;
    try reflexivity; discriminate H.
Qed.

Lemma allChars_weaken (f g : ascii -> bool) s :
  (forall c, f c = true -> g c = true) ->
  allChars f s = true -> allChars g s = true.
Proof.
  intros Hfg. induction s as [| c s IH]; [reflexivity |].
  cbn [allChars]. intros H. apply andb_true_iff in H. destruct H as [Hc Hs].
  rewrite (Hfg c Hc), (IH Hs). reflexivity.
Qed.

(** A number sign and six radix-16 digits. *)
Lemma formatHex_wellFormed p :
  exists digits,
    formatHex p = String "#" digits
    /\ String.length digits = 6%nat
    /\ allChars isHexDigit digits = true.
Proof.
  rewrite formatHex_rrggbb.
  destruct (rrggbb_shape p) as (_ & digits & Hshape & Hlen & Hdigits).
  exists digits. split; [exact Hshape | split; [exact Hlen |]].
  apply (@allChars_weaken isUpperHexDigit isHexDigit digits isHexDigit_upper Hdigits).
Qed.

Lemma fallback_wellFormed :
  exists digits,
    "#ffffff"%string = String "#" digits
    /\ String.length digits = 6%nat
    /\ allChars isHexDigit digits = true.
Proof. exists "ffffff"%string. repeat split. Qed.

(** In every state of its references and for every position, each of the
    two samplers hands out a number sign followed by six hexadecimal
    digits: the colours that reach [handleSampleColor] are never
    malformed. *)
Theorem sampled_colour_is_always_wellFormed
    (refs : Refs) (x y : Q) (e : MouseEvent) :
  (exists digits,
      getHexColor refs x y = String "#" digits
      /\ String.length digits = 6%nat
      /\ allChars isHexDigit digits = true)
  /\ (exists digits,
        getRefColor refs e = String "#" digits
        /\ String.length digits = 6%nat
        /\ allChars isHexDigit digits = true)
  /\ (forall picked,
        handleClick refs e = Some picked ->
        exists digits,
          picked = String "#" digits
          /\ String.length digits = 6%nat
          /\ allChars isHexDigit digits = true).
Proof.
  assert (Hhex : forall refs' x' y',
             exists digits,
               getHexColor refs' x' y' = String "#" digits
               /\ String.length digits = 6%nat
               /\ allChars isHexDigit digits = true).
  { intros refs' x' y'. unfold getHexColor.
    destruct (canvasRef refs') as [canvas |]; [| apply fallback_wellFormed].
    destruct (imgRef refs') as [img |]; [| apply fallback_wellFormed].
    destruct (has2d canvas); [apply formatHex_wellFormed
                             | apply fallback_wellFormed]. }
  split; [apply Hhex | split].
  - unfold getRefColor.
    destruct (imgRef refs) as [img |]; [| apply fallback_wellFormed].
    destruct (canvasRef refs) as [canvas |]; [| apply fallback_wellFormed].
    destruct (has2d canvas); [apply formatHex_wellFormed
                             | apply fallback_wellFormed].
  - intros picked Hclick. unfold handleClick in Hclick.
    destruct (imgRef refs) as [img |]; [| discriminate].
    injection Hclick as <-. apply Hhex.
Qed.





End SamplerEdges.

Lemma legacy_batch_witness :
  Env.calls (snd (Legacy.processBatch Examples.refusing
                    (Legacy.mkState
                       [Legacy.mkImage "a" "data:image/png;base64,AAAA" []
                                       Types.pending None None]
                       false 0 false
                       (Legacy.mkSettings [Legacy.mkColor "Red" "#FF0000"]))
                    Examples.freshWorld)) = 1%nat.
Proof.
  destruct (@legacy_batch_asks_once_and_marks_no_error Examples.refusing
              (Legacy.mkState
                 [Legacy.mkImage "a" "data:image/png;base64,AAAA" []
                                 Types.pending None None]
                 false 0 false
                 (Legacy.mkSettings [Legacy.mkColor "Red" "#FF0000"]))
              Examples.freshWorld) as [Hcalls _].
  - discriminate.
  - discriminate.
  - exact Hcalls.
Defined.

